(** * Insurance-API: the questionnaire service of [main.py]

    A shallow embedding of the record mapper ([Answer.marshal],
    [Question.marshal], [Application.marshal]), of the two queries
    ([Query.applications], [Query.getApplicationWithQuestion]) and of the
    mutation ([Mutation.saveAnswers]), together with the part of the
    property graph store that the four Cypher texts of the file read and
    write.

    Python values are untyped: the strawberry classes are plain data
    classes whose constructors check nothing, so a record field holds
    whatever the store returned.  Exceptions are explicit: every function
    that can raise returns a [result]. *)

From Stdlib Require Import ZArith Ascii String List Lia.
From stdpp Require Import base option list gmap strings fin_maps.

Local Open Scope string_scope.
Local Open Scope list_scope.
Local Set Warnings "-register-all".

(** ** Python values and exceptions *)

Inductive pyval : Type :=
| PyNone
| PyBool (b : bool)
| PyInt (z : Z)
| PyStr (s : string)
| PyDateTime (epochmillis : Z)
| PyList (l : list pyval)
| PyDict (d : gmap string pyval).

(** A property map: what [dict(node)] gives for a node or a relationship. *)
Abbreviation dict := (gmap string pyval).

(** The exceptions the modelled code can raise.  The file defines no
    exception class of its own. *)
Inductive exn : Type :=
| KeyError (k : string)
| TypeError
| AttributeError
| UnboundLocalError (x : string).

Inductive result (A : Type) : Type :=
| Ok (a : A)
| Raise (e : exn).
Arguments Ok {A} a.
Arguments Raise {A} e.

#[global] Instance result_ret : MRet result := fun A a => Ok a.
#[global] Instance result_bind : MBind result := fun A B f m =>
  match m with
  | Ok a => f a
  | Raise e => Raise e
  end.
#[global] Instance result_fmap : FMap result := fun A B f m =>
  match m with
  | Ok a => Ok (f a)
  | Raise e => Raise e
  end.

(** A list comprehension whose body can raise: elements are evaluated
    left to right and the first exception ends the comprehension. *)
Fixpoint comprehension {A B : Type} (f : A -> result B) (l : list A)
  : result (list B) :=
  match l with
  | [] => Ok []
  | x :: l' => y ← f x; ys ← comprehension f l'; Ok (y :: ys)
  end.

(** [bool(v)] *)
Definition truthy (v : pyval) : bool :=
  match v with
  | PyNone => false
  | PyBool b => b
  | PyInt z => negb (Z.eqb z 0)
  | PyStr s => negb (String.eqb s "")
  | PyDateTime _ => true
  | PyList l => match l with [] => false | _ => true end
  | PyDict d => negb (Nat.eqb (size d) 0)
  end.

(** [o[k]] for a string key [k] *)
Definition getitem (o : pyval) (k : string) : result pyval :=
  match o with
  | PyDict d =>
      match d !! k with
      | Some v => Ok v
      | None => Raise (KeyError k)
      end
  | _ => Raise TypeError
  end.

(** [o.get(k)] *)
Definition get (o : pyval) (k : string) : result pyval :=
  match o with
  | PyDict d => Ok (default PyNone (d !! k))
  | _ => Raise AttributeError
  end.

Fixpoint chars (s : string) : list pyval :=
  match s with
  | EmptyString => []
  | String c s' => PyStr (String c EmptyString) :: chars s'
  end.

(** [for x in o]: the elements a [for] clause visits.  A dict is visited
    by its keys (Python visits them in insertion order, which a [gmap]
    does not record; nothing below depends on it). *)
Definition iter (o : pyval) : result (list pyval) :=
  match o with
  | PyList l => Ok l
  | PyStr s => Ok (chars s)
  | PyDict d => Ok (PyStr <$> (map_to_list d).*1)
  | _ => Raise TypeError
  end.

(** ** The schema types and the record mapper *)

(** [AnswerType] with the values of its members. *)
Module AnswerType.
Inductive t : Type := string | bool | float | int | list | label | date.

Definition value (a : t) : String.string :=
  match a with
  | string => "String"
  | bool => "Bool"
  | float => "Float"
  | int => "Int"
  | list => "List"
  | label => "Label"
  | date => "Date"
  end.
End AnswerType.

Module Answer.
Record t : Type := mk {
  uuid : pyval;
  answer : pyval;
  type : pyval;
  createdAt : pyval;
  updatedAt : pyval
}.

Definition marshal (obj : pyval) : result t :=
  uuid ← getitem obj "uuid";
  answer ← getitem obj "answer";
  type ← getitem obj "type";
  createdAt ← getitem obj "created_at";
  updatedAt ← getitem obj "updated_at";
  Ok (mk uuid answer type createdAt updatedAt).

(** The keys [marshal] subscripts, in the order it does. *)
Definition required : list string :=
  ["uuid"; "answer"; "type"; "created_at"; "updated_at"].
End Answer.

Module Question.
Record t : Type := mk {
  uuid : pyval;
  sectionUuid : pyval;
  order : pyval;
  type : pyval;
  questionString : pyval;
  answer : option Answer.t
}.

(** [marshal(question, answer=None)]; [answer is None] is an identity
    test, so an empty dict is marshalled like any other. *)
Definition marshal (question : pyval) (answer : pyval) : result t :=
  answer ← match answer with
           | PyNone => Ok None
           | _ => Some <$> Answer.marshal answer
           end;
  uuid ← getitem question "uuid";
  sectionUuid ← getitem question "section_uuid";
  order ← getitem question "order";
  type ← getitem question "type";
  questionString ← getitem question "question_string";
  Ok (mk uuid sectionUuid order type questionString answer).

Definition required : list string :=
  ["uuid"; "section_uuid"; "order"; "type"; "question_string"].
End Question.

Module Application.
Record t : Type := mk {
  uuid : pyval;
  name : pyval;
  version : pyval;
  createdAt : pyval;
  updatedAt : pyval;
  questions : list Question.t
}.

(** [Question.marshal(question.get('question'), question.get('answer'))] *)
Definition marshal_entry (question : pyval) : result Question.t :=
  q ← get question "question";
  a ← get question "answer";
  Question.marshal q a.

(** The keyword arguments of [cls(...)] are evaluated in the order they
    are written: the five header keys, then the comprehension.  The
    [print] goes to standard output and is not modelled. *)
Definition marshal (application : pyval) : result t :=
  questions ← get application "questions";
  let questions := if truthy questions then questions else PyList [] in
  uuid ← getitem application "uuid";
  name ← getitem application "name";
  version ← getitem application "version";
  createdAt ← getitem application "created_at";
  updatedAt ← getitem application "updated_at";
  items ← iter questions;
  questions ← comprehension marshal_entry items;
  Ok (mk uuid name version createdAt updatedAt questions).

Definition required : list string :=
  ["uuid"; "name"; "version"; "created_at"; "updated_at"].
End Application.

(** ** The store: a property graph

    Nodes and relationships carry an identity, labels or a type, and a
    property map.  [next_id] is the first identity the store has not yet
    handed out.

    The application id is spliced into the text of three of the four
    queries between quotes.  It is read back as the same string as long as
    it holds no quote and no backslash ([plain_id]), which is the case
    modelled: the patterns below compare with the id itself.  With a
    quote or a backslash in the id the text is another query, or none,
    and nothing below speaks of it. *)

Record node : Type := Node {
  n_id : nat;
  n_labels : list string;
  n_props : dict
}.

Record rel : Type := Rel {
  r_id : nat;
  r_type : string;
  r_start : nat;
  r_end : nat;
  r_props : dict
}.

Record graph : Type := Graph {
  nodes : list node;
  rels : list rel;
  next_id : nat
}.

Definition has_label (l : string) (n : node) : bool :=
  existsb (String.eqb l) (n_labels n).

(** An application id that the text ['<id>'] of a query reads back as
    itself: no character of it ends the string literal (a quote) or
    starts an escape (a backslash). *)
Definition plain_char (c : Ascii.ascii) : bool :=
  negb (Ascii.eqb c "'"%char || Ascii.eqb c "\"%char).

Fixpoint plain_id (s : string) : bool :=
  match s with
  | EmptyString => true
  | String c s' => plain_char c && plain_id s'
  end.

(** A property predicate [{k: v}] of a pattern.  The texts below compare
    with a string literal or with a string taken from the parameter; a
    missing value ([null]) equals nothing. *)
Definition prop_is (props : dict) (k : string) (v : option pyval) : bool :=
  match props !! k, v with
  | Some (PyStr a), Some (PyStr b) => String.eqb a b
  | _, _ => false
  end.

(** [SET x.k = v]; setting [null] removes the property. *)
Definition set_prop (k : string) (v : option pyval) (props : dict) : dict :=
  match v with
  | Some v => <[k := v]> props
  | None => delete k props
  end.

(** What the store decides for one query: the value of [timestamp()],
    which is the same throughout a query, and the successive results of
    [apoc.create.uuid()]. *)
Record oracle : Type := Oracle {
  timestamp : Z;
  uuid_at : nat -> string
}.

(** [datetime({epochmillis:timestamp()})] *)
Definition datetime_now (o : oracle) : pyval := PyDateTime (timestamp o).

(** [(app:Application {uuid: '<applicationUuid>'})] *)
Definition is_application (applicationUuid : string) (n : node) : bool :=
  has_label "Application" n
  && prop_is (n_props n) "uuid" (Some (PyStr applicationUuid)).

(** [(q:Question {uuid: <v>})] *)
Definition is_question (v : option pyval) (n : node) : bool :=
  has_label "Question" n && prop_is (n_props n) "uuid" v.

(** [(q)-[:HAS_ANSWER {has_application_uuid: '<applicationUuid>'}]->] *)
Definition is_has_answer (applicationUuid : string) (q : node) (r : rel)
  : bool :=
  Nat.eqb (r_start r) (n_id q)
  && String.eqb (r_type r) "HAS_ANSWER"
  && prop_is (r_props r) "has_application_uuid"
       (Some (PyStr applicationUuid)).

(** [(app)-->(q:Question)]: the relationship and the node it reaches. *)
Definition questions_of (g : graph) (app : node) : list (rel * node) :=
  e ← filter (fun r => Nat.eqb (r_start r) (n_id app) = true) (rels g);
  q ← filter (fun n => Nat.eqb (n_id n) (r_end e) && has_label "Question" n
                       = true) (nodes g);
  [(e, q)].

(** [(q)-[r:HAS_ANSWER {...}]->(a:Answer)] *)
Definition answers_of (g : graph) (applicationUuid : string) (q : node)
  : list (rel * node) :=
  r ← filter (fun r => is_has_answer applicationUuid q r = true) (rels g);
  a ← filter (fun n => Nat.eqb (n_id n) (r_end r) && has_label "Answer" n
                       = true) (nodes g);
  [(r, a)].

Module AnsRow.
Record t : Type := mk { app : dict; q : dict; qa : dict; ans : dict }.
End AnsRow.

Module NoAnsRow.
Record t : Type := mk { app : dict; q : dict }.
End NoAnsRow.

(** The rows of [MATCH (a:Application) RETURN a], each already reduced to
    [row['a']]. *)
Definition run_applications (g : graph) : list dict :=
  n_props <$> filter (fun n => has_label "Application" n = true) (nodes g).

(** The rows of [ans_query], for an application id that the text reads
    back as itself ([plain_id]).  A relationship is traversed at most once
    in a pattern.  The store promises no row order; the model fixes one. *)
Definition run_ans_query (g : graph) (applicationUuid : string)
  : list AnsRow.t :=
  app ← filter (fun n => is_application applicationUuid n = true) (nodes g);
  eq ← questions_of g app;
  ra ← filter (fun ra => negb (Nat.eqb (r_id ra.1) (r_id eq.1)) = true)
         (answers_of g applicationUuid eq.2);
  [AnsRow.mk (n_props app) (n_props eq.2) (r_props ra.1) (n_props ra.2)].

(** The rows of [no_ans_query], for such an id. *)
Definition run_no_ans_query (g : graph) (applicationUuid : string)
  : list NoAnsRow.t :=
  app ← filter (fun n => is_application applicationUuid n = true) (nodes g);
  eq ← questions_of g app;
  if existsb (is_has_answer applicationUuid eq.2) (rels g) then []
  else [NoAnsRow.mk (n_props app) (n_props eq.2)].

(** *** The write query of [saveAnswers]

    [UNWIND $answers as answer MATCH (q:Question {uuid: answer.questionUuid})]
    makes one row per answer of the parameter and Question node it names
    (a clause reads the graph the clauses before it left: the table is
    fixed before [MERGE] writes).  [MERGE] then handles the rows one after
    the other, each seeing what the rows before it wrote. *)

Definition save_table (g : graph) (answers : list dict)
  : list (dict * node) :=
  answer ← answers;
  q ← filter (fun n => is_question (answer !! "questionUuid") n = true)
        (nodes g);
  [(answer, q)].

(** [ON MATCH SET] on the Answer node of a matched path ... *)
Definition match_answer_props (o : oracle) (answer : dict) (props : dict)
  : dict :=
  set_prop "updated_at" (Some (datetime_now o))
    (set_prop "answer" (answer !! "answer")
       (set_prop "type" (answer !! "type") props)).

(** ... and on its relationship. *)
Definition match_rel_props (o : oracle) (props : dict) : dict :=
  set_prop "updated_at" (Some (datetime_now o)) props.

(** [ON CREATE SET] on the Answer node [MERGE] created, drawing the
    [k]-th uuid of the query ... *)
Definition create_answer_props (o : oracle) (k : nat) (answer : dict)
  : dict :=
  set_prop "updated_at" (Some (datetime_now o))
    (set_prop "created_at" (Some (datetime_now o))
       (set_prop "answer" (answer !! "answer")
          (set_prop "type" (answer !! "type")
             (set_prop "uuid" (Some (PyStr (uuid_at o k))) ∅)))).

(** ... and on the relationship it created with the property of the
    pattern, drawing the next uuid. *)
Definition create_rel_props (o : oracle) (k : nat) (applicationUuid : string)
  : dict :=
  set_prop "updated_at" (Some (datetime_now o))
    (set_prop "created_at" (Some (datetime_now o))
       (set_prop "has_application_uuid" (Some (PyStr applicationUuid))
          (set_prop "uuid" (Some (PyStr (uuid_at o (S k))))
             {[ "has_application_uuid" := PyStr applicationUuid ]}))).

(** The relationships and the nodes that the matched paths of [q] bind to
    [r] and to [a]. *)
Definition merge_binds_rel (g : graph) (applicationUuid : string) (q : node)
  (r : rel) : bool :=
  is_has_answer applicationUuid q r
  && existsb (fun n => Nat.eqb (n_id n) (r_end r) && has_label "Answer" n)
       (nodes g).

Definition merge_binds_node (g : graph) (applicationUuid : string) (q : node)
  (n : node) : bool :=
  has_label "Answer" n
  && existsb (fun r => is_has_answer applicationUuid q r
                       && Nat.eqb (n_id n) (r_end r)) (rels g).

Definition on_match_node (o : oracle) (answer : dict) (n : node) : node :=
  Node (n_id n) (n_labels n) (match_answer_props o answer (n_props n)).

Definition on_match_rel (o : oracle) (r : rel) : rel :=
  Rel (r_id r) (r_type r) (r_start r) (r_end r)
    (match_rel_props o (r_props r)).

(** [ON MATCH SET] reaches the nodes and the relationships that the
    matched paths bind, and no other. *)
Definition merge_set_node (o : oracle) (applicationUuid : string)
  (answer : dict) (q : node) (g : graph) (n : node) : node :=
  if merge_binds_node g applicationUuid q n then on_match_node o answer n
  else n.

Definition merge_set_rel (o : oracle) (applicationUuid : string) (q : node)
  (g : graph) (r : rel) : rel :=
  if merge_binds_rel g applicationUuid q r then on_match_rel o r else r.

Definition on_match (o : oracle) (applicationUuid : string) (answer : dict)
  (q : node) (g : graph) : graph :=
  {| nodes := merge_set_node o applicationUuid answer q g <$> nodes g;
     rels := merge_set_rel o applicationUuid q g <$> rels g;
     next_id := next_id g |}.

(** The Answer node and the relationship [MERGE] creates when no path
    matches. *)
Definition created_answer (o : oracle) (k : nat) (answer : dict) (g : graph)
  : node :=
  Node (next_id g) ["Answer"] (create_answer_props o k answer).

Definition created_rel (o : oracle) (k : nat) (applicationUuid : string)
  (q : node) (g : graph) : rel :=
  Rel (next_id g) "HAS_ANSWER" (n_id q) (next_id g)
    (create_rel_props o k applicationUuid).

Definition on_create (o : oracle) (k : nat) (applicationUuid : string)
  (answer : dict) (q : node) (g : graph) : graph :=
  {| nodes := nodes g ++ [created_answer o k answer g];
     rels := rels g ++ [created_rel o k applicationUuid q g];
     next_id := S (next_id g) |}.

(** [MERGE ... ON CREATE SET ... ON MATCH SET ...] for one row.  The state
    is the graph and the number of uuids drawn so far. *)
Definition merge_row (o : oracle) (applicationUuid : string)
  (s : graph * nat) (row : dict * node) : graph * nat :=
  match answers_of s.1 applicationUuid row.2 with
  | [] => (on_create o s.2 applicationUuid row.1 row.2 s.1, S (S s.2))
  | _ :: _ => (on_match o applicationUuid row.1 row.2 s.1, s.2)
  end.

(** [session.run(query, answers=...)] for an application id that the text
    reads back as itself ([plain_id]); the rows of [RETURN q, a, r] are
    not read by the caller. *)
Definition run_save (o : oracle) (applicationUuid : string)
  (answers : list dict) (g : graph) : graph :=
  (foldl (merge_row o applicationUuid) (g, 0) (save_table g answers)).1.

(** ** The input types of the mutation *)

Module SaveAnswerInput.
Record t : Type := mk {
  answer : string;
  questionUuid : string;
  type : AnswerType.t
}.

Definition to_dict (self : t) : dict :=
  {[ "answer" := PyStr (answer self);
     "type" := PyStr (AnswerType.value (type self));
     "questionUuid" := PyStr (questionUuid self) ]}.
End SaveAnswerInput.

Module SaveAnswersInput.
Record t : Type := mk {
  applicationUuid : string;
  answers : list SaveAnswerInput.t
}.

Definition serialize (self : t) : list dict :=
  SaveAnswerInput.to_dict <$> answers self.
End SaveAnswersInput.

(** ** Queries and the mutation

    The store is taken to be reachable: [session.run] raises nothing. *)

(** One pass of a [for] loop whose body can raise. *)
Fixpoint for_each {S A : Type} (body : S -> A -> result S) (l : list A)
  (s : S) : result S :=
  match l with
  | [] => Ok s
  | x :: l' => s' ← body s x; for_each body l' s'
  end.

Module Query.
Definition applications (g : graph) : result (list Application.t) :=
  let rows := run_applications g in
  comprehension (fun a => Application.marshal (PyDict a)) rows.

(** [app['questions'].append(entry)]; the local [app] is bound only if
    one of the two [if]s ran. *)
Definition append_question (app : option dict) (entry : pyval)
  : result (option dict) :=
  match app with
  | None => Raise (UnboundLocalError "app")
  | Some d =>
      questions ← getitem (PyDict d) "questions";
      match questions with
      | PyList l => Ok (Some (<["questions" := PyList (l ++ [entry])]> d))
      | _ => Raise AttributeError
      end
  end.

Definition ans_entry (row : AnsRow.t) : pyval :=
  PyDict {[ "question" := PyDict (AnsRow.q row);
            "answer" := PyDict (AnsRow.ans row) ]}.

Definition no_ans_entry (row : NoAnsRow.t) : pyval :=
  PyDict {[ "question" := PyDict (NoAnsRow.q row) ]}.

(** The body of [getApplicationWithQuestion] once both row lists are
    read (from [if ans_rows:] to the [return]). *)
Definition reconcile (ans_rows : list AnsRow.t)
  (no_ans_rows : list NoAnsRow.t) : result Application.t :=
  let app : option dict := None in
  let app :=
    match ans_rows with
    | row :: _ => Some (<["questions" := PyList []]> (AnsRow.app row))
    | [] => app
    end in
  let app :=
    match no_ans_rows with
    | row :: _ => Some (<["questions" := PyList []]> (NoAnsRow.app row))
    | [] => app
    end in
  app ← for_each (fun app row => append_question app (ans_entry row))
          ans_rows app;
  app ← for_each (fun app row => append_question app (no_ans_entry row))
          no_ans_rows app;
  match app with
  | None => Raise (UnboundLocalError "app")
  | Some d => Application.marshal (PyDict d)
  end.

Definition getApplicationWithQuestion (g : graph) (applicationUuid : string)
  : result Application.t :=
  let ans_rows := run_ans_query g applicationUuid in
  let no_ans_rows := run_no_ans_query g applicationUuid in
  reconcile ans_rows no_ans_rows.
End Query.

Module Mutation.
(** Returns the graph the store is left with and the value of the
    [return] statement.  The store is taken to be reachable and the text
    of the query to be the one modelled, which it is for a [plain_id]:
    with a quote or a backslash in the id [session.run] is handed another
    text and may well raise, and the statements about [saveAnswers] below
    leave such ids out. *)
Definition saveAnswers (o : oracle) (data : SaveAnswersInput.t) (g : graph)
  : result (graph * option Question.t) :=
  let applicationUuid := SaveAnswersInput.applicationUuid data in
  let g' := run_save o applicationUuid (SaveAnswersInput.serialize data) g in
  Ok (g', None).
End Mutation.

(** ** Vocabulary of the statements *)

(** The error taxonomy of the design.  The code raises Python's own
    exceptions: a failed subscript ([KeyError]) is the missing field of the
    taxonomy, and nothing else the code raises belongs to it. *)
Inductive typed_error : Type :=
| MissingField (k : string)
| ApplicationNotFound
| QuestionNotFound
| StoreUnavailable
| InternalConsistency.

Definition as_typed (e : exn) : option typed_error :=
  match e with
  | KeyError k => Some (MissingField k)
  | _ => None
  end.

Definition typed_failure {A : Type} (r : result A) : option typed_error :=
  match r with
  | Ok _ => None
  | Raise e => as_typed e
  end.

(** A record holds the values stored under the keys of its class. *)
Definition answer_fields (d : dict) (a : Answer.t) : Prop :=
  d !! "uuid" = Some (Answer.uuid a)
  /\ d !! "answer" = Some (Answer.answer a)
  /\ d !! "type" = Some (Answer.type a)
  /\ d !! "created_at" = Some (Answer.createdAt a)
  /\ d !! "updated_at" = Some (Answer.updatedAt a).

Definition question_fields (d : dict) (q : Question.t) : Prop :=
  d !! "uuid" = Some (Question.uuid q)
  /\ d !! "section_uuid" = Some (Question.sectionUuid q)
  /\ d !! "order" = Some (Question.order q)
  /\ d !! "type" = Some (Question.type q)
  /\ d !! "question_string" = Some (Question.questionString q).

Definition header_fields (d : dict) (a : Application.t) : Prop :=
  d !! "uuid" = Some (Application.uuid a)
  /\ d !! "name" = Some (Application.name a)
  /\ d !! "version" = Some (Application.version a)
  /\ d !! "created_at" = Some (Application.createdAt a)
  /\ d !! "updated_at" = Some (Application.updatedAt a).

(** A property map lacks a required key; a result reports one such key
    as the missing field. *)
Definition lacks (required : list string) (d : dict) : Prop :=
  exists k, k ∈ required /\ d !! k = None.

Definition reports_missing {A : Type} (required : list string) (d : dict)
  (r : result A) : Prop :=
  exists k, k ∈ required /\ d !! k = None
            /\ typed_failure r = Some (MissingField k).

(** The first key of [required] that a property map lacks. *)
Fixpoint first_missing (required : list string) (d : dict) : option string :=
  match required with
  | [] => None
  | k :: required' =>
      match d !! k with
      | Some _ => first_missing required' d
      | None => Some k
      end
  end.

(** An answered row and the question it becomes; likewise unanswered. *)
Definition answered_as (row : AnsRow.t) (q : Question.t) : Prop :=
  question_fields (AnsRow.q row) q
  /\ exists a, answer_fields (AnsRow.ans row) a /\ Question.answer q = Some a.

Definition unanswered_as (row : NoAnsRow.t) (q : Question.t) : Prop :=
  question_fields (NoAnsRow.q row) q /\ Question.answer q = None.

(** A row that can be marshalled by itself: [Question.marshal] on its
    question map (and its answer map, if it has one) returns. *)
Definition marshals_answered (row : AnsRow.t) : Prop :=
  exists q,
    Question.marshal (PyDict (AnsRow.q row)) (PyDict (AnsRow.ans row)) = Ok q.

Definition marshals_unanswered (row : NoAnsRow.t) : Prop :=
  exists q, Question.marshal (PyDict (NoAnsRow.q row)) PyNone = Ok q.

(** The application projection [reconcile] keeps: the second [if]
    overwrites what the first one bound. *)
Definition picked_app (ans_rows : list AnsRow.t)
  (no_ans_rows : list NoAnsRow.t) : option dict :=
  match no_ans_rows, ans_rows with
  | row :: _, _ => Some (NoAnsRow.app row)
  | [], row :: _ => Some (AnsRow.app row)
  | [], [] => None
  end.

(** Question ids of the rows read, and of the questions returned. *)
Definition input_ids (ans_rows : list AnsRow.t)
  (no_ans_rows : list NoAnsRow.t) : list (option pyval) :=
  ((fun row => AnsRow.q row !! "uuid") <$> ans_rows)
  ++ ((fun row => NoAnsRow.q row !! "uuid") <$> no_ans_rows).

Definition output_ids (a : Application.t) : list (option pyval) :=
  (fun q => Some (Question.uuid q)) <$> Application.questions a.

Definition occurs_once {A : Type} (x : A) (l : list A) : Prop :=
  exists l1 l2, l = l1 ++ x :: l2 /\ (x ∉ l1) /\ (x ∉ l2).

(** What the store can hold in a property: a scalar or a list of scalars
    (no map, no null). *)
Definition scalar (v : pyval) : bool :=
  match v with
  | PyBool _ | PyInt _ | PyStr _ | PyDateTime _ => true
  | PyNone | PyList _ | PyDict _ => false
  end.

Definition storable (v : pyval) : bool :=
  match v with
  | PyList l => forallb scalar l
  | _ => scalar v
  end.

Definition props_storable (d : dict) : bool :=
  forallb (fun kv => storable kv.2) (map_to_list d).

Definition graph_storable (g : graph) : bool :=
  forallb (fun n => props_storable (n_props n)) (nodes g).

(** An application node as [applications] lists it. *)
Definition listed_as (d : dict) (a : Application.t) : Prop :=
  header_fields d a
  /\ Application.questions a = []
  /\ truthy (default PyNone (d !! "questions")) = false.

(** The Question nodes a uuid names, and the answer-relationships (with
    their Answer nodes) keyed by a question uuid and an application uuid. *)
Definition question_nodes (g : graph) (questionUuid : string) : list node :=
  filter (fun n => is_question (Some (PyStr questionUuid)) n = true) (nodes g).

Definition answer_rels (g : graph) (questionUuid applicationUuid : string)
  : list (rel * node) :=
  q ← question_nodes g questionUuid;
  answers_of g applicationUuid q.

(** No question node has two answer-relationships for one application. *)
Definition key_unique (g : graph) : Prop :=
  forall applicationUuid q, length (answers_of g applicationUuid q) <= 1.

(** Every identity in the graph was handed out by the store. *)
Definition ids_allocated (g : graph) : bool :=
  forallb (fun n => Nat.ltb (n_id n) (next_id g)) (nodes g)
  && forallb (fun r => Nat.ltb (r_id r) (next_id g)
                       && Nat.ltb (r_start r) (next_id g)
                       && Nat.ltb (r_end r) (next_id g)) (rels g).

(** ** Scenario data

    Application [A1] with questions [Q1] and [Q2], as in the scenarios of
    the design, and rows as the two traversals return them. *)

Definition application_props (uuid name : string) : dict :=
  {[ "uuid" := PyStr uuid; "name" := PyStr name; "version" := PyStr "1";
     "created_at" := PyDateTime 10; "updated_at" := PyDateTime 20 ]}.

Definition question_props (uuid : string) (order : Z) : dict :=
  {[ "uuid" := PyStr uuid; "section_uuid" := PyStr "S1";
     "order" := PyInt order; "type" := PyStr "String";
     "question_string" := PyStr "?" ]}.

Definition answer_props (uuid answer : string) : dict :=
  {[ "uuid" := PyStr uuid; "answer" := PyStr answer;
     "type" := PyStr "String";
     "created_at" := PyDateTime 30; "updated_at" := PyDateTime 40 ]}.

Definition scenario_graph : graph :=
  {| nodes := [Node 0 ["Application"] (application_props "A1" "Home");
               Node 1 ["Question"] (question_props "Q1" 2);
               Node 2 ["Question"] (question_props "Q2" 1)];
     rels := [Rel 3 "HAS_QUESTION" 0 1 ∅; Rel 4 "HAS_QUESTION" 0 2 ∅];
     next_id := 5 |}.

Definition oracle_1 : oracle :=
  Oracle 100 (fun k => match k with 0 => "u0" | 1 => "u1" | _ => "u" end).

Definition oracle_2 : oracle :=
  Oracle 200 (fun k => match k with 0 => "v0" | 1 => "v1" | _ => "v" end).

(** [Q1] answered "Paris" and [Q2] not answered. *)
Definition scenario_ans_rows : list AnsRow.t :=
  [AnsRow.mk (application_props "A1" "Home") (question_props "Q1" 2) ∅
     (answer_props "N1" "Paris")].

Definition scenario_no_ans_rows : list NoAnsRow.t :=
  [NoAnsRow.mk (application_props "A1" "Home") (question_props "Q2" 1)].

(** Rows that break the disjointness of the two sets: [Q1] is in both. *)
Definition shared_no_ans_rows : list NoAnsRow.t :=
  [NoAnsRow.mk (application_props "A1" "Home") (question_props "Q1" 2)].

(** Rows whose application projections differ. *)
Definition other_no_ans_rows : list NoAnsRow.t :=
  [NoAnsRow.mk (application_props "A1" "Office") (question_props "Q2" 1)].

(** The records these property maps marshal to. *)
Definition answer_record (uuid answer : string) : Answer.t :=
  Answer.mk (PyStr uuid) (PyStr answer) (PyStr "String")
    (PyDateTime 30) (PyDateTime 40).

Definition question_record (uuid : string) (order : Z)
  (answer : option Answer.t) : Question.t :=
  Question.mk (PyStr uuid) (PyStr "S1") (PyInt order) (PyStr "String")
    (PyStr "?") answer.

Definition application_record (uuid name : string)
  (questions : list Question.t) : Application.t :=
  Application.mk (PyStr uuid) (PyStr name) (PyStr "1")
    (PyDateTime 10) (PyDateTime 20) questions.

(** ** The filter helper

    [_and(cur_filter, new_filter)] gives the next clause of a filter that
    is built up piece by piece.  [new_filter] is a string, which an
    f-string renders as itself. *)
Definition _and (cur_filter : pyval) (new_filter : string) : string :=
  if negb (truthy cur_filter) then "WHERE " +:+ new_filter +:+ " "
  else "AND " +:+ new_filter +:+ " ".

(** ** Vocabulary of the further properties *)

(** A relationship that is not an answer-relationship of the application. *)
Definition other_rel (applicationUuid : string) (r : rel) : bool :=
  negb (String.eqb (r_type r) "HAS_ANSWER"
        && prop_is (r_props r) "has_application_uuid"
             (Some (PyStr applicationUuid))).

(** What identifies a node and a relationship apart from the properties. *)
Definition node_shape (n : node) : nat * list string :=
  (n_id n, n_labels n).

Definition rel_shape (r : rel) : nat * string * nat * nat :=
  (r_id r, r_type r, r_start r, r_end r).

(** What a save leaves alone: the nodes without the Answer label and the
    relationships that are not answer-relationships of the application are
    the same, in the same order; every node and relationship is still
    there with its identity, labels, type and end points; and what is
    added is Answer nodes and [HAS_ANSWER] relationships. *)
Definition frame_holds (applicationUuid : string) (g g' : graph) : Prop :=
  filter (fun n => negb (has_label "Answer" n) = true) (nodes g')
  = filter (fun n => negb (has_label "Answer" n) = true) (nodes g)
  /\ filter (fun r => other_rel applicationUuid r = true) (rels g')
     = filter (fun r => other_rel applicationUuid r = true) (rels g)
  /\ (exists created,
        node_shape <$> nodes g' = (node_shape <$> nodes g) ++ created
        /\ Forall (fun p => p.2 = ["Answer"]) created)
  /\ (exists created,
        rel_shape <$> rels g' = (rel_shape <$> rels g) ++ created
        /\ Forall (fun p => p.1.1.2 = "HAS_ANSWER") created).

(** No node is both an Application and an Answer. *)
Definition applications_apart (g : graph) : bool :=
  forallb (fun n => negb (has_label "Application" n && has_label "Answer" n))
    (nodes g).

(** The store's uuids for a query that follows [n] draws of this one. *)
Definition shift_oracle (n : nat) (o : oracle) : oracle :=
  Oracle (timestamp o) (fun k => uuid_at o (n + k)).

(** The number of uuids a write query draws. *)
Definition save_draws (o : oracle) (applicationUuid : string)
  (answers : list dict) (g : graph) : nat :=
  (foldl (merge_row o applicationUuid) (g, 0) (save_table g answers)).2.

(** The Question nodes of [g'] are those of [g], in order and with their
    identities, whatever uuid is looked for. *)
Definition same_questions (g g' : graph) : Prop :=
  exists F : node -> node,
    (forall n, n_id (F n) = n_id n)
    /\ forall v, filter (fun n => is_question v n = true) (nodes g')
                 = F <$> filter (fun n => is_question v n = true) (nodes g).

(** The rows that one question of the application gives to each of the
    two traversals: [eq] is the relationship from the application and the
    Question node it reaches. *)
Definition ans_rows_of (g : graph) (applicationUuid : string) (app : node)
  (eq : rel * node) : list AnsRow.t :=
  ra ← filter (fun ra => negb (Nat.eqb (r_id ra.1) (r_id eq.1)) = true)
         (answers_of g applicationUuid eq.2);
  [AnsRow.mk (n_props app) (n_props eq.2) (r_props ra.1) (n_props ra.2)].

Definition no_ans_rows_of (g : graph) (applicationUuid : string) (app : node)
  (eq : rel * node) : list NoAnsRow.t :=
  if existsb (is_has_answer applicationUuid eq.2) (rels g) then []
  else [NoAnsRow.mk (n_props app) (n_props eq.2)].

(** The entries that one question of the application puts on the list of
    [getApplicationWithQuestion]. *)
Definition entries_of (g : graph) (applicationUuid : string) (app : node)
  (eq : rel * node) : list pyval :=
  (Query.ans_entry <$> ans_rows_of g applicationUuid app eq)
  ++ (Query.no_ans_entry <$> no_ans_rows_of g applicationUuid app eq).

(** A question record given an answer, if its uuid is the one named. *)
Definition with_answer (questionUuid : string) (answer : Answer.t)
  (q : Question.t) : Question.t :=
  match Question.uuid q with
  | PyStr u =>
      if String.eqb u questionUuid
      then Question.mk (Question.uuid q) (Question.sectionUuid q)
             (Question.order q) (Question.type q)
             (Question.questionString q) (Some answer)
      else q
  | _ => q
  end.

(** Why a stored Application node cannot be marshalled, if it cannot:
    [Some (Some k)], it lacks the header key [k], the first in the order
    the keys are read; [Some None], its header is complete and it carries
    a truthy [questions] property, which is iterated as if it held
    entries. *)
Definition stored_failure (d : dict) : option (option string) :=
  match first_missing Application.required d with
  | Some k => Some (Some k)
  | None =>
      if truthy (default PyNone (d !! "questions")) then Some None else None
  end.

(** The exceptions of such a failure: [KeyError] on the key; for a
    stored [questions], the failed iteration of the value ([TypeError])
    or the failed [.get] on one of its elements ([AttributeError]). *)
Definition raised_by (f : option string) (e : exn) : Prop :=
  match f with
  | Some k => e = KeyError k
  | None => e = TypeError \/ e = AttributeError
  end.

(** Distinct Question nodes carry distinct uuids. *)
Definition question_uuids_distinct (g : graph) : Prop :=
  NoDup ((fun n => n_props n !! "uuid")
           <$> filter (fun n => has_label "Question" n = true) (nodes g)).

(** The paths that the two traversals match, before the rows are made of
    their property maps: the Application node, the relationship to a
    Question node with that node, and for the answered traversal the
    answer-relationship with its Answer node. *)
Definition ans_paths (g : graph) (applicationUuid : string)
  : list (node * (rel * node) * (rel * node)) :=
  app ← filter (fun n => is_application applicationUuid n = true) (nodes g);
  eq ← questions_of g app;
  ra ← filter (fun ra => negb (Nat.eqb (r_id ra.1) (r_id eq.1)) = true)
         (answers_of g applicationUuid eq.2);
  [(app, eq, ra)].

Definition ans_path_row (p : node * (rel * node) * (rel * node)) : AnsRow.t :=
  AnsRow.mk (n_props p.1.1) (n_props p.1.2.2) (r_props p.2.1) (n_props p.2.2).

Definition no_ans_paths (g : graph) (applicationUuid : string)
  : list (node * (rel * node)) :=
  app ← filter (fun n => is_application applicationUuid n = true) (nodes g);
  eq ← questions_of g app;
  if existsb (is_has_answer applicationUuid eq.2) (rels g) then []
  else [(app, eq)].

Definition no_ans_path_row (p : node * (rel * node)) : NoAnsRow.t :=
  NoAnsRow.mk (n_props p.1) (n_props p.2.2).

(** No node is an Answer and an Application or a Question at once. *)
Definition labels_apart (g : graph) : bool :=
  forallb (fun n => negb (has_label "Answer" n
                          && (has_label "Application" n
                              || has_label "Question" n)))
    (nodes g).

(** No node is the end of two [HAS_ANSWER] relationships: an Answer
    belongs to one question and one application. *)
Definition answer_ends_unique (g : graph) : Prop :=
  NoDup (r_end <$> filter (fun r => String.eqb (r_type r) "HAS_ANSWER" = true)
                     (rels g)).

(** What [ON MATCH SET] makes of a path of the traversals. *)
Definition merge_set_path (o : oracle) (applicationUuid : string)
  (answer : dict) (q : node) (g : graph)
  (p : node * (rel * node) * (rel * node))
  : node * (rel * node) * (rel * node) :=
  (merge_set_node o applicationUuid answer q g p.1.1,
   prod_map (merge_set_rel o applicationUuid q g)
     (merge_set_node o applicationUuid answer q g) p.1.2,
   prod_map (merge_set_rel o applicationUuid q g)
     (merge_set_node o applicationUuid answer q g) p.2).

Definition merge_set_no_ans_path (o : oracle) (applicationUuid : string)
  (answer : dict) (q : node) (g : graph) (p : node * (rel * node))
  : node * (rel * node) :=
  (merge_set_node o applicationUuid answer q g p.1,
   prod_map (merge_set_rel o applicationUuid q g)
     (merge_set_node o applicationUuid answer q g) p.2).

(** Applications [A1] and [A2] share the questions [Q1] and [Q2]; [Q1]
    is answered "Paris" for [A2]. *)
Definition shared_questions_graph : graph :=
  {| nodes := [Node 0 ["Application"] (application_props "A1" "Home");
               Node 1 ["Question"] (question_props "Q1" 2);
               Node 2 ["Question"] (question_props "Q2" 1);
               Node 5 ["Application"] (application_props "A2" "Car");
               Node 8 ["Answer"] (answer_props "N1" "Paris")];
     rels := [Rel 3 "HAS_QUESTION" 0 1 ∅; Rel 4 "HAS_QUESTION" 0 2 ∅;
              Rel 6 "HAS_QUESTION" 5 1 ∅; Rel 7 "HAS_QUESTION" 5 2 ∅;
              Rel 9 "HAS_ANSWER" 1 8
                {[ "uuid" := PyStr "R1";
                   "has_application_uuid" := PyStr "A2";
                   "created_at" := PyDateTime 30;
                   "updated_at" := PyDateTime 40 ]}];
     next_id := 10 |}.



(** * Proofs *)

(** ** The result monad and comprehensions *)

Lemma bind_Ok {A B : Type} (m : result A) (f : A -> result B) (b : B) :
  m ≫= f = Ok b <-> exists a, m = Ok a /\ f a = Ok b.
Proof.
  destruct m as [a|e]; simpl; split.
  - intros H. exists a. split; [reflexivity | exact H].
  - intros (a' & Ha & Hf). injection Ha as ->. exact Hf.
  - discriminate.
  - intros (a' & Ha & _). discriminate.
Qed.

Lemma comprehension_app {A B : Type} (f : A -> result B) (l1 l2 : list A) :
  comprehension f (l1 ++ l2) =
  ys1 ← comprehension f l1; ys2 ← comprehension f l2; Ok (ys1 ++ ys2).
Proof.
  induction l1 as [|x l1 IH]; simpl.
  - destruct (comprehension f l2); reflexivity.
  - destruct (f x) as [y|e]; simpl; [|reflexivity].
    rewrite IH. destruct (comprehension f l1) as [ys1|e]; simpl; [|reflexivity].
    destruct (comprehension f l2); reflexivity.
Qed.

Lemma comprehension_fmap {A B C : Type} (g : A -> B) (f : B -> result C)
  (l : list A) :
  comprehension f (g <$> l) = comprehension (fun x => f (g x)) l.
Proof.
  induction l as [|x l IH]; [reflexivity|].
  rewrite fmap_cons. cbn [comprehension]. rewrite IH. reflexivity.
Qed.

Lemma comprehension_Ok {A B : Type} (f : A -> result B) (l : list A)
  (ys : list B) :
  comprehension f l = Ok ys <-> Forall2 (fun x y => f x = Ok y) l ys.
Proof.
  revert ys. induction l as [|x l IH]; intros ys; simpl.
  - split.
    + intros [= <-]. constructor.
    + intros H. inversion H. reflexivity.
  - split.
    + intros H. apply bind_Ok in H as (y & Hy & H).
      apply bind_Ok in H as (ys' & Hys & [= <-]).
      constructor; [exact Hy | apply IH, Hys].
    + intros H. inversion H as [|? y ? ys' Hy Hys]; subst.
      rewrite Hy. simpl. apply IH in Hys. rewrite Hys. reflexivity.
Qed.

Lemma comprehension_length {A B : Type} (f : A -> result B) (l : list A)
  (ys : list B) :
  comprehension f l = Ok ys -> length ys = length l.
Proof.
  intros H. apply comprehension_Ok in H. symmetry. 
  eapply Forall2_length, H.
Qed.

(** ** The record mapper *)

Lemma first_missing_Some (required : list string) (d : dict) (k : string) :
  first_missing required d = Some k -> k ∈ required /\ d !! k = None.
Proof.
  induction required as [|k' required IH]; simpl; [discriminate|].
  destruct (d !! k') eqn:E.
  - intros H. destruct (IH H) as [Hin Hk]. split; [right; exact Hin | exact Hk].
  - intros [= <-]. split; [left | exact E].
Qed.

Lemma first_missing_None (required : list string) (d : dict) :
  first_missing required d = None <-> forall k, k ∈ required -> is_Some (d !! k).
Proof.
  induction required as [|k' required IH]; simpl.
  - split; [intros _ k Hk; inversion Hk | reflexivity].
  - destruct (d !! k') eqn:E.
    + rewrite IH. split.
      * intros H k Hk. inversion Hk; subst; [rewrite E; eauto | apply H; assumption].
      * intros H k Hk. apply H. right. exact Hk.
    + split; [discriminate|]. intros H.
      destruct (H k') as [v Hv]; [left|]. congruence.
Qed.

Lemma lacks_first_missing (required : list string) (d : dict) (k : string) :
  k ∈ required -> d !! k = None -> exists k', first_missing required d = Some k'.
Proof.
  intros Hin Hk. destruct (first_missing required d) as [k'|] eqn:E; [eauto|].
  rewrite first_missing_None in E. destruct (E k Hin) as [v Hv]. congruence.
Qed.

(** Case analysis on the subscripts of a marshalling function. *)
Ltac subscripts d :=
  repeat match goal with
    | |- context [d !! ?k] => destruct (d !! k) eqn:?; simpl
    end.

Lemma Answer_marshal_missing (d : dict) (k : string) :
  first_missing Answer.required d = Some k ->
  Answer.marshal (PyDict d) = Raise (KeyError k).
Proof.
  unfold Answer.marshal, Answer.required, getitem. simpl.
  subscripts d; congruence.
Qed.

Lemma Answer_marshal_Ok (d : dict) (a : Answer.t) :
  Answer.marshal (PyDict d) = Ok a <-> answer_fields d a.
Proof.
  unfold Answer.marshal, answer_fields, getitem. destruct a; simpl.
  subscripts d; intuition congruence.
Qed.

Lemma Question_marshal_missing (d : dict) (k : string) :
  first_missing Question.required d = Some k ->
  Question.marshal (PyDict d) PyNone = Raise (KeyError k).
Proof.
  unfold Question.marshal, Question.required, getitem. simpl.
  subscripts d; congruence.
Qed.

Lemma Question_marshal_answer_missing (d d' : dict) (k : string) :
  first_missing Answer.required d' = Some k ->
  Question.marshal (PyDict d) (PyDict d') = Raise (KeyError k).
Proof.
  intros H. unfold Question.marshal.
  rewrite (Answer_marshal_missing _ _ H). reflexivity.
Qed.

Lemma Question_marshal_question_missing (d d' : dict) (k : string) :
  first_missing Answer.required d' = None ->
  first_missing Question.required d = Some k ->
  Question.marshal (PyDict d) (PyDict d') = Raise (KeyError k).
Proof.
  intros Ha Hq. unfold Question.marshal.
  destruct (Answer.marshal (PyDict d')) as [a|e] eqn:E.
  - revert Hq. unfold Question.required, getitem. simpl.
    subscripts d; congruence.
  - exfalso. revert Ha E.
    unfold Answer.marshal, Answer.required, getitem. simpl.
    subscripts d'; congruence.
Qed.

Lemma Question_marshal_None_Ok (d : dict) (q : Question.t) :
  Question.marshal (PyDict d) PyNone = Ok q <->
  question_fields d q /\ Question.answer q = None.
Proof.
  unfold Question.marshal, question_fields, getitem. destruct q; simpl.
  subscripts d; intuition congruence.
Qed.

Lemma Question_marshal_Some_Ok (d d' : dict) (q : Question.t) :
  Question.marshal (PyDict d) (PyDict d') = Ok q <->
  question_fields d q
  /\ exists a, answer_fields d' a /\ Question.answer q = Some a.
Proof.
  unfold Question.marshal.
  destruct (Answer.marshal (PyDict d')) as [a|e] eqn:E; simpl.
  - apply Answer_marshal_Ok in E.
    unfold question_fields, getitem. destruct q as [? ? ? ? ? oa]; simpl.
    subscripts d; split; try (intros [= <- <- <- <- <- <-]; eauto 10);
      try (intros ((? & ? & ? & ? & ?) & a' & Ha' & ->); try congruence).
    assert (a' = a) as ->; [|congruence].
    destruct a, a'; unfold answer_fields in *; simpl in *.
    intuition congruence.
  - split; [discriminate|]. intros (_ & a & Ha & _).
    apply Answer_marshal_Ok in Ha. congruence.
Qed.

Lemma marshal_entry_ans (row : AnsRow.t) :
  Application.marshal_entry (Query.ans_entry row) =
  Question.marshal (PyDict (AnsRow.q row)) (PyDict (AnsRow.ans row)).
Proof. reflexivity. Qed.

Lemma marshal_entry_no_ans (row : NoAnsRow.t) :
  Application.marshal_entry (Query.no_ans_entry row) =
  Question.marshal (PyDict (NoAnsRow.q row)) PyNone.
Proof. reflexivity. Qed.

Lemma Application_marshal_missing (d : dict) (k : string) :
  first_missing Application.required d = Some k ->
  Application.marshal (PyDict d) = Raise (KeyError k).
Proof.
  unfold Application.marshal, Application.required, getitem, get. simpl.
  subscripts d; congruence.
Qed.

(** Marshalling the dict that [reconcile] builds. *)
Lemma Application_marshal_questions (d : dict) (entries : list pyval)
  (a : Application.t) :
  Application.marshal (PyDict (<["questions" := PyList entries]> d)) = Ok a <->
  header_fields d a
  /\ comprehension Application.marshal_entry entries
     = Ok (Application.questions a).
Proof.
  unfold Application.marshal, header_fields, getitem, get.
  rewrite lookup_insert_eq. simpl.
  rewrite !lookup_insert_ne by discriminate.
  assert (iter (if match entries with [] => false | _ => true end
                then PyList entries else PyList []) = Ok entries) as ->.
  { destruct entries; reflexivity. }
  destruct a as [? ? ? ? ? qs]; simpl.
  subscripts d; try (intuition congruence).
  destruct (comprehension Application.marshal_entry entries) as [qs'|e]; simpl;
    intuition congruence.
Qed.

Lemma Application_marshal_questions_missing (d : dict)
  (entries : list pyval) (k : string) :
  first_missing Application.required d = Some k ->
  Application.marshal (PyDict (<["questions" := PyList entries]> d))
  = Raise (KeyError k).
Proof.
  intros H. apply Application_marshal_missing. revert H.
  unfold Application.required. simpl.
  rewrite !lookup_insert_ne by discriminate. trivial.
Qed.

(** ** The reconciliation of the two row lists *)

Lemma append_question_bound (d : dict) (l : list pyval) (entry : pyval) :
  Query.append_question (Some (<["questions" := PyList l]> d)) entry
  = Ok (Some (<["questions" := PyList (l ++ [entry])]> d)).
Proof.
  unfold Query.append_question, getitem.
  rewrite lookup_insert_eq. simpl. rewrite insert_insert_eq. reflexivity.
Qed.

Lemma for_each_append {A : Type} (entry : A -> pyval) (rows : list A)
  (d : dict) (l : list pyval) :
  for_each (fun app row => Query.append_question app (entry row)) rows
    (Some (<["questions" := PyList l]> d))
  = Ok (Some (<["questions" := PyList (l ++ (entry <$> rows))]> d)).
Proof.
  revert l. induction rows as [|row rows IH]; intros l.
  - simpl. rewrite app_nil_r. reflexivity.
  - cbn [for_each]. rewrite append_question_bound. cbn [mbind result_bind].
    rewrite IH, fmap_cons, <- app_assoc. reflexivity.
Qed.

Lemma reconcile_picked (ans_rows : list AnsRow.t)
  (no_ans_rows : list NoAnsRow.t) :
  Query.reconcile ans_rows no_ans_rows =
  match picked_app ans_rows no_ans_rows with
  | None => Raise (UnboundLocalError "app")
  | Some d =>
      Application.marshal
        (PyDict (<["questions" :=
                     PyList ((Query.ans_entry <$> ans_rows)
                             ++ (Query.no_ans_entry <$> no_ans_rows))]> d))
  end.
Proof.
  unfold Query.reconcile, picked_app.
  destruct no_ans_rows as [|u no_ans_rows], ans_rows as [|r ans_rows];
    try reflexivity.
  all: rewrite for_each_append; cbn [mbind result_bind];
    rewrite ?for_each_append; cbn [mbind result_bind for_each];
    rewrite ?fmap_nil, ?app_nil_r; reflexivity.
Qed.

Lemma comprehension_entries (ans_rows : list AnsRow.t)
  (no_ans_rows : list NoAnsRow.t) (qs : list Question.t) :
  comprehension Application.marshal_entry
    ((Query.ans_entry <$> ans_rows) ++ (Query.no_ans_entry <$> no_ans_rows))
  = Ok qs <->
  exists qa qu,
    Forall2 answered_as ans_rows qa
    /\ Forall2 unanswered_as no_ans_rows qu
    /\ qs = qa ++ qu.
Proof.
  rewrite comprehension_app, !comprehension_fmap.
  assert (Ha : forall qa,
    comprehension (fun row => Application.marshal_entry (Query.ans_entry row))
      ans_rows = Ok qa <-> Forall2 answered_as ans_rows qa).
  { intros qa. rewrite comprehension_Ok.
    split; intros H; (eapply Forall2_impl; [exact H|]);
      intros row q;
      apply (Question_marshal_Some_Ok (AnsRow.q row) (AnsRow.ans row) q). }
  assert (Hu : forall qu,
    comprehension (fun row => Application.marshal_entry (Query.no_ans_entry row))
      no_ans_rows = Ok qu <-> Forall2 unanswered_as no_ans_rows qu).
  { intros qu. rewrite comprehension_Ok.
    split; intros H; (eapply Forall2_impl; [exact H|]);
      intros row q;
      apply (Question_marshal_None_Ok (NoAnsRow.q row) q). }
  split.
  - intros H. apply bind_Ok in H as (qa & Hqa & H).
    apply bind_Ok in H as (qu & Hqu & [= <-]).
    exists qa, qu. rewrite <- Ha, <- Hu. auto.
  - intros (qa & qu & Hqa & Hqu & ->).
    apply Ha in Hqa. apply Hu in Hqu. rewrite Hqa, Hqu. reflexivity.
Qed.

Lemma reconcile_Ok (ans_rows : list AnsRow.t)
  (no_ans_rows : list NoAnsRow.t) (a : Application.t) :
  Query.reconcile ans_rows no_ans_rows = Ok a <->
  exists d qa qu,
    picked_app ans_rows no_ans_rows = Some d
    /\ header_fields d a
    /\ Forall2 answered_as ans_rows qa
    /\ Forall2 unanswered_as no_ans_rows qu
    /\ Application.questions a = qa ++ qu.
Proof.
  rewrite reconcile_picked.
  destruct (picked_app ans_rows no_ans_rows) as [d|].
  - rewrite Application_marshal_questions, comprehension_entries. split.
    + intros (Hh & qa & qu & Ha & Hu & Hq). exists d, qa, qu. auto.
    + intros (d' & qa & qu & [= <-] & Hh & Ha & Hu & Hq). eauto 10.
  - split; [discriminate|]. intros (d & qa & qu & Hd & _). discriminate.
Qed.

(** C2.  [getApplicationWithQuestion] is [reconcile] applied to the rows
    of its two traversals.  The Application it returns lists the answered
    rows, each with its marshalled Answer, in the order the traversal gave
    them, followed by the unanswered rows, each without an answer, in the
    order of theirs; and it returns exactly when the header and every row
    can be marshalled.  [Question.order] plays no part. *)
Theorem reconcile_answered_then_unanswered (ans_rows : list AnsRow.t)
  (no_ans_rows : list NoAnsRow.t) (a : Application.t) :
  Query.reconcile ans_rows no_ans_rows = Ok a <->
  exists d qa qu,
    picked_app ans_rows no_ans_rows = Some d
    /\ header_fields d a
    /\ Forall2 answered_as ans_rows qa
    /\ Forall2 unanswered_as no_ans_rows qu
    /\ Application.questions a = qa ++ qu.
Proof. apply reconcile_Ok. Qed.

(** Scenario A: [Q1] (order 2, answered) comes before [Q2] (order 1). *)
Example scenario_A :
  Query.reconcile scenario_ans_rows scenario_no_ans_rows
  = Ok (application_record "A1" "Home"
          [question_record "Q1" 2 (Some (answer_record "N1" "Paris"));
           question_record "Q2" 1 None]).
Proof. vm_compute. reflexivity. Qed.

Lemma answered_ids (rows : list AnsRow.t) (qs : list Question.t) :
  Forall2 answered_as rows qs ->
  (fun q => Some (Question.uuid q)) <$> qs
  = (fun row => AnsRow.q row !! "uuid") <$> rows.
Proof.
  induction 1 as [|row q rows qs [(Hid & _) _] _ IH]; [reflexivity|].
  rewrite !fmap_cons, IH, Hid. reflexivity.
Qed.

Lemma unanswered_ids (rows : list NoAnsRow.t) (qs : list Question.t) :
  Forall2 unanswered_as rows qs ->
  (fun q => Some (Question.uuid q)) <$> qs
  = (fun row => NoAnsRow.q row !! "uuid") <$> rows.
Proof.
  induction 1 as [|row q rows qs [(Hid & _) _] _ IH]; [reflexivity|].
  rewrite !fmap_cons, IH, Hid. reflexivity.
Qed.

Lemma reconcile_ids (ans_rows : list AnsRow.t) (no_ans_rows : list NoAnsRow.t)
  (a : Application.t) :
  Query.reconcile ans_rows no_ans_rows = Ok a ->
  output_ids a = input_ids ans_rows no_ans_rows.
Proof.
  intros H. apply reconcile_Ok in H as (d & qa & qu & _ & _ & Ha & Hu & Hq).
  unfold output_ids, input_ids. rewrite Hq, fmap_app.
  rewrite (answered_ids _ _ Ha), (unanswered_ids _ _ Hu). reflexivity.
Qed.

Lemma NoDup_occurs_once {A : Type} (x : A) (l : list A) :
  NoDup l -> x ∈ l -> occurs_once x l.
Proof.
  intros Hnd Hin. apply list_elem_of_split in Hin as (l1 & l2 & ->).
  exists l1, l2. split; [reflexivity|].
  apply NoDup_app in Hnd as (_ & Hdisj & Hnd).
  apply NoDup_cons in Hnd as [Hx _]. split; [|exact Hx].
  intros Hl1. apply (Hdisj x Hl1). left.
Qed.

Lemma twice_not_once {A : Type} (x : A) : ~ occurs_once x [x; x].
Proof.
  intros (l1 & l2 & Heq & H1 & H2).
  destruct l1 as [|y l1].
  - injection Heq as <-. apply H2. left.
  - injection Heq as <- _. apply H1. left.
Qed.

(** C3, as amended.  The question list is as long as the two row lists
    together and carries the question ids of the rows in order, so an id
    occurs in it as often as in the rows; it occurs exactly once when the
    ids of the rows are pairwise distinct. *)
Theorem reconcile_complete (ans_rows : list AnsRow.t)
  (no_ans_rows : list NoAnsRow.t) (a : Application.t) :
  Query.reconcile ans_rows no_ans_rows = Ok a ->
  length (Application.questions a) = length ans_rows + length no_ans_rows
  /\ output_ids a = input_ids ans_rows no_ans_rows
  /\ (NoDup (input_ids ans_rows no_ans_rows) ->
      forall id, id ∈ input_ids ans_rows no_ans_rows ->
                 occurs_once id (output_ids a)).
Proof.
  intros H. pose proof (reconcile_ids _ _ _ H) as Hids.
  split; [|split; [exact Hids|]].
  - apply (f_equal length) in Hids. unfold output_ids, input_ids in Hids.
    rewrite length_app, !length_fmap in Hids. exact Hids.
  - rewrite Hids. intros Hnd id Hid. apply NoDup_occurs_once; assumption.
Qed.

Lemma reconcile_complete_witness :
  let a := application_record "A1" "Home"
             [question_record "Q1" 2 (Some (answer_record "N1" "Paris"));
              question_record "Q2" 1 None] in
  Query.reconcile scenario_ans_rows scenario_no_ans_rows = Ok a
  /\ length (Application.questions a)
     = length scenario_ans_rows + length scenario_no_ans_rows
  /\ output_ids a = input_ids scenario_ans_rows scenario_no_ans_rows
  /\ (NoDup (input_ids scenario_ans_rows scenario_no_ans_rows) ->
      forall id, id ∈ input_ids scenario_ans_rows scenario_no_ans_rows ->
                 occurs_once id (output_ids a)).
Proof.
  split; [vm_compute; reflexivity|].
  apply (reconcile_complete scenario_ans_rows scenario_no_ans_rows).
  vm_compute. reflexivity.
Defined.

(** An id that both row lists carry is returned twice. *)
Lemma reconcile_shared_id_not_once :
  exists a,
    Query.reconcile scenario_ans_rows shared_no_ans_rows = Ok a
    /\ Some (PyStr "Q1") ∈ input_ids scenario_ans_rows shared_no_ans_rows
    /\ ~ occurs_once (Some (PyStr "Q1")) (output_ids a).
Proof.
  eexists. split; [vm_compute; reflexivity|]. split.
  - vm_compute. left.
  - vm_compute. apply twice_not_once.
Qed.

Lemma Forall2_elem_of_l {A B : Type} (P : A -> B -> Prop) (l : list A)
  (k : list B) (x : A) :
  Forall2 P l k -> x ∈ l ->
  exists k1 y k2, k = k1 ++ y :: k2 /\ P x y.
Proof.
  induction 1 as [|x' y l k Hxy _ IH]; intros Hin; [inversion Hin|].
  apply elem_of_cons in Hin as [->|Hin].
  - exists [], y, k. split; [reflexivity | exact Hxy].
  - destruct (IH Hin) as (k1 & y' & k2 & -> & Hy').
    exists (y :: k1), y', k2. split; [reflexivity | exact Hy'].
Qed.

Lemma header_complete (d : dict) :
  first_missing Application.required d = None ->
  exists uuid name version createdAt updatedAt,
    forall qs,
      header_fields d
        (Application.mk uuid name version createdAt updatedAt qs).
Proof.
  intros H. rewrite first_missing_None in H.
  destruct (H "uuid") as [v1 H1]; [repeat constructor|].
  destruct (H "name") as [v2 H2]; [repeat constructor|].
  destruct (H "version") as [v3 H3]; [repeat constructor|].
  destruct (H "created_at") as [v4 H4]; [repeat constructor|].
  destruct (H "updated_at") as [v5 H5]; [repeat constructor|].
  exists v1, v2, v3, v4, v5. intros qs. unfold header_fields. simpl. auto.
Qed.

Lemma marshals_answered_all (ans_rows : list AnsRow.t) :
  Forall marshals_answered ans_rows ->
  exists qa, Forall2 answered_as ans_rows qa.
Proof.
  induction 1 as [|row rows [q Hq] _ [qa IH]]; [exists []; constructor|].
  exists (q :: qa). constructor; [|exact IH].
  apply (Question_marshal_Some_Ok (AnsRow.q row) (AnsRow.ans row) q), Hq.
Qed.

Lemma marshals_unanswered_all (no_ans_rows : list NoAnsRow.t) :
  Forall marshals_unanswered no_ans_rows ->
  exists qu, Forall2 unanswered_as no_ans_rows qu.
Proof.
  induction 1 as [|row rows [q Hq] _ [qu IH]]; [exists []; constructor|].
  exists (q :: qu). constructor; [|exact IH].
  apply (Question_marshal_None_Ok (NoAnsRow.q row) q), Hq.
Qed.

(** C6, as amended.  The reconciliation compares no question ids and
    raises no consistency error.  When every row can be marshalled by
    itself and the application projection picked holds the header keys,
    the Application is returned, also when an answered row and an
    unanswered row carry the same question id; the question is then in it
    once per row: with the answer at the place of the answered row, and
    again without one at the place of the unanswered row. *)
Theorem reconcile_shared_id_twice (ans_rows : list AnsRow.t)
  (no_ans_rows : list NoAnsRow.t) (d : dict) (ra : AnsRow.t)
  (ru : NoAnsRow.t) :
  Forall marshals_answered ans_rows ->
  Forall marshals_unanswered no_ans_rows ->
  picked_app ans_rows no_ans_rows = Some d ->
  first_missing Application.required d = None ->
  ra ∈ ans_rows ->
  ru ∈ no_ans_rows ->
  AnsRow.q ra !! "uuid" = NoAnsRow.q ru !! "uuid" ->
  exists a l1 q1 l2 q2 l3,
    Query.reconcile ans_rows no_ans_rows = Ok a
    /\ header_fields d a
    /\ Application.questions a = l1 ++ q1 :: l2 ++ q2 :: l3
    /\ answered_as ra q1
    /\ unanswered_as ru q2
    /\ Question.uuid q1 = Question.uuid q2.
Proof.
  intros Hans Hno Hd Hhd Hra Hru Hid.
  destruct (marshals_answered_all _ Hans) as [qa Ha].
  destruct (marshals_unanswered_all _ Hno) as [qu Hu].
  destruct (header_complete d Hhd) as (v1 & v2 & v3 & v4 & v5 & Hh).
  destruct (Forall2_elem_of_l _ _ _ _ Ha Hra) as (a1 & q1 & a2 & Eqa & H1).
  destruct (Forall2_elem_of_l _ _ _ _ Hu Hru) as (u1 & q2 & u2 & Equ & H2).
  exists (Application.mk v1 v2 v3 v4 v5 (qa ++ qu)), a1, q1, (a2 ++ u1), q2, u2.
  split; [|split; [apply Hh|split; [|split; [exact H1|split; [exact H2|]]]]].
  - apply reconcile_Ok. exists d, qa, qu.
    split; [exact Hd|]. split; [apply Hh|]. split; [exact Ha|].
    split; [exact Hu | reflexivity].
  - simpl. rewrite Eqa, Equ, <- !app_assoc. reflexivity.
  - destruct H1 as [(H1 & _) _], H2 as [(H2 & _) _]. congruence.
Qed.

Lemma reconcile_shared_id_twice_witness :
  let d := application_props "A1" "Home" in
  let ra := AnsRow.mk (application_props "A1" "Home") (question_props "Q1" 2)
              ∅ (answer_props "N1" "Paris") in
  let ru := NoAnsRow.mk (application_props "A1" "Home")
              (question_props "Q1" 2) in
  Forall marshals_answered scenario_ans_rows
  /\ Forall marshals_unanswered shared_no_ans_rows
  /\ picked_app scenario_ans_rows shared_no_ans_rows = Some d
  /\ first_missing Application.required d = None
  /\ ra ∈ scenario_ans_rows
  /\ ru ∈ shared_no_ans_rows
  /\ AnsRow.q ra !! "uuid" = NoAnsRow.q ru !! "uuid"
  /\ exists a l1 q1 l2 q2 l3,
       Query.reconcile scenario_ans_rows shared_no_ans_rows = Ok a
       /\ header_fields d a
       /\ Application.questions a = l1 ++ q1 :: l2 ++ q2 :: l3
       /\ answered_as ra q1
       /\ unanswered_as ru q2
       /\ Question.uuid q1 = Question.uuid q2.
Proof.
  intros d ra ru.
  assert (Hans : Forall marshals_answered scenario_ans_rows).
  { repeat constructor. eexists. vm_compute. reflexivity. }
  assert (Hno : Forall marshals_unanswered shared_no_ans_rows).
  { repeat constructor. eexists. vm_compute. reflexivity. }
  assert (Hd : picked_app scenario_ans_rows shared_no_ans_rows = Some d)
    by reflexivity.
  assert (Hhd : first_missing Application.required d = None)
    by (vm_compute; reflexivity).
  assert (Hra : ra ∈ scenario_ans_rows) by left.
  assert (Hru : ru ∈ shared_no_ans_rows) by left.
  assert (Hid : AnsRow.q ra !! "uuid" = NoAnsRow.q ru !! "uuid")
    by reflexivity.
  repeat (split; [assumption|]).
  exact (reconcile_shared_id_twice _ _ d ra ru Hans Hno Hd Hhd Hra Hru Hid).
Defined.

(** The claim fails on rows that share [Q1]: no error, [Q1] twice. *)
Lemma reconcile_shared_id_no_error :
  exists a,
    Query.reconcile scenario_ans_rows shared_no_ans_rows = Ok a
    /\ typed_failure (Query.reconcile scenario_ans_rows shared_no_ans_rows)
       = None
    /\ output_ids a = [Some (PyStr "Q1"); Some (PyStr "Q1")].
Proof.
  eexists. split; [vm_compute; reflexivity|].
  split; vm_compute; reflexivity.
Qed.

Lemma ans_entries_same (ans_rows ans_rows' : list AnsRow.t) :
  Forall2 (fun r r' => AnsRow.q r = AnsRow.q r' /\ AnsRow.ans r = AnsRow.ans r')
    ans_rows ans_rows' ->
  Query.ans_entry <$> ans_rows = Query.ans_entry <$> ans_rows'.
Proof.
  induction 1 as [|r r' l l' [Hq Ha] _ IH]; [reflexivity|].
  rewrite !fmap_cons, IH. unfold Query.ans_entry. rewrite Hq, Ha. reflexivity.
Qed.

(** C7, as amended.  With an unanswered row at hand the reconciliation
    takes the header from the application projection of the first
    unanswered row and never looks at the projections of the answered
    rows: replacing them by any others changes nothing, error or result.
    The header is the common projection when the two sets agree. *)
Theorem reconcile_header_from_unanswered (ans_rows ans_rows' : list AnsRow.t)
  (ru : NoAnsRow.t) (no_ans_rows : list NoAnsRow.t) :
  Forall2 (fun r r' => AnsRow.q r = AnsRow.q r' /\ AnsRow.ans r = AnsRow.ans r')
    ans_rows ans_rows' ->
  Query.reconcile ans_rows' (ru :: no_ans_rows)
  = Query.reconcile ans_rows (ru :: no_ans_rows)
  /\ forall a, Query.reconcile ans_rows (ru :: no_ans_rows) = Ok a ->
               header_fields (NoAnsRow.app ru) a.
Proof.
  intros Hsame. split.
  - rewrite !reconcile_picked. simpl.
    rewrite (ans_entries_same _ _ Hsame). reflexivity.
  - intros a H. apply reconcile_Ok in H as (d & qa & qu & Hd & Hh & _).
    simpl in Hd. injection Hd as <-. exact Hh.
Qed.

Lemma reconcile_header_from_unanswered_witness :
  let a := application_record "A1" "Office"
             [question_record "Q1" 2 (Some (answer_record "N1" "Paris"));
              question_record "Q2" 1 None] in
  let ru := NoAnsRow.mk (application_props "A1" "Office")
              (question_props "Q2" 1) in
  Forall2 (fun r r' => AnsRow.q r = AnsRow.q r' /\ AnsRow.ans r = AnsRow.ans r')
    scenario_ans_rows scenario_ans_rows
  /\ Query.reconcile scenario_ans_rows [ru] = Ok a
  /\ header_fields (NoAnsRow.app ru) a.
Proof.
  intros a ru.
  assert (Hsame : Forall2 (fun r r' => AnsRow.q r = AnsRow.q r'
                                       /\ AnsRow.ans r = AnsRow.ans r')
                    scenario_ans_rows scenario_ans_rows)
    by (repeat constructor).
  assert (H : Query.reconcile scenario_ans_rows [ru] = Ok a)
    by (vm_compute; reflexivity).
  split; [exact Hsame|]. split; [exact H|].
  exact (proj2 (reconcile_header_from_unanswered _ _ ru [] Hsame) a H).
Defined.

(** The claim fails on rows whose projections differ: the header of the
    unanswered row is returned and nothing is raised. *)
Lemma reconcile_projections_differ :
  Forall (fun r => AnsRow.app r <> application_props "A1" "Office")
    scenario_ans_rows
  /\ Query.reconcile scenario_ans_rows other_no_ans_rows
     = Ok (application_record "A1" "Office"
             [question_record "Q1" 2 (Some (answer_record "N1" "Paris"));
              question_record "Q2" 1 None]).
Proof.
  split; [|vm_compute; reflexivity].
  repeat constructor. simpl. intros H.
  apply (f_equal (fun d : dict => d !! "name")) in H.
  vm_compute in H. discriminate H.
Qed.

(** C4.  With no row from either traversal the local [app] of
    [getApplicationWithQuestion] is never bound, and the [return] fails on
    it: no Application is returned, and the failure is none of the typed
    errors. *)
Theorem getApplicationWithQuestion_no_rows (g : graph)
  (applicationUuid : string) :
  run_ans_query g applicationUuid = [] ->
  run_no_ans_query g applicationUuid = [] ->
  Query.getApplicationWithQuestion g applicationUuid
  = Raise (UnboundLocalError "app")
  /\ typed_failure (Query.getApplicationWithQuestion g applicationUuid)
     <> Some ApplicationNotFound.
Proof.
  intros Ha Hu. unfold Query.getApplicationWithQuestion.
  rewrite Ha, Hu. split; [reflexivity | discriminate].
Qed.

Lemma getApplicationWithQuestion_no_rows_witness :
  run_ans_query scenario_graph "A2" = []
  /\ run_no_ans_query scenario_graph "A2" = []
  /\ Query.getApplicationWithQuestion scenario_graph "A2"
     = Raise (UnboundLocalError "app")
  /\ typed_failure (Query.getApplicationWithQuestion scenario_graph "A2")
     <> Some ApplicationNotFound.
Proof.
  assert (Ha : run_ans_query scenario_graph "A2" = [])
    by (vm_compute; reflexivity).
  assert (Hu : run_no_ans_query scenario_graph "A2" = [])
    by (vm_compute; reflexivity).
  split; [exact Ha|]. split; [exact Hu|].
  exact (getApplicationWithQuestion_no_rows scenario_graph "A2" Ha Hu).
Defined.

(** ** Missing fields *)

Lemma lacks_reports {A : Type} (required : list string) (d : dict)
  (r : result A) :
  (forall k, first_missing required d = Some k -> r = Raise (KeyError k)) ->
  lacks required d -> reports_missing required d r.
Proof.
  intros Hr (k & Hin & Hk).
  destruct (lacks_first_missing _ _ _ Hin Hk) as [k' Hk'].
  destruct (first_missing_Some _ _ _ Hk') as [Hin' Hnone].
  exists k'. rewrite (Hr k' Hk'). auto.
Qed.

Lemma Question_marshal_fields (d : dict) (answer : pyval) (q : Question.t) :
  Question.marshal (PyDict d) answer = Ok q -> question_fields d q.
Proof.
  unfold Question.marshal. intros H. apply bind_Ok in H as (oa & _ & H).
  revert H. unfold question_fields, getitem. destruct q; simpl.
  subscripts d; intuition congruence.
Qed.

Lemma Application_marshal_header (d : dict) (a : Application.t) :
  Application.marshal (PyDict d) = Ok a -> header_fields d a.
Proof.
  unfold Application.marshal, header_fields, getitem, get. simpl.
  destruct a; simpl.
  repeat match goal with
    | |- context [match d !! ?k with Some _ => Ok _ | None => Raise _ end] =>
        destruct (d !! k) eqn:?; simpl; [|discriminate]
    end.
  intros H. apply bind_Ok in H as (items & _ & H).
  apply bind_Ok in H as (qs & _ & H).
  injection H as <- <- <- <- <- _. auto.
Qed.

(** C8.  A property map that lacks a required key makes each of the three
    marshalling functions fail on a key it lacks, which is the missing
    field of the taxonomy; a record that is returned holds under every
    required key the value stored there, never a default; and a question
    marshalled without an answer has the answer absent. *)
Theorem marshal_missing_field :
  (forall d, lacks Answer.required d ->
     reports_missing Answer.required d (Answer.marshal (PyDict d)))
  /\ (forall d, lacks Question.required d ->
        reports_missing Question.required d
          (Question.marshal (PyDict d) PyNone))
  /\ (forall d d', lacks Question.required d \/ lacks Answer.required d' ->
        reports_missing Question.required d
          (Question.marshal (PyDict d) (PyDict d'))
        \/ reports_missing Answer.required d'
             (Question.marshal (PyDict d) (PyDict d')))
  /\ (forall d, lacks Application.required d ->
        reports_missing Application.required d
          (Application.marshal (PyDict d)))
  /\ (forall d a, Answer.marshal (PyDict d) = Ok a -> answer_fields d a)
  /\ (forall d answer q,
        Question.marshal (PyDict d) answer = Ok q -> question_fields d q)
  /\ (forall d a, Application.marshal (PyDict d) = Ok a -> header_fields d a)
  /\ (forall d q,
        Question.marshal (PyDict d) PyNone = Ok q -> Question.answer q = None)
  /\ (forall d, ~ lacks Question.required d ->
        exists q, Question.marshal (PyDict d) PyNone = Ok q
                  /\ Question.answer q = None).
Proof.
  repeat apply conj.
  - intros d. apply lacks_reports. apply Answer_marshal_missing.
  - intros d. apply lacks_reports. apply Question_marshal_missing.
  - intros d d' H.
    destruct (first_missing Answer.required d') as [k'|] eqn:Ea.
    + right. destruct (first_missing_Some _ _ _ Ea) as [Hin Hk].
      exists k'. rewrite (Question_marshal_answer_missing _ _ _ Ea). auto.
    + left. destruct H as [H | (k & Hin & Hk)].
      * revert H. apply lacks_reports. intros k.
        apply Question_marshal_question_missing, Ea.
      * rewrite first_missing_None in Ea.
        destruct (Ea k Hin) as [v Hv]. congruence.
  - intros d. apply lacks_reports. apply Application_marshal_missing.
  - intros d a. apply Answer_marshal_Ok.
  - intros d answer q. apply Question_marshal_fields.
  - intros d a. apply Application_marshal_header.
  - intros d q H. apply Question_marshal_None_Ok in H as [_ H]. exact H.
  - intros d Hd.
    destruct (Question.marshal (PyDict d) PyNone) as [q|e] eqn:E.
    + exists q. split; [reflexivity|].
      apply Question_marshal_None_Ok in E as [_ E]. exact E.
    + exfalso. apply Hd. revert E.
      unfold Question.marshal, Question.required, lacks, getitem. simpl.
      subscripts d; intros E; try discriminate E;
        match goal with
        | H : d !! ?k = None |- _ => exists k; split; [set_solver | exact H]
        end.
Qed.

Lemma marshal_missing_field_witness :
  let d := delete "type" (answer_props "N1" "Paris") in
  lacks Answer.required d
  /\ reports_missing Answer.required d (Answer.marshal (PyDict d)).
Proof.
  intros d.
  assert (H : lacks Answer.required d).
  { exists "type". split; [do 2 right; left | vm_compute; reflexivity]. }
  split; [exact H|]. exact (proj1 marshal_missing_field d H).
Defined.

(** ** Listing the applications *)

Lemma props_storable_lookup (d : dict) (k : string) (v : pyval) :
  props_storable d = true -> d !! k = Some v -> storable v = true.
Proof.
  unfold props_storable. rewrite forallb_forall. intros H Hk.
  apply (H (k, v)). apply list_elem_of_In, elem_of_map_to_list, Hk.
Qed.

Lemma chars_nonempty (s : string) :
  String.eqb s "" = false -> exists c l, chars s = PyStr c :: l.
Proof. destruct s; [discriminate|]. simpl. eauto. Qed.

Lemma marshal_entry_scalar (v : pyval) :
  scalar v = true -> Application.marshal_entry v = Raise AttributeError.
Proof. destruct v; try discriminate; reflexivity. Qed.

(** A stored value that is truthy cannot be read as a list of entries. *)
Lemma storable_truthy_no_entries (v : pyval) (items : list pyval)
  (qs : list Question.t) :
  storable v = true -> truthy v = true -> iter v = Ok items ->
  comprehension Application.marshal_entry items = Ok qs -> False.
Proof.
  intros Hs Ht Hi Hc. destruct v as [| | |s| |l|]; try discriminate.
  - simpl in Ht, Hi. apply negb_true_iff in Ht.
    destruct (chars_nonempty s Ht) as (c & l & Hcs).
    rewrite Hcs in Hi. injection Hi as <-. discriminate Hc.
  - simpl in Hs, Ht, Hi. injection Hi as <-.
    destruct l as [|x l]; [discriminate|].
    simpl in Hs. apply andb_true_iff in Hs as [Hx _].
    simpl in Hc. rewrite (marshal_entry_scalar x Hx) in Hc. discriminate.
Qed.

Lemma Application_marshal_Ok (d : dict) (a : Application.t) :
  Application.marshal (PyDict d) = Ok a <->
  header_fields d a
  /\ exists items,
       iter (if truthy (default PyNone (d !! "questions"))
             then default PyNone (d !! "questions") else PyList [])
       = Ok items
       /\ comprehension Application.marshal_entry items
          = Ok (Application.questions a).
Proof.
  unfold Application.marshal, header_fields, getitem, get. simpl.
  destruct a as [? ? ? ? ? qs]; simpl.
  destruct (d !! "uuid"); simpl; [|intuition congruence].
  destruct (d !! "name"); simpl; [|intuition congruence].
  destruct (d !! "version"); simpl; [|intuition congruence].
  destruct (d !! "created_at"); simpl; [|intuition congruence].
  destruct (d !! "updated_at"); simpl; [|intuition congruence].
  split.
  - intros H. apply bind_Ok in H as (items & Hi & H).
    apply bind_Ok in H as (qs' & Hq & H).
    injection H as <- <- <- <- <- <-. eauto 10.
  - intros (([= ->] & [= ->] & [= ->] & [= ->] & [= ->]) & items & Hi & Hq).
    rewrite Hi. simpl. rewrite Hq. reflexivity.
Qed.

Lemma Application_marshal_stored (d : dict) (a : Application.t) :
  props_storable d = true ->
  Application.marshal (PyDict d) = Ok a <-> listed_as d a.
Proof.
  intros Hd. rewrite Application_marshal_Ok. unfold listed_as.
  destruct (truthy (default PyNone (d !! "questions"))) eqn:Ht.
  - split.
    + intros (_ & items & Hi & Hq). exfalso.
      destruct (d !! "questions") as [v|] eqn:Ev; [|discriminate].
      simpl in Ht, Hi.
      exact (storable_truthy_no_entries v items _
               (props_storable_lookup d _ v Hd Ev) Ht Hi Hq).
    + intros (_ & _ & H). discriminate.
  - split.
    + intros (Hh & items & [= <-] & [= <-]). auto.
    + intros (Hh & Hq & _). split; [exact Hh|].
      exists []. rewrite Hq. split; reflexivity.
Qed.

(** C9, as amended.  From a graph that holds only what the store can hold,
    [applications] returns exactly when every Application node has the
    five header keys and no truthy [questions] property, and then it
    returns one Application per Application node, in store order, with the
    header fields read from the node and an empty question list.  The
    reconciliation plays no part: the rows are marshalled as they come. *)
Theorem applications_header_only (g : graph) (apps : list Application.t) :
  graph_storable g = true ->
  (Query.applications g = Ok apps <->
   Forall2 listed_as (run_applications g) apps)
  /\ (Query.applications g = Ok apps ->
      length apps
      = length (filter (fun n => has_label "Application" n = true) (nodes g))
      /\ Forall (fun a => Application.questions a = []) apps).
Proof.
  intros Hg.
  assert (Hrows : Forall (fun d => props_storable d = true)
                    (run_applications g)).
  { unfold run_applications. apply Forall_fmap, Forall_forall.
    intros n Hn. apply list_elem_of_filter in Hn as [_ Hn].
    unfold graph_storable in Hg. rewrite forallb_forall in Hg.
    apply Hg, list_elem_of_In, Hn. }
  assert (Hiff : Query.applications g = Ok apps <->
                 Forall2 listed_as (run_applications g) apps).
  { unfold Query.applications. rewrite comprehension_Ok.
    revert apps. induction Hrows as [|d rows Hd _ IH]; intros apps.
    - split; intros H; inversion H; constructor.
    - split; intros H; inversion H as [|? a ? apps' Ha Happs]; subst;
        constructor; try (apply IH; assumption);
        apply (Application_marshal_stored d a Hd); assumption. }
  split; [exact Hiff|].
  intros H. apply Hiff in H. split.
  - rewrite <- (Forall2_length _ _ _ H). unfold run_applications.
    apply length_fmap.
  - clear Hiff Hrows. induction H as [|d a rows apps' (_ & Hq & _) _ IH];
      constructor; assumption.
Qed.

Lemma applications_header_only_witness :
  graph_storable scenario_graph = true
  /\ Query.applications scenario_graph = Ok [application_record "A1" "Home" []]
  /\ Forall2 listed_as (run_applications scenario_graph)
       [application_record "A1" "Home" []].
Proof.
  assert (Hg : graph_storable scenario_graph = true)
    by (vm_compute; reflexivity).
  assert (H : Query.applications scenario_graph
              = Ok [application_record "A1" "Home" []])
    by (vm_compute; reflexivity).
  split; [exact Hg|]. split; [exact H|].
  exact (proj1 (proj1 (applications_header_only scenario_graph _ Hg)) H).
Defined.

(** The claim fails on stores that hold only storable values: with an
    Application node that lacks the [name] property, and with one that
    carries a [questions] property of its own (a string, which is
    iterated as if it held entries), [applications] raises and returns no
    Application, whatever the other nodes are. *)
Lemma applications_not_every_store :
  let good := Node 0 ["Application"] (application_props "A1" "Home") in
  let nameless :=
    Node 1 ["Application"] (delete "name" (application_props "A2" "Car")) in
  let stored :=
    Node 1 ["Application"]
      (<["questions" := PyStr "stored"]> (application_props "A2" "Car")) in
  graph_storable (Graph [good; nameless] [] 2) = true
  /\ Query.applications (Graph [good; nameless] [] 2)
     = Raise (KeyError "name")
  /\ graph_storable (Graph [good; stored] [] 2) = true
  /\ Query.applications (Graph [good; stored] [] 2) = Raise AttributeError.
Proof. repeat split; vm_compute; reflexivity. Qed.

(** ** Saving answers *)

Lemma to_dict_questionUuid (t : SaveAnswerInput.t) :
  SaveAnswerInput.to_dict t !! "questionUuid"
  = Some (PyStr (SaveAnswerInput.questionUuid t)).
Proof. reflexivity. Qed.

Lemma to_dict_answer (t : SaveAnswerInput.t) :
  SaveAnswerInput.to_dict t !! "answer"
  = Some (PyStr (SaveAnswerInput.answer t)).
Proof. reflexivity. Qed.

Lemma to_dict_type (t : SaveAnswerInput.t) :
  SaveAnswerInput.to_dict t !! "type"
  = Some (PyStr (AnswerType.value (SaveAnswerInput.type t))).
Proof. reflexivity. Qed.

Lemma save_table_app (g : graph) (l1 l2 : list dict) :
  save_table g (l1 ++ l2) = save_table g l1 ++ save_table g l2.
Proof. unfold save_table. apply bind_app. Qed.

Lemma save_table_cons (g : graph) (d : dict) (l : list dict) :
  save_table g (d :: l) = save_table g [d] ++ save_table g l.
Proof. apply (save_table_app g [d] l). Qed.

Lemma save_table_to_dict (g : graph) (t : SaveAnswerInput.t) :
  save_table g [SaveAnswerInput.to_dict t]
  = (fun q => (SaveAnswerInput.to_dict t, q))
      <$> question_nodes g (SaveAnswerInput.questionUuid t).
Proof.
  unfold save_table, question_nodes. rewrite bind_singleton.
  rewrite to_dict_questionUuid.
  induction (filter _ (nodes g)) as [|q l IH]; [reflexivity|].
  rewrite bind_cons, IH. reflexivity.
Qed.

(** C10.  Whatever the batch, what [saveAnswers] returns is [None]: no
    Question is handed back to the caller.  For an application id that
    the query text reads back as itself the call does return (the store
    is taken to be reachable). *)
Theorem saveAnswers_returns_None (o : oracle) (data : SaveAnswersInput.t)
  (g : graph) :
  plain_id (SaveAnswersInput.applicationUuid data) = true ->
  (exists g', Mutation.saveAnswers o data g = Ok (g', None))
  /\ forall g' ret, Mutation.saveAnswers o data g = Ok (g', ret) -> ret = None.
Proof.
  intros _. unfold Mutation.saveAnswers. split; [eauto|].
  intros g' ret [= _ <-]. reflexivity.
Qed.

Lemma saveAnswers_returns_None_witness :
  let data :=
    SaveAnswersInput.mk "A1"
      [SaveAnswerInput.mk "x" "Q99" AnswerType.string;
       SaveAnswerInput.mk "42" "Q2" AnswerType.int] in
  plain_id (SaveAnswersInput.applicationUuid data) = true
  /\ (exists g', Mutation.saveAnswers oracle_1 data scenario_graph
                 = Ok (g', None))
  /\ forall g' ret,
       Mutation.saveAnswers oracle_1 data scenario_graph = Ok (g', ret) ->
       ret = None.
Proof.
  intros data. split; [reflexivity|].
  exact (saveAnswers_returns_None oracle_1 data scenario_graph eq_refl).
Defined.

(** *** Lists read through [filter] and bind *)

Lemma filter_fmap_bool {A B : Type} (f : A -> B) (p : B -> bool)
  (l : list A) :
  filter (fun y => p y = true) (f <$> l)
  = f <$> filter (fun x => p (f x) = true) l.
Proof.
  induction l as [|x l IH]; [reflexivity|].
  rewrite fmap_cons, !filter_cons, IH.
  destruct (decide (p (f x) = true)); reflexivity.
Qed.

Lemma filter_ext_bool {A : Type} (p p' : A -> bool) (l : list A) :
  (forall x, x ∈ l -> p x = p' x) ->
  filter (fun x => p x = true) l = filter (fun x => p' x = true) l.
Proof.
  induction l as [|x l IH]; intros H; [reflexivity|].
  rewrite !filter_cons, IH by (intros; apply H; right; assumption).
  rewrite (H x) by left. reflexivity.
Qed.

Lemma filter_none_bool {A : Type} (p : A -> bool) (l : list A) :
  (forall x, x ∈ l -> p x = false) -> filter (fun x => p x = true) l = [].
Proof.
  induction l as [|x l IH]; intros H; [reflexivity|].
  rewrite filter_cons, IH by (intros; apply H; right; assumption).
  rewrite (H x) by left. reflexivity.
Qed.

Lemma fmap_bind_list {A B C : Type} (f : B -> C) (g : A -> list B)
  (l : list A) :
  f <$> (l ≫= g) = l ≫= (fun x => f <$> g x).
Proof.
  induction l as [|x l IH]; [reflexivity|].
  rewrite !bind_cons, fmap_app, IH. reflexivity.
Qed.

Lemma bind_ext_in {A B : Type} (f g : A -> list B) (l : list A) :
  (forall x, x ∈ l -> f x = g x) -> l ≫= f = l ≫= g.
Proof.
  intros H. apply Forall_bind_ext, Forall_forall. exact H.
Qed.

(** *** [ON MATCH SET] keeps the shape of the graph *)

Lemma prop_is_match_rel (o : oracle) (props : dict) (v : option pyval) :
  prop_is (match_rel_props o props) "has_application_uuid" v
  = prop_is props "has_application_uuid" v.
Proof.
  unfold prop_is, match_rel_props, set_prop.
  rewrite lookup_insert_ne by discriminate. reflexivity.
Qed.

Lemma lookup_set_prop_ne (k k' : string) (v : option pyval) (props : dict) :
  k <> k' -> set_prop k v props !! k' = props !! k'.
Proof.
  intros Hne. destruct v as [v|]; simpl.
  - apply lookup_insert_ne, Hne.
  - apply lookup_delete_ne, Hne.
Qed.

Lemma lookup_set_prop_eq (k : string) (v : option pyval) (props : dict) :
  set_prop k v props !! k = v.
Proof.
  destruct v as [v|]; simpl.
  - apply lookup_insert_eq.
  - apply lookup_delete_eq.
Qed.

Lemma prop_is_match_answer (o : oracle) (answer props : dict)
  (v : option pyval) :
  prop_is (match_answer_props o answer props) "uuid" v
  = prop_is props "uuid" v.
Proof.
  unfold prop_is, match_answer_props.
  rewrite !lookup_set_prop_ne by discriminate. reflexivity.
Qed.

Section on_match.
Variables (o : oracle) (applicationUuid : string) (answer : dict)
  (q : node) (g : graph).

Local Abbreviation fn := (merge_set_node o applicationUuid answer q g).
Local Abbreviation fr := (merge_set_rel o applicationUuid q g).

Lemma on_match_node_id (n : node) : n_id (fn n) = n_id n.
Proof.
  unfold merge_set_node. destruct (merge_binds_node _ _ _ _); reflexivity.
Qed.

Lemma on_match_node_label (l : string) (n : node) :
  has_label l (fn n) = has_label l n.
Proof.
  unfold merge_set_node. destruct (merge_binds_node _ _ _ _); reflexivity.
Qed.

Lemma on_match_node_question (v : option pyval) (n : node) :
  is_question v (fn n) = is_question v n.
Proof.
  unfold merge_set_node, is_question.
  destruct (merge_binds_node _ _ _ _); [|reflexivity].
  simpl. rewrite prop_is_match_answer. reflexivity.
Qed.

Lemma on_match_rel_end (r : rel) : r_end (fr r) = r_end r.
Proof.
  unfold merge_set_rel. destruct (merge_binds_rel _ _ _ _); reflexivity.
Qed.

Lemma on_match_rel_has_answer (au : string) (q' : node) (r : rel) :
  is_has_answer au q' (fr r) = is_has_answer au q' r.
Proof.
  unfold merge_set_rel, is_has_answer.
  destruct (merge_binds_rel _ _ _ _); [|reflexivity].
  simpl. rewrite prop_is_match_rel. reflexivity.
Qed.

Lemma question_nodes_on_match (questionUuid : string) :
  question_nodes (on_match o applicationUuid answer q g) questionUuid
  = fn <$> question_nodes g questionUuid.
Proof.
  unfold question_nodes. simpl.
  rewrite (filter_fmap_bool _ (is_question _)).
  f_equal. apply filter_ext_bool. intros n _.
  apply on_match_node_question.
Qed.

Lemma answers_of_on_match (au : string) (q' : node) :
  answers_of (on_match o applicationUuid answer q g) au q'
  = prod_map fr fn <$> answers_of g au q'.
Proof.
  unfold answers_of. simpl.
  rewrite (filter_fmap_bool _ (is_has_answer au q')).
  rewrite (filter_ext_bool _ (is_has_answer au q'))
    by (intros r _; apply on_match_rel_has_answer).
  rewrite list_fmap_bind, fmap_bind_list.
  apply bind_ext_in. intros r _. simpl.
  rewrite (filter_fmap_bool _
             (fun n => Nat.eqb (n_id n) (r_end (fr r))
                       && has_label "Answer" n)).
  rewrite (filter_ext_bool _
             (fun n => Nat.eqb (n_id n) (r_end r) && has_label "Answer" n))
    by (intros n _; cbv beta;
        rewrite on_match_node_id, on_match_node_label, on_match_rel_end;
        reflexivity).
  rewrite list_fmap_bind, fmap_bind_list. reflexivity.
Qed.

Lemma answer_rels_on_match (questionUuid au : string) :
  answer_rels (on_match o applicationUuid answer q g) questionUuid au
  = prod_map fr fn <$> answer_rels g questionUuid au.
Proof.
  unfold answer_rels. rewrite question_nodes_on_match.
  rewrite list_fmap_bind, fmap_bind_list.
  apply bind_ext_in. intros q' _. simpl.
  rewrite answers_of_on_match. f_equal.
  unfold answers_of, is_has_answer. rewrite on_match_node_id. reflexivity.
Qed.

Lemma answers_of_binds (r : rel) (a : node) :
  (r, a) ∈ answers_of g applicationUuid q ->
  fr r = on_match_rel o r /\ fn a = on_match_node o answer a.
Proof.
  unfold answers_of. intros H.
  apply list_elem_of_bind in H as (r' & H & Hr).
  apply list_elem_of_bind in H as (a' & H & Ha).
  apply list_elem_of_singleton in H. injection H as -> ->.
  apply list_elem_of_filter in Hr as [Hr Hrin].
  apply list_elem_of_filter in Ha as [Ha Hain].
  apply andb_true_iff in Ha as [Hid Hlab].
  assert (Hbr : merge_binds_rel g applicationUuid q r' = true).
  { unfold merge_binds_rel. rewrite Hr. simpl.
    apply existsb_exists. exists a'. split.
    - apply list_elem_of_In, Hain.
    - rewrite Hid, Hlab. reflexivity. }
  assert (Hbn : merge_binds_node g applicationUuid q a' = true).
  { unfold merge_binds_node. rewrite Hlab. simpl.
    apply existsb_exists. exists r'. split.
    - apply list_elem_of_In, Hrin.
    - rewrite Hr, Hid. reflexivity. }
  unfold merge_set_rel, merge_set_node. rewrite Hbr, Hbn. split; reflexivity.
Qed.
End on_match.

(** *** [ON CREATE SET] adds one relationship and its Answer node *)

Lemma ids_allocated_node (g : graph) (n : node) :
  ids_allocated g = true -> n ∈ nodes g -> n_id n < next_id g.
Proof.
  unfold ids_allocated. intros H Hn. apply andb_true_iff in H as [H _].
  rewrite forallb_forall in H. apply Nat.ltb_lt, H, list_elem_of_In, Hn.
Qed.

Lemma ids_allocated_rel_end (g : graph) (r : rel) :
  ids_allocated g = true -> r ∈ rels g -> r_end r < next_id g.
Proof.
  unfold ids_allocated. intros H Hr. apply andb_true_iff in H as [_ H].
  rewrite forallb_forall in H.
  specialize (H r (proj1 (list_elem_of_In _ _) Hr)).
  apply andb_true_iff in H as [_ H]. apply Nat.ltb_lt, H.
Qed.

Section on_create.
Variables (o : oracle) (k : nat) (applicationUuid : string) (answer : dict)
  (q : node) (g : graph).

Local Abbreviation a_new := (created_answer o k answer g).
Local Abbreviation r_new := (created_rel o k applicationUuid q g).

Lemma question_nodes_on_create (questionUuid : string) :
  question_nodes (on_create o k applicationUuid answer q g) questionUuid
  = question_nodes g questionUuid.
Proof.
  unfold question_nodes. simpl. rewrite filter_app.
  rewrite (filter_none_bool (is_question _) [_]).
  - apply app_nil_r.
  - intros n Hn. apply list_elem_of_singleton in Hn as ->. reflexivity.
Qed.

Lemma is_has_answer_new :
  is_has_answer applicationUuid q r_new = true.
Proof.
  unfold is_has_answer, created_rel, create_rel_props, prop_is, set_prop.
  simpl.
  rewrite Nat.eqb_refl. simpl.
  rewrite !lookup_insert_ne by discriminate. rewrite lookup_insert_eq.
  apply String.eqb_refl.
Qed.

Lemma answers_of_on_create (q' : node) (au : string) :
  ids_allocated g = true ->
  answers_of (on_create o k applicationUuid answer q g) au q'
  = answers_of g au q'
    ++ (if is_has_answer au q' r_new then [(r_new, a_new)] else []).
Proof.
  intros Hg. unfold answers_of. simpl.
  rewrite filter_app, bind_app. f_equal.
  - apply bind_ext_in. intros r Hr.
    apply list_elem_of_filter in Hr as [_ Hr].
    rewrite filter_app.
    rewrite (filter_none_bool
               (fun n => Nat.eqb (n_id n) (r_end r) && has_label "Answer" n)
               [_]).
    + rewrite app_nil_r. reflexivity.
    + intros n Hn. apply list_elem_of_singleton in Hn as ->. simpl.
      pose proof (ids_allocated_rel_end g r Hg Hr) as Hlt.
      apply andb_false_iff. left. apply Nat.eqb_neq. lia.
  - rewrite filter_cons, filter_nil.
    destruct (is_has_answer au q' _) eqn:E.
    + rewrite decide_True by reflexivity. rewrite bind_singleton.
      rewrite filter_app.
      rewrite (filter_none_bool
                 (fun n => Nat.eqb (n_id n) (next_id g)
                           && has_label "Answer" n)).
      * simpl. rewrite filter_cons, filter_nil. simpl.
        rewrite Nat.eqb_refl. simpl. reflexivity.
      * intros n Hn. pose proof (ids_allocated_node g n Hg Hn) as Hlt.
        apply andb_false_iff. left. apply Nat.eqb_neq. lia.
    + rewrite decide_False by discriminate. reflexivity.
Qed.
End on_create.

(** *** One triple, saved once and again *)

Lemma answer_rels_single (g : graph) (questionUuid applicationUuid : string)
  (q : node) :
  question_nodes g questionUuid = [q] ->
  answer_rels g questionUuid applicationUuid = answers_of g applicationUuid q.
Proof. unfold answer_rels. intros ->. apply bind_singleton. Qed.

(** Rows of [MERGE] make no Question node: a uuid that names none before
    the rows names none after them. *)
Lemma merge_rows_no_question (o : oracle) (applicationUuid : string)
  (questionUuid : string) (table : list (dict * node)) :
  forall s : graph * nat,
    question_nodes s.1 questionUuid = [] ->
    question_nodes (foldl (merge_row o applicationUuid) s table).1
      questionUuid = [].
Proof.
  induction table as [|row table IH]; intros s Hs; [exact Hs|].
  simpl. apply IH. unfold merge_row.
  destruct (answers_of s.1 applicationUuid row.2) as [|p l]; simpl.
  - rewrite question_nodes_on_create. exact Hs.
  - rewrite question_nodes_on_match, Hs. reflexivity.
Qed.

(** C5, as amended.  For an application id that the query text reads back
    as itself, a triple whose [questionUuid] names no Question node yields
    no row: the call returns, it leaves the store as the batch without
    the triple leaves it, and the key of the triple has no
    answer-relationship afterwards. *)
Theorem saveAnswers_skips_unknown_question (o : oracle)
  (applicationUuid : string) (before after : list SaveAnswerInput.t)
  (t : SaveAnswerInput.t) (g : graph) :
  plain_id applicationUuid = true ->
  question_nodes g (SaveAnswerInput.questionUuid t) = [] ->
  exists g',
    Mutation.saveAnswers o
      (SaveAnswersInput.mk applicationUuid (before ++ t :: after)) g
    = Ok (g', None)
    /\ Mutation.saveAnswers o
         (SaveAnswersInput.mk applicationUuid (before ++ after)) g
       = Ok (g', None)
    /\ answer_rels g' (SaveAnswerInput.questionUuid t) applicationUuid = [].
Proof.
  intros _ Hq. eexists. split; [reflexivity|]. split.
  - unfold Mutation.saveAnswers, run_save, SaveAnswersInput.serialize. simpl.
    do 2 f_equal. f_equal. f_equal.
    rewrite !fmap_app, fmap_cons, !save_table_app.
    rewrite save_table_cons.
    rewrite save_table_to_dict, Hq. reflexivity.
  - unfold answer_rels, run_save.
    rewrite (merge_rows_no_question o applicationUuid _ _ (g, 0) Hq).
    reflexivity.
Qed.

Lemma saveAnswers_skips_unknown_question_witness :
  let t := SaveAnswerInput.mk "x" "Q99" AnswerType.string in
  let t' := SaveAnswerInput.mk "Paris" "Q1" AnswerType.string in
  plain_id "A1" = true
  /\ question_nodes scenario_graph (SaveAnswerInput.questionUuid t) = []
  /\ exists g',
       Mutation.saveAnswers oracle_1
         (SaveAnswersInput.mk "A1" ([] ++ t :: [t'])) scenario_graph
       = Ok (g', None)
       /\ Mutation.saveAnswers oracle_1
            (SaveAnswersInput.mk "A1" ([] ++ [t'])) scenario_graph
          = Ok (g', None)
       /\ answer_rels g' (SaveAnswerInput.questionUuid t) "A1" = [].
Proof.
  intros t t'.
  assert (H : question_nodes scenario_graph (SaveAnswerInput.questionUuid t)
              = []) by (vm_compute; reflexivity).
  split; [reflexivity|]. split; [exact H|].
  exact (saveAnswers_skips_unknown_question oracle_1 "A1" [] [t'] t
           scenario_graph eq_refl H).
Defined.

(** The claim fails on a batch that names the unknown [Q99]: the call
    returns, [Q99] is dropped and the answer to [Q1] is saved. *)
Lemma saveAnswers_unknown_question_no_error :
  let batch := [SaveAnswerInput.mk "x" "Q99" AnswerType.string;
                SaveAnswerInput.mk "Paris" "Q1" AnswerType.string] in
  question_nodes scenario_graph "Q99" = []
  /\ exists g',
       Mutation.saveAnswers oracle_1 (SaveAnswersInput.mk "A1" batch)
         scenario_graph = Ok (g', None)
       /\ answer_rels g' "Q99" "A1" = []
       /\ length (answer_rels g' "Q1" "A1") = 1.
Proof.
  split; [vm_compute; reflexivity|].
  eexists. split; [reflexivity|]. split; vm_compute; reflexivity.
Qed.

Lemma run_save_single (o : oracle) (applicationUuid : string)
  (t : SaveAnswerInput.t) (g : graph) (q : node) :
  question_nodes g (SaveAnswerInput.questionUuid t) = [q] ->
  run_save o applicationUuid [SaveAnswerInput.to_dict t] g
  = (merge_row o applicationUuid (g, 0) (SaveAnswerInput.to_dict t, q)).1.
Proof.
  intros Hq. unfold run_save. rewrite save_table_to_dict, Hq. reflexivity.
Qed.

Lemma save_creates (o : oracle) (applicationUuid : string)
  (t : SaveAnswerInput.t) (g : graph) (q : node) :
  ids_allocated g = true ->
  question_nodes g (SaveAnswerInput.questionUuid t) = [q] ->
  answer_rels g (SaveAnswerInput.questionUuid t) applicationUuid = [] ->
  let g' := run_save o applicationUuid [SaveAnswerInput.to_dict t] g in
  question_nodes g' (SaveAnswerInput.questionUuid t) = [q]
  /\ answer_rels g' (SaveAnswerInput.questionUuid t) applicationUuid
     = [(created_rel o 0 applicationUuid q g,
         created_answer o 0 (SaveAnswerInput.to_dict t) g)].
Proof.
  intros Hg Hq Hnone g'.
  rewrite (answer_rels_single _ _ _ _ Hq) in Hnone.
  assert (Hg' : g' = on_create o 0 applicationUuid (SaveAnswerInput.to_dict t)
                       q g).
  { unfold g'. rewrite (run_save_single _ _ _ _ _ Hq).
    unfold merge_row. simpl. rewrite Hnone. reflexivity. }
  assert (Hq' : question_nodes g' (SaveAnswerInput.questionUuid t) = [q]).
  { rewrite Hg', question_nodes_on_create. exact Hq. }
  split; [exact Hq'|].
  rewrite (answer_rels_single _ _ _ _ Hq'), Hg'.
  rewrite answers_of_on_create by exact Hg.
  rewrite Hnone, is_has_answer_new. reflexivity.
Qed.

Lemma save_updates (o : oracle) (applicationUuid : string)
  (t : SaveAnswerInput.t) (g : graph) (q : node) (r : rel) (a : node) :
  question_nodes g (SaveAnswerInput.questionUuid t) = [q] ->
  answer_rels g (SaveAnswerInput.questionUuid t) applicationUuid = [(r, a)] ->
  let g' := run_save o applicationUuid [SaveAnswerInput.to_dict t] g in
  (exists q', question_nodes g' (SaveAnswerInput.questionUuid t) = [q'])
  /\ answer_rels g' (SaveAnswerInput.questionUuid t) applicationUuid
     = [(on_match_rel o r, on_match_node o (SaveAnswerInput.to_dict t) a)].
Proof.
  intros Hq Hone g'.
  pose proof Hone as Hof. rewrite (answer_rels_single _ _ _ _ Hq) in Hof.
  assert (Hg' : g' = on_match o applicationUuid (SaveAnswerInput.to_dict t)
                       q g).
  { unfold g'. rewrite (run_save_single _ _ _ _ _ Hq).
    unfold merge_row. simpl. rewrite Hof. reflexivity. }
  split.
  - rewrite Hg', question_nodes_on_match, Hq. eauto.
  - rewrite Hg', answer_rels_on_match, Hone.
    destruct (answers_of_binds o applicationUuid (SaveAnswerInput.to_dict t)
                q g r a) as [Hr Ha].
    { rewrite Hof. left. }
    rewrite list_fmap_singleton. unfold prod_map. simpl.
    rewrite Hr, Ha. reflexivity.
Qed.

Lemma lookup_match_answer_props (o : oracle) (answer props : dict) :
  match_answer_props o answer props !! "answer" = answer !! "answer"
  /\ match_answer_props o answer props !! "type" = answer !! "type"
  /\ match_answer_props o answer props !! "updated_at" = Some (datetime_now o)
  /\ match_answer_props o answer props !! "uuid" = props !! "uuid"
  /\ match_answer_props o answer props !! "created_at" = props !! "created_at".
Proof.
  unfold match_answer_props. repeat apply conj.
  - rewrite lookup_set_prop_ne by discriminate. apply lookup_set_prop_eq.
  - rewrite !lookup_set_prop_ne by discriminate. apply lookup_set_prop_eq.
  - apply lookup_set_prop_eq.
  - rewrite !lookup_set_prop_ne by discriminate. reflexivity.
  - rewrite !lookup_set_prop_ne by discriminate. reflexivity.
Qed.

Lemma lookup_match_rel_props (o : oracle) (props : dict) :
  match_rel_props o props !! "updated_at" = Some (datetime_now o)
  /\ match_rel_props o props !! "uuid" = props !! "uuid"
  /\ match_rel_props o props !! "created_at" = props !! "created_at".
Proof.
  unfold match_rel_props. repeat apply conj.
  - apply lookup_set_prop_eq.
  - rewrite lookup_set_prop_ne by discriminate. reflexivity.
  - rewrite lookup_set_prop_ne by discriminate. reflexivity.
Qed.

(** The first save leaves one relationship for the key, whether it had to
    create it or found it. *)
Lemma save_leaves_one (o : oracle) (applicationUuid : string)
  (t : SaveAnswerInput.t) (g : graph) :
  ids_allocated g = true ->
  length (question_nodes g (SaveAnswerInput.questionUuid t)) = 1 ->
  length (answer_rels g (SaveAnswerInput.questionUuid t) applicationUuid) <= 1 ->
  let g' := run_save o applicationUuid [SaveAnswerInput.to_dict t] g in
  exists q' r a,
    question_nodes g' (SaveAnswerInput.questionUuid t) = [q']
    /\ answer_rels g' (SaveAnswerInput.questionUuid t) applicationUuid
       = [(r, a)].
Proof.
  intros Hg Hq Hle g'.
  destruct (question_nodes g (SaveAnswerInput.questionUuid t))
    as [|q [|]] eqn:Eq; try discriminate Hq.
  destruct (answer_rels g (SaveAnswerInput.questionUuid t) applicationUuid)
    as [|[r a] [|]] eqn:Er; simpl in Hle; try lia.
  - destruct (save_creates o applicationUuid t g q Hg Eq Er) as [Hq' Hr'].
    eauto.
  - destruct (save_updates o applicationUuid t g q r a Eq Er)
      as [[q' Hq'] Hr'].
    eauto.
Qed.

(** C1, as amended.  For an application id that the query text reads back
    as itself, in a store where the question uuid names one Question
    node and the key (question, application) has at most one
    answer-relationship, saving the same triple twice leaves exactly one
    answer-relationship for the key.  The second save sets the answer,
    the type and [updated_at] of the Answer and [updated_at] of the
    relationship, and leaves both uuids and both [created_at] as the first
    save left them. *)
Theorem saveAnswers_twice (g : graph) (o1 o2 : oracle)
  (applicationUuid questionUuid answer : string) (type : AnswerType.t) :
  let data :=
    SaveAnswersInput.mk applicationUuid
      [SaveAnswerInput.mk answer questionUuid type] in
  plain_id applicationUuid = true ->
  ids_allocated g = true ->
  length (question_nodes g questionUuid) = 1 ->
  length (answer_rels g questionUuid applicationUuid) <= 1 ->
  exists g1 g2 r1 a1 r2 a2,
    Mutation.saveAnswers o1 data g = Ok (g1, None)
    /\ Mutation.saveAnswers o2 data g1 = Ok (g2, None)
    /\ answer_rels g1 questionUuid applicationUuid = [(r1, a1)]
    /\ answer_rels g2 questionUuid applicationUuid = [(r2, a2)]
    /\ n_props a2 !! "answer" = Some (PyStr answer)
    /\ n_props a2 !! "type" = Some (PyStr (AnswerType.value type))
    /\ n_props a2 !! "updated_at" = Some (PyDateTime (timestamp o2))
    /\ r_props r2 !! "updated_at" = Some (PyDateTime (timestamp o2))
    /\ n_props a2 !! "uuid" = n_props a1 !! "uuid"
    /\ r_props r2 !! "uuid" = r_props r1 !! "uuid"
    /\ n_props a2 !! "created_at" = n_props a1 !! "created_at"
    /\ r_props r2 !! "created_at" = r_props r1 !! "created_at".
Proof.
  intros data _ Hg Hq Hle.
  set (t := SaveAnswerInput.mk answer questionUuid type).
  destruct (save_leaves_one o1 applicationUuid t g Hg Hq Hle)
    as (q1 & r1 & a1 & Hq1 & Hr1).
  destruct (save_updates o2 applicationUuid t _ q1 r1 a1 Hq1 Hr1)
    as [_ Hr2].
  destruct (lookup_match_answer_props o2 (SaveAnswerInput.to_dict t)
              (n_props a1)) as (Ha & Ht & Hu & Hid & Hc).
  destruct (lookup_match_rel_props o2 (r_props r1)) as (Hru & Hrid & Hrc).
  eexists _, _, r1, a1, _, _.
  split; [reflexivity|]. split; [reflexivity|].
  split; [exact Hr1|]. split; [exact Hr2|].
  simpl. repeat apply conj; assumption.
Qed.

Lemma saveAnswers_twice_witness :
  let data :=
    SaveAnswersInput.mk "A1" [SaveAnswerInput.mk "42" "Q2" AnswerType.int] in
  plain_id "A1" = true
  /\ ids_allocated scenario_graph = true
  /\ length (question_nodes scenario_graph "Q2") = 1
  /\ length (answer_rels scenario_graph "Q2" "A1") <= 1
  /\ exists g1 g2 r1 a1 r2 a2,
       Mutation.saveAnswers oracle_1 data scenario_graph = Ok (g1, None)
       /\ Mutation.saveAnswers oracle_2 data g1 = Ok (g2, None)
       /\ answer_rels g1 "Q2" "A1" = [(r1, a1)]
       /\ answer_rels g2 "Q2" "A1" = [(r2, a2)]
       /\ n_props a2 !! "answer" = Some (PyStr "42")
       /\ n_props a2 !! "type" = Some (PyStr (AnswerType.value AnswerType.int))
       /\ n_props a2 !! "updated_at" = Some (PyDateTime (timestamp oracle_2))
       /\ r_props r2 !! "updated_at" = Some (PyDateTime (timestamp oracle_2))
       /\ n_props a2 !! "uuid" = n_props a1 !! "uuid"
       /\ r_props r2 !! "uuid" = r_props r1 !! "uuid"
       /\ n_props a2 !! "created_at" = n_props a1 !! "created_at"
       /\ r_props r2 !! "created_at" = r_props r1 !! "created_at".
Proof.
  intros data.
  assert (Hg : ids_allocated scenario_graph = true)
    by (vm_compute; reflexivity).
  assert (Hq : length (question_nodes scenario_graph "Q2") = 1)
    by (vm_compute; reflexivity).
  assert (Hle : length (answer_rels scenario_graph "Q2" "A1") <= 1)
    by (vm_compute; lia).
  split; [reflexivity|].
  split; [exact Hg|]. split; [exact Hq|]. split; [exact Hle|].
  exact (saveAnswers_twice scenario_graph oracle_1 oracle_2 "A1" "Q2" "42"
           AnswerType.int eq_refl Hg Hq Hle).
Defined.

(** The claim fails for a triple whose question is not in the store: after
    both saves the key has no answer-relationship at all. *)
Lemma saveAnswers_twice_unknown_question :
  let data :=
    SaveAnswersInput.mk "A1" [SaveAnswerInput.mk "x" "Q99" AnswerType.string] in
  exists g1 g2,
    Mutation.saveAnswers oracle_1 data scenario_graph = Ok (g1, None)
    /\ Mutation.saveAnswers oracle_2 data g1 = Ok (g2, None)
    /\ answer_rels g2 "Q99" "A1" = [].
Proof.
  eexists _, _. split; [reflexivity|]. split; [reflexivity|].
  vm_compute. reflexivity.
Qed.

(** Scenario B: ["42"] then ["43"] for [(Q2, A1)]. *)
Example scenario_B :
  let save o answer g :=
    run_save o "A1"
      [SaveAnswerInput.to_dict (SaveAnswerInput.mk answer "Q2" AnswerType.int)]
      g in
  let g2 := save oracle_2 "43" (save oracle_1 "42" scenario_graph) in
  Query.getApplicationWithQuestion g2 "A1"
  = Ok (application_record "A1" "Home"
          [question_record "Q2" 1
             (Some (Answer.mk (PyStr "u0") (PyStr "43") (PyStr "Int")
                      (PyDateTime 100) (PyDateTime 200)));
           question_record "Q1" 2 None]).
Proof. vm_compute. reflexivity. Qed.

(** *** Saving keeps the identities allocated *)

Lemma ids_allocated_iff (g : graph) :
  ids_allocated g = true <->
  Forall (fun n => n_id n < next_id g) (nodes g)
  /\ Forall (fun r => r_id r < next_id g /\ r_start r < next_id g
                      /\ r_end r < next_id g) (rels g).
Proof.
  unfold ids_allocated.
  rewrite andb_true_iff, !forallb_forall, !Forall_forall.
  split; intros [Hn Hr]; split.
  - intros n Hin. apply Nat.ltb_lt, Hn, list_elem_of_In, Hin.
  - intros r Hin. specialize (Hr r (proj1 (list_elem_of_In _ _) Hin)).
    rewrite !andb_true_iff, !Nat.ltb_lt in Hr. tauto.
  - intros n Hin. apply Nat.ltb_lt, Hn, list_elem_of_In, Hin.
  - intros r Hin. specialize (Hr r (proj2 (list_elem_of_In _ _) Hin)).
    rewrite !andb_true_iff, !Nat.ltb_lt. tauto.
Qed.

Lemma merge_row_ids_allocated (o : oracle) (applicationUuid : string)
  (s : graph * nat) (row : dict * node) :
  ids_allocated s.1 = true -> n_id row.2 < next_id s.1 ->
  ids_allocated (merge_row o applicationUuid s row).1 = true
  /\ next_id s.1 <= next_id (merge_row o applicationUuid s row).1.
Proof.
  intros Hs Hq. unfold merge_row.
  destruct (answers_of s.1 applicationUuid row.2) as [|p l]; simpl.
  - split; [|lia]. apply ids_allocated_iff in Hs as [Hn Hr].
    apply ids_allocated_iff. simpl. split.
    + apply Forall_app. split.
      * eapply Forall_impl; [exact Hn|]. simpl. intros; lia.
      * repeat constructor.
    + apply Forall_app. split.
      * eapply Forall_impl; [exact Hr|]. simpl. intros; lia.
      * repeat constructor; simpl; lia.
  - split; [|lia]. apply ids_allocated_iff in Hs as [Hn Hr].
    apply ids_allocated_iff. simpl. split.
    + apply Forall_fmap. eapply Forall_impl; [exact Hn|].
      intros n Hlt. unfold compose. rewrite on_match_node_id. exact Hlt.
    + apply Forall_fmap. eapply Forall_impl; [exact Hr|].
      intros r Hlt. unfold compose, merge_set_rel.
    destruct (merge_binds_rel s.1 applicationUuid row.2 r); exact Hlt.
Qed.

Lemma save_table_allocated (g : graph) (answers : list dict) :
  ids_allocated g = true ->
  Forall (fun row => n_id row.2 < next_id g) (save_table g answers).
Proof.
  intros Hg. apply Forall_forall. intros [d q] Hin. unfold save_table in Hin.
  apply list_elem_of_bind in Hin as (d' & Hin & _).
  apply list_elem_of_bind in Hin as (q' & Hin & Hq).
  apply list_elem_of_singleton in Hin. injection Hin as -> ->.
  apply list_elem_of_filter in Hq as [_ Hq].
  simpl. apply ids_allocated_node; assumption.
Qed.

(** A property of graphs that every row of [MERGE] keeps is kept by the
    whole table, along with the allocation of the identities. *)
Lemma merge_rows_invariant (P : graph -> Prop) (o : oracle)
  (applicationUuid : string) (bound : nat) :
  (forall s row, ids_allocated s.1 = true -> P s.1 ->
                 P (merge_row o applicationUuid s row).1) ->
  forall table s,
    ids_allocated s.1 = true -> P s.1 -> bound <= next_id s.1 ->
    Forall (fun row => n_id row.2 < bound) table ->
    ids_allocated (foldl (merge_row o applicationUuid) s table).1 = true
    /\ P (foldl (merge_row o applicationUuid) s table).1.
Proof.
  intros Hstep table.
  induction table as [|row table IH]; intros s Hs HP Hle Htable; [auto|].
  apply Forall_cons in Htable as [Hrow Htable]. simpl.
  destruct (merge_row_ids_allocated o applicationUuid s row Hs) as [Hs' Hle'];
    [lia|].
  apply IH; [exact Hs' | apply Hstep; assumption | lia | exact Htable].
Qed.

Lemma run_save_ids_allocated (o : oracle) (applicationUuid : string)
  (answers : list dict) (g : graph) :
  ids_allocated g = true ->
  ids_allocated (run_save o applicationUuid answers g) = true.
Proof.
  intros Hg. unfold run_save.
  apply (merge_rows_invariant (fun _ => True) o applicationUuid (next_id g));
    auto using save_table_allocated.
Qed.

(** *** Saving keeps one relationship per key *)

Lemma answers_of_id (g : graph) (applicationUuid : string) (q q' : node) :
  n_id q = n_id q' ->
  answers_of g applicationUuid q = answers_of g applicationUuid q'.
Proof.
  intros Hid. unfold answers_of, is_has_answer. rewrite Hid. reflexivity.
Qed.

Lemma is_has_answer_created (o : oracle) (k : nat)
  (applicationUuid au : string) (q q' : node) (g : graph) :
  is_has_answer au q' (created_rel o k applicationUuid q g) = true ->
  n_id q = n_id q' /\ applicationUuid = au.
Proof.
  unfold is_has_answer, created_rel, create_rel_props, prop_is, set_prop.
  simpl. rewrite !lookup_insert_ne by discriminate. rewrite lookup_insert_eq.
  rewrite !andb_true_iff, Nat.eqb_eq, String.eqb_eq. tauto.
Qed.

Lemma merge_row_key_unique (o : oracle) (applicationUuid : string)
  (s : graph * nat) (row : dict * node) :
  ids_allocated s.1 = true -> key_unique s.1 ->
  key_unique (merge_row o applicationUuid s row).1.
Proof.
  intros Hs Hu au q'. unfold merge_row.
  destruct (answers_of s.1 applicationUuid row.2) as [|p l] eqn:E; simpl.
  - rewrite answers_of_on_create by exact Hs.
    destruct (is_has_answer au q' _) eqn:Hnew.
    + apply is_has_answer_created in Hnew as [Hid <-].
      rewrite <- (answers_of_id _ _ _ _ Hid), E. simpl. lia.
    + rewrite app_nil_r. apply Hu.
  - rewrite answers_of_on_match, length_fmap. apply Hu.
Qed.

Lemma run_save_key_unique (o : oracle) (applicationUuid : string)
  (answers : list dict) (g : graph) :
  ids_allocated g = true -> key_unique g ->
  key_unique (run_save o applicationUuid answers g).
Proof.
  intros Hg Hu. unfold run_save.
  apply (merge_rows_invariant key_unique o applicationUuid (next_id g));
    auto using save_table_allocated, merge_row_key_unique.
Qed.

Lemma key_unique_answer_rels (g : graph)
  (questionUuid applicationUuid : string) :
  key_unique g ->
  length (question_nodes g questionUuid) = 1 ->
  length (answer_rels g questionUuid applicationUuid) <= 1.
Proof.
  intros Hu Hq.
  destruct (question_nodes g questionUuid) as [|q [|]] eqn:E;
    try discriminate Hq.
  rewrite (answer_rels_single _ _ _ _ E). apply Hu.
Qed.

(** A store without relationships satisfies both invariants. *)
Lemma no_rels_key_unique (g : graph) : rels g = [] -> key_unique g.
Proof.
  intros Hr au q. unfold answers_of. rewrite Hr. simpl. lia.
Qed.

(** * Further properties of the code *)

(** ** The filter helper *)

Lemma append_nonempty_r (s t : string) :
  String.eqb t "" = false -> String.eqb (s +:+ t) "" = false.
Proof.
  intros Ht. destruct s as [|c s]; [exact Ht | reflexivity].
Qed.

Lemma append_assoc (s t u : string) : (s +:+ t) +:+ u = s +:+ t +:+ u.
Proof.
  induction s as [|c s IH]; [reflexivity|].
  change (String c ((s +:+ t) +:+ u) = String c (s +:+ t +:+ u)).
  f_equal. exact IH.
Qed.

Lemma append_empty_r (s : string) : s +:+ "" = s.
Proof.
  induction s as [|c s IH]; [reflexivity|].
  change (String c (s +:+ "") = String c s). f_equal. exact IH.
Qed.

Lemma _and_nonempty (cur_filter : pyval) (new_filter : string) :
  String.eqb (_and cur_filter new_filter) "" = false.
Proof. unfold _and. destruct (negb (truthy cur_filter)); reflexivity. Qed.

Lemma _and_after_clause (cur : string) (new_filter : string) :
  String.eqb cur "" = false ->
  _and (PyStr cur) new_filter = "AND " +:+ new_filter +:+ " ".
Proof. intros H. unfold _and. simpl. rewrite H. reflexivity. Qed.

Lemma _and_fold_nonempty (cur : string) (fs : list string) :
  String.eqb cur "" = false ->
  fold_left (fun cur new => cur +:+ _and (PyStr cur) new) fs cur
  = cur +:+ foldr String.append ""
              ((fun new => "AND " +:+ new +:+ " ") <$> fs).
Proof.
  revert cur. induction fs as [|f fs IH]; intros cur Hcur.
  - simpl. symmetry. apply append_empty_r.
  - cbn [fold_left]. rewrite IH.
    + rewrite (_and_after_clause cur f Hcur), fmap_cons. simpl foldr.
      rewrite !append_assoc. reflexivity.
    + apply append_nonempty_r, _and_nonempty.
Qed.

(** X1.  A filter built by appending [_and(cur, f)] to [cur] for each
    condition in turn, starting from the empty filter, opens with one
    [WHERE] clause for the first condition and carries an [AND] clause
    for every later one. *)
Theorem _and_accumulates (f : string) (fs : list string) :
  fold_left (fun cur new => cur +:+ _and (PyStr cur) new) (f :: fs) ""
  = ("WHERE " +:+ f +:+ " ")
    +:+ foldr String.append "" ((fun new => "AND " +:+ new +:+ " ") <$> fs).
Proof.
  cbn [fold_left]. change ("" +:+ _and (PyStr "") f) with ("WHERE " +:+ f +:+ " ").
  apply _and_fold_nonempty. reflexivity.
Qed.

(** ** What is sent to the store *)

Lemma AnswerType_value_inj (a b : AnswerType.t) :
  AnswerType.value a = AnswerType.value b -> a = b.
Proof. destruct a, b; simpl; intros H; try reflexivity; discriminate H. Qed.

Lemma to_dict_inj (t t' : SaveAnswerInput.t) :
  SaveAnswerInput.to_dict t = SaveAnswerInput.to_dict t' -> t = t'.
Proof.
  intros H.
  pose proof (f_equal (fun d : dict => d !! "answer") H) as Ha.
  pose proof (f_equal (fun d : dict => d !! "questionUuid") H) as Hq.
  pose proof (f_equal (fun d : dict => d !! "type") H) as Ht.
  simpl in Ha, Hq, Ht.
  rewrite !to_dict_answer in Ha. rewrite !to_dict_questionUuid in Hq.
  rewrite !to_dict_type in Ht.
  destruct t, t'. simpl in *.
  injection Ha as ->. injection Hq as ->. injection Ht as Ht.
  apply AnswerType_value_inj in Ht as ->. reflexivity.
Qed.

(** X2.  [serialize] loses nothing: it gives one dict per triple, in the
    order of the batch, and two batches with the same serialization hold
    the same triples (members of [AnswerType] have distinct values). *)
Theorem serialize_injective (data data' : SaveAnswersInput.t) :
  length (SaveAnswersInput.serialize data)
  = length (SaveAnswersInput.answers data)
  /\ (SaveAnswersInput.serialize data = SaveAnswersInput.serialize data' ->
      SaveAnswersInput.answers data = SaveAnswersInput.answers data').
Proof.
  unfold SaveAnswersInput.serialize. split; [apply length_fmap|].
  generalize (SaveAnswersInput.answers data) as l.
  generalize (SaveAnswersInput.answers data') as l'.
  intros l' l. revert l'.
  induction l as [|t l IH]; intros [|t' l'] H; try discriminate H;
    [reflexivity|].
  rewrite !fmap_cons in H.
  pose proof (f_equal head H) as Ht. pose proof (f_equal tail H) as Hl.
  cbn [head tail] in Ht, Hl. apply (inj Some), to_dict_inj in Ht as ->.
  rewrite (IH l' Hl). reflexivity.
Qed.

Lemma serialize_injective_witness :
  let data := SaveAnswersInput.mk "A1"
                [SaveAnswerInput.mk "42" "Q2" AnswerType.int] in
  SaveAnswersInput.serialize data = SaveAnswersInput.serialize data
  /\ SaveAnswersInput.answers data = SaveAnswersInput.answers data.
Proof.
  intros data. split; [reflexivity|].
  exact (proj2 (serialize_injective data data) eq_refl).
Defined.

(** ** Which exception a failed marshalling raises *)

Lemma comprehension_Raise {A B : Type} (f : A -> result B) (l : list A)
  (e : exn) :
  comprehension f l = Raise e <->
  exists l1 x l2,
    l = l1 ++ x :: l2
    /\ Forall (fun y => exists b, f y = Ok b) l1
    /\ f x = Raise e.
Proof.
  induction l as [|x l IH]; simpl.
  - split; [discriminate|]. intros (l1 & y & l2 & H & _).
    destruct l1; discriminate H.
  - destruct (f x) as [b|e'] eqn:Ex; simpl.
    + assert (Hb : (comprehension f l ≫= fun ys => Ok (b :: ys)) = Raise e
                   <-> comprehension f l = Raise e).
      { destruct (comprehension f l); simpl; split; congruence. }
      rewrite Hb, IH. split.
      * intros (l1 & y & l2 & -> & Hok & Hy).
        exists (x :: l1), y, l2. split; [reflexivity|].
        split; [|exact Hy]. constructor; [eauto | exact Hok].
      * intros (l1 & y & l2 & H & Hok & Hy).
        destruct l1 as [|z l1]; simpl in H.
        -- injection H as <- _. congruence.
        -- injection H as <- ->. apply Forall_cons in Hok as [_ Hok].
           exists l1, y, l2. auto.
    + split.
      * intros [= ->]. exists [], x, l. auto.
      * intros (l1 & y & l2 & H & Hok & Hy).
        destruct l1 as [|z l1]; simpl in H.
        -- injection H as <- _. congruence.
        -- injection H as <- ->. apply Forall_cons in Hok as [[b Hb] _].
           congruence.
Qed.

(** X3.  A failed marshalling names the first key that is missing in the
    order the class reads its keys.  [Question.marshal] reads the answer
    map before the question map, so a key missing from the answer is the
    one reported whatever the question map holds; [Application.marshal]
    reads its header before it looks at any entry of [questions]. *)
Theorem marshal_reports_first_missing :
  (forall d k, first_missing Answer.required d = Some k ->
     Answer.marshal (PyDict d) = Raise (KeyError k))
  /\ (forall d k, first_missing Question.required d = Some k ->
        Question.marshal (PyDict d) PyNone = Raise (KeyError k))
  /\ (forall d d' k, first_missing Answer.required d' = Some k ->
        Question.marshal (PyDict d) (PyDict d') = Raise (KeyError k))
  /\ (forall d d' k, first_missing Answer.required d' = None ->
        first_missing Question.required d = Some k ->
        Question.marshal (PyDict d) (PyDict d') = Raise (KeyError k))
  /\ (forall d k, first_missing Application.required d = Some k ->
        Application.marshal (PyDict d) = Raise (KeyError k)).
Proof.
  repeat apply conj.
  - apply Answer_marshal_missing.
  - apply Question_marshal_missing.
  - apply Question_marshal_answer_missing.
  - apply Question_marshal_question_missing.
  - apply Application_marshal_missing.
Qed.

Lemma marshal_reports_first_missing_witness :
  let d := delete "created_at" (delete "type" (answer_props "N1" "Paris")) in
  first_missing Answer.required d = Some "type"
  /\ Answer.marshal (PyDict d) = Raise (KeyError "type").
Proof.
  intros d.
  assert (H : first_missing Answer.required d = Some "type")
    by (vm_compute; reflexivity).
  split; [exact H|]. exact (proj1 marshal_reports_first_missing d "type" H).
Defined.

(** ** What the reconciliation returns, reads and raises *)

(** X4.  An Application that the reconciliation returns has at least one
    question: an application without questions cannot be fetched. *)
Theorem reconcile_returns_questions (ans_rows : list AnsRow.t)
  (no_ans_rows : list NoAnsRow.t) (a : Application.t) :
  Query.reconcile ans_rows no_ans_rows = Ok a ->
  Application.questions a <> [].
Proof.
  intros H. apply reconcile_Ok in H as (d & qa & qu & Hd & _ & Ha & Hu & Hq).
  rewrite Hq. intros Hnil. apply app_eq_nil in Hnil as [-> ->].
  apply Forall2_nil_inv_r in Ha as ->. apply Forall2_nil_inv_r in Hu as ->.
  discriminate Hd.
Qed.

Lemma reconcile_returns_questions_witness :
  let a := application_record "A1" "Home"
             [question_record "Q1" 2 (Some (answer_record "N1" "Paris"));
              question_record "Q2" 1 None] in
  Query.reconcile scenario_ans_rows scenario_no_ans_rows = Ok a
  /\ Application.questions a <> [].
Proof.
  intros a.
  assert (H : Query.reconcile scenario_ans_rows scenario_no_ans_rows = Ok a)
    by (vm_compute; reflexivity).
  split; [exact H|]. exact (reconcile_returns_questions _ _ a H).
Defined.

Lemma ans_entries_eq (ans_rows ans_rows' : list AnsRow.t) :
  (fun r => (AnsRow.q r, AnsRow.ans r)) <$> ans_rows
  = (fun r => (AnsRow.q r, AnsRow.ans r)) <$> ans_rows' ->
  Query.ans_entry <$> ans_rows = Query.ans_entry <$> ans_rows'.
Proof.
  intros H.
  apply (f_equal (fmap (fun p : dict * dict =>
           PyDict {[ "question" := PyDict p.1; "answer" := PyDict p.2 ]}))) in H.
  rewrite <- !list_fmap_compose in H. exact H.
Qed.

Lemma no_ans_entries_eq (rows rows' : list NoAnsRow.t) :
  NoAnsRow.q <$> rows = NoAnsRow.q <$> rows' ->
  Query.no_ans_entry <$> rows = Query.no_ans_entry <$> rows'.
Proof.
  intros H.
  apply (f_equal (fmap (fun q : dict =>
           PyDict {[ "question" := PyDict q ]}))) in H.
  rewrite <- !list_fmap_compose in H. exact H.
Qed.

(** X5.  The reconciliation reads the application projection of one row
    only (the one it picks), never a [questions] property that this
    projection may carry, and never the relationship projection [qa]: two
    inputs that agree on the picked projection apart from [questions], on
    the question and answer maps of the answered rows and on the question
    maps of the unanswered rows give the same result or the same
    exception. *)
Theorem reconcile_reads_only (ans_rows ans_rows' : list AnsRow.t)
  (no_ans_rows no_ans_rows' : list NoAnsRow.t) :
  delete "questions" <$> picked_app ans_rows no_ans_rows
  = delete "questions" <$> picked_app ans_rows' no_ans_rows' ->
  (fun r => (AnsRow.q r, AnsRow.ans r)) <$> ans_rows
  = (fun r => (AnsRow.q r, AnsRow.ans r)) <$> ans_rows' ->
  NoAnsRow.q <$> no_ans_rows = NoAnsRow.q <$> no_ans_rows' ->
  Query.reconcile ans_rows no_ans_rows
  = Query.reconcile ans_rows' no_ans_rows'.
Proof.
  intros Hd Ha Hu. rewrite !reconcile_picked.
  rewrite (ans_entries_eq _ _ Ha), (no_ans_entries_eq _ _ Hu).
  destruct (picked_app ans_rows no_ans_rows) as [d|],
    (picked_app ans_rows' no_ans_rows') as [d'|]; try discriminate Hd;
    [|reflexivity].
  simpl in Hd. apply (inj Some) in Hd.
  rewrite <- (insert_delete_eq d), <- (insert_delete_eq d'), Hd.
  reflexivity.
Qed.

Lemma reconcile_reads_only_witness :
  let ans' := [AnsRow.mk (application_props "A9" "Other")
                 (question_props "Q1" 2)
                 {[ "uuid" := PyStr "R1" ]} (answer_props "N1" "Paris")] in
  let no_ans' := [NoAnsRow.mk
                    (<["questions" := PyStr "stored"]>
                       (application_props "A1" "Home"))
                    (question_props "Q2" 1)] in
  delete "questions" <$> picked_app scenario_ans_rows scenario_no_ans_rows
  = delete "questions" <$> picked_app ans' no_ans'
  /\ Query.reconcile scenario_ans_rows scenario_no_ans_rows
     = Query.reconcile ans' no_ans'.
Proof.
  intros ans' no_ans'.
  assert (Hd : delete "questions"
                 <$> picked_app scenario_ans_rows scenario_no_ans_rows
               = delete "questions" <$> picked_app ans' no_ans')
    by (vm_compute; reflexivity).
  split; [exact Hd|].
  exact (reconcile_reads_only scenario_ans_rows ans' scenario_no_ans_rows
           no_ans' Hd eq_refl eq_refl).
Defined.

Lemma Application_marshal_questions_Raise (d : dict) (entries : list pyval)
  (e : exn) :
  first_missing Application.required d = None ->
  Application.marshal (PyDict (<["questions" := PyList entries]> d)) = Raise e
  <-> comprehension Application.marshal_entry entries = Raise e.
Proof.
  unfold Application.marshal, Application.required, getitem, get.
  rewrite lookup_insert_eq. simpl.
  rewrite !lookup_insert_ne by discriminate.
  assert (iter (if match entries with [] => false | _ => true end
                then PyList entries else PyList []) = Ok entries) as ->.
  { destruct entries; reflexivity. }
  subscripts d; try discriminate. intros _.
  destruct (comprehension Application.marshal_entry entries); simpl;
    split; congruence.
Qed.

(** X6.  The order of the exceptions of the reconciliation.  A header key
    missing from the picked application projection is reported first,
    whatever the rows hold.  With a complete header the exception is that
    of the first row that cannot be marshalled, the answered rows being
    marshalled before the unanswered ones. *)
Theorem reconcile_exception_order (ans_rows : list AnsRow.t)
  (no_ans_rows : list NoAnsRow.t) (d : dict) :
  picked_app ans_rows no_ans_rows = Some d ->
  (forall k, first_missing Application.required d = Some k ->
     Query.reconcile ans_rows no_ans_rows = Raise (KeyError k))
  /\ (first_missing Application.required d = None ->
      forall e,
        Query.reconcile ans_rows no_ans_rows = Raise e <->
        exists l1 x l2,
          (Query.ans_entry <$> ans_rows)
          ++ (Query.no_ans_entry <$> no_ans_rows) = l1 ++ x :: l2
          /\ Forall (fun y => exists q, Application.marshal_entry y = Ok q) l1
          /\ Application.marshal_entry x = Raise e).
Proof.
  intros Hd. rewrite reconcile_picked, Hd. split.
  - intros k. apply Application_marshal_questions_missing.
  - intros Hh e. rewrite (Application_marshal_questions_Raise _ _ _ Hh).
    apply comprehension_Raise.
Qed.

Lemma reconcile_exception_order_witness :
  let bad := NoAnsRow.mk (delete "name" (application_props "A1" "Home"))
               (delete "order" (question_props "Q2" 1)) in
  picked_app scenario_ans_rows [bad] = Some (NoAnsRow.app bad)
  /\ first_missing Application.required (NoAnsRow.app bad) = Some "name"
  /\ Query.reconcile scenario_ans_rows [bad] = Raise (KeyError "name").
Proof.
  intros bad.
  assert (Hd : picked_app scenario_ans_rows [bad] = Some (NoAnsRow.app bad))
    by reflexivity.
  assert (Hk : first_missing Application.required (NoAnsRow.app bad)
               = Some "name") by (vm_compute; reflexivity).
  split; [exact Hd|]. split; [exact Hk|].
  exact (proj1 (reconcile_exception_order scenario_ans_rows [bad] _ Hd)
           "name" Hk).
Defined.

(** ** Listing the applications: all or nothing *)

Lemma Application_marshal_stored_failure (d : dict) :
  props_storable d = true ->
  match stored_failure d with
  | Some f =>
      exists e, Application.marshal (PyDict d) = Raise e /\ raised_by f e
  | None => exists a, Application.marshal (PyDict d) = Ok a
  end.
Proof.
  intros Hd. unfold stored_failure.
  destruct (first_missing Application.required d) as [k|] eqn:Ek.
  - exists (KeyError k). split; [|reflexivity].
    apply Application_marshal_missing, Ek.
  - revert Ek.
    unfold Application.marshal, Application.required, getitem, get. simpl.
    destruct (d !! "uuid"); simpl; [|discriminate].
    destruct (d !! "name"); simpl; [|discriminate].
    destruct (d !! "version"); simpl; [|discriminate].
    destruct (d !! "created_at"); simpl; [|discriminate].
    destruct (d !! "updated_at"); simpl; [|discriminate].
    intros _.
    destruct (d !! "questions") as [v|] eqn:Ev; simpl; [|eauto].
    pose proof (props_storable_lookup d _ v Hd Ev) as Hs.
    destruct v as [|b|z|s| |l|]; try discriminate Hs; simpl.
    + destruct b; simpl; [|eauto].
      exists TypeError. split; [reflexivity | left; reflexivity].
    + destruct (Z.eqb z 0); simpl; [eauto|].
      exists TypeError. split; [reflexivity | left; reflexivity].
    + destruct s as [|c s]; simpl; [eauto|].
      exists AttributeError. split; [reflexivity | right; reflexivity].
    + exists TypeError. split; [reflexivity | left; reflexivity].
    + destruct l as [|x l]; simpl; [eauto|].
      simpl in Hs. apply andb_true_iff in Hs as [Hx _].
      rewrite (marshal_entry_scalar x Hx).
      exists AttributeError. split; [reflexivity | right; reflexivity].
Qed.

(** X7.  [applications] is all or nothing.  From a graph that holds only
    what the store can hold it fails exactly when some Application node
    cannot be marshalled, and with the exception that marshalling the
    first such node in the order of the rows raises: [KeyError] on the
    first header key the node lacks; else, when the node carries a
    truthy [questions] property, which is iterated as a list of entries,
    [TypeError] or [AttributeError] and never a [KeyError].  No
    Application is returned then. *)
Theorem applications_first_failure (g : graph) (e : exn) :
  graph_storable g = true ->
  Query.applications g = Raise e <->
  exists l1 d l2 f,
    run_applications g = l1 ++ d :: l2
    /\ Forall (fun d' => stored_failure d' = None) l1
    /\ stored_failure d = Some f
    /\ Application.marshal (PyDict d) = Raise e
    /\ raised_by f e.
Proof.
  intros Hg.
  assert (Hrows : forall d, d ∈ run_applications g -> props_storable d = true).
  { intros d Hd. unfold run_applications in Hd.
    apply list_elem_of_fmap in Hd as (n & -> & Hn).
    apply list_elem_of_filter in Hn as [_ Hn].
    unfold graph_storable in Hg. rewrite forallb_forall in Hg.
    apply Hg, list_elem_of_In, Hn. }
  unfold Query.applications. rewrite comprehension_Raise. split.
  - intros (l1 & d & l2 & Heq & Hok & Hd).
    pose proof (Application_marshal_stored_failure d
                  (Hrows d ltac:(rewrite Heq; apply elem_of_app; right;
                                 left))) as Hf.
    destruct (stored_failure d) as [f|] eqn:Ef.
    + destruct Hf as (e' & He' & Hby).
      assert (e' = e) as -> by congruence.
      exists l1, d, l2, f. split; [exact Heq|].
      split; [|split; [exact Ef|split; [exact Hd | exact Hby]]].
      apply Forall_forall. intros d' Hd'.
      rewrite Forall_forall in Hok. destruct (Hok d' Hd') as [a Ha].
      pose proof (Application_marshal_stored_failure d'
                    (Hrows d' ltac:(rewrite Heq; apply elem_of_app; auto)))
        as Hf'.
      destruct (stored_failure d'); [|reflexivity].
      destruct Hf' as (e'' & He'' & _). congruence.
    + destruct Hf as [a Ha]. congruence.
  - intros (l1 & d & l2 & f & Heq & Hok & _ & Hd & _).
    exists l1, d, l2. split; [exact Heq|]. split; [|exact Hd].
    apply Forall_forall. intros d' Hd'.
    rewrite Forall_forall in Hok. specialize (Hok d' Hd').
    pose proof (Application_marshal_stored_failure d'
                  (Hrows d' ltac:(rewrite Heq; apply elem_of_app; auto)))
      as Hf.
    rewrite Hok in Hf. exact Hf.
Qed.

Lemma applications_first_failure_witness :
  let bad := <["questions" := PyStr "stored"]>
               (application_props "A2" "Office") in
  let g := Graph [Node 0 ["Application"] (application_props "A1" "Home");
                  Node 1 ["Application"] bad] [] 2 in
  graph_storable g = true
  /\ (exists l1 d l2 f,
        run_applications g = l1 ++ d :: l2
        /\ Forall (fun d' => stored_failure d' = None) l1
        /\ stored_failure d = Some f
        /\ Application.marshal (PyDict d) = Raise AttributeError
        /\ raised_by f AttributeError)
  /\ Query.applications g = Raise AttributeError.
Proof.
  intros bad g.
  assert (Hg : graph_storable g = true) by (vm_compute; reflexivity).
  assert (H : exists l1 d l2 f,
                run_applications g = l1 ++ d :: l2
                /\ Forall (fun d' => stored_failure d' = None) l1
                /\ stored_failure d = Some f
                /\ Application.marshal (PyDict d) = Raise AttributeError
                /\ raised_by f AttributeError).
  { exists [application_props "A1" "Home"], bad, [], None.
    split; [reflexivity|]. split; [repeat constructor|].
    split; [vm_compute; reflexivity|].
    split; [vm_compute; reflexivity | right; reflexivity]. }
  split; [exact Hg|]. split; [exact H|].
  exact (proj2 (applications_first_failure g AttributeError Hg) H).
Defined.


(** ** What a save leaves alone *)

Lemma fmap_id_in {A : Type} (f : A -> A) (l : list A) :
  (forall x, x ∈ l -> f x = x) -> f <$> l = l.
Proof.
  induction l as [|x l IH]; intros H; [reflexivity|].
  rewrite fmap_cons, (H x) by left.
  rewrite IH by (intros; apply H; right; assumption). reflexivity.
Qed.

Lemma merge_rows_related (R : graph -> graph -> Prop) (o : oracle)
  (applicationUuid : string) :
  (forall g, R g g) ->
  (forall g1 g2 g3, R g1 g2 -> R g2 g3 -> R g1 g3) ->
  (forall s row, R s.1 (merge_row o applicationUuid s row).1) ->
  forall table s, R s.1 (foldl (merge_row o applicationUuid) s table).1.
Proof.
  intros Hrefl Htrans Hstep table.
  induction table as [|row table IH]; intros s; simpl; [apply Hrefl|].
  eapply Htrans; [apply Hstep | apply IH].
Qed.

Lemma merge_set_node_other (o : oracle) (applicationUuid : string)
  (answer : dict) (q : node) (g : graph) (n : node) :
  has_label "Answer" n = false ->
  merge_set_node o applicationUuid answer q g n = n.
Proof.
  intros H. unfold merge_set_node, merge_binds_node. rewrite H. reflexivity.
Qed.

Lemma merge_set_rel_other (o : oracle) (applicationUuid : string)
  (q : node) (g : graph) (r : rel) :
  other_rel applicationUuid r = true ->
  merge_set_rel o applicationUuid q g r = r.
Proof.
  unfold other_rel, merge_set_rel, merge_binds_rel, is_has_answer.
  intros H. apply negb_true_iff in H.
  destruct (Nat.eqb (r_start r) (n_id q)); simpl; [|reflexivity].
  rewrite H. reflexivity.
Qed.

Lemma other_rel_merge_set (o : oracle) (applicationUuid au : string)
  (q : node) (g : graph) (r : rel) :
  other_rel au (merge_set_rel o applicationUuid q g r) = other_rel au r.
Proof.
  unfold other_rel, merge_set_rel.
  destruct (merge_binds_rel _ _ _ _); [|reflexivity].
  simpl. rewrite prop_is_match_rel. reflexivity.
Qed.

Lemma other_rel_created (o : oracle) (k : nat) (applicationUuid : string)
  (q : node) (g : graph) :
  other_rel applicationUuid (created_rel o k applicationUuid q g) = false.
Proof.
  pose proof (is_has_answer_new o k applicationUuid q g) as H.
  unfold is_has_answer in H. unfold other_rel.
  apply andb_true_iff in H as [H Hp]. apply andb_true_iff in H as [_ Ht].
  rewrite Ht, Hp. reflexivity.
Qed.

Lemma node_shape_merge_set (o : oracle) (applicationUuid : string)
  (answer : dict) (q : node) (g : graph) (n : node) :
  node_shape (merge_set_node o applicationUuid answer q g n) = node_shape n.
Proof.
  unfold merge_set_node. destruct (merge_binds_node _ _ _ _); reflexivity.
Qed.

Lemma rel_shape_merge_set (o : oracle) (applicationUuid : string)
  (q : node) (g : graph) (r : rel) :
  rel_shape (merge_set_rel o applicationUuid q g r) = rel_shape r.
Proof.
  unfold merge_set_rel. destruct (merge_binds_rel _ _ _ _); reflexivity.
Qed.


Lemma frame_refl (applicationUuid : string) (g : graph) :
  frame_holds applicationUuid g g.
Proof.
  unfold frame_holds. repeat apply conj; try reflexivity.
  - exists []. rewrite app_nil_r. split; [reflexivity | constructor].
  - exists []. rewrite app_nil_r. split; [reflexivity | constructor].
Qed.

Lemma frame_trans (applicationUuid : string) (g1 g2 g3 : graph) :
  frame_holds applicationUuid g1 g2 -> frame_holds applicationUuid g2 g3 ->
  frame_holds applicationUuid g1 g3.
Proof.
  intros (Hn & Hr & (cn & Hcn & Hcn') & (cr & Hcr & Hcr'))
         (Hn2 & Hr2 & (cn2 & Hcn2 & Hcn2') & (cr2 & Hcr2 & Hcr2')).
  unfold frame_holds. repeat apply conj.
  - rewrite Hn2. exact Hn.
  - rewrite Hr2. exact Hr.
  - exists (cn ++ cn2). rewrite Hcn2, Hcn, <- app_assoc.
    split; [reflexivity | apply Forall_app; auto].
  - exists (cr ++ cr2). rewrite Hcr2, Hcr, <- app_assoc.
    split; [reflexivity | apply Forall_app; auto].
Qed.

Lemma frame_step (o : oracle) (applicationUuid : string) (s : graph * nat)
  (row : dict * node) :
  frame_holds applicationUuid s.1 (merge_row o applicationUuid s row).1.
Proof.
  unfold merge_row, frame_holds.
  destruct (answers_of s.1 applicationUuid row.2) as [|p l]; simpl.
  - repeat apply conj.
    + rewrite filter_app.
      rewrite (filter_none_bool (fun n => negb (has_label "Answer" n)) [_]).
      * apply app_nil_r.
      * intros n Hn. apply list_elem_of_singleton in Hn as ->. reflexivity.
    + rewrite filter_app.
      rewrite (filter_none_bool (other_rel applicationUuid) [_]).
      * apply app_nil_r.
      * intros r Hr. apply list_elem_of_singleton in Hr as ->.
        apply other_rel_created.
    + eexists. rewrite fmap_app. split; [reflexivity|].
      repeat constructor.
    + eexists. rewrite fmap_app. split; [reflexivity|].
      repeat constructor.
  - repeat apply conj.
    + rewrite (filter_fmap_bool _ (fun n => negb (has_label "Answer" n))).
      rewrite (filter_ext_bool _ (fun n => negb (has_label "Answer" n)))
        by (intros n _; cbv beta; rewrite on_match_node_label; reflexivity).
      apply fmap_id_in. intros n Hn.
      apply list_elem_of_filter in Hn as [Hn _].
      apply merge_set_node_other. apply negb_true_iff, Hn.
    + rewrite (filter_fmap_bool _ (other_rel applicationUuid)).
      rewrite (filter_ext_bool _ (other_rel applicationUuid))
        by (intros r _; apply other_rel_merge_set).
      apply fmap_id_in. intros r Hr.
      apply list_elem_of_filter in Hr as [Hr _].
      apply merge_set_rel_other, Hr.
    + exists []. rewrite app_nil_r, <- list_fmap_compose.
      split; [|constructor]. apply list_fmap_ext. intros i n _.
      apply node_shape_merge_set.
    + exists []. rewrite app_nil_r, <- list_fmap_compose.
      split; [|constructor]. apply list_fmap_ext. intros i r _.
      apply rel_shape_merge_set.
Qed.

Lemma saveAnswers_frame_of (o : oracle) (data : SaveAnswersInput.t)
  (g g' : graph) (ret : option Question.t) :
  Mutation.saveAnswers o data g = Ok (g', ret) ->
  frame_holds (SaveAnswersInput.applicationUuid data) g g'.
Proof.
  unfold Mutation.saveAnswers, run_save. intros [= <- _].
  apply (merge_rows_related
           (frame_holds (SaveAnswersInput.applicationUuid data)) o _
           (frame_refl _) (frame_trans _) (frame_step o _)
           (save_table g (SaveAnswersInput.serialize data)) (g, 0)).
Qed.

(** X8.  What [saveAnswers] never does, whatever the batch, for an
    application id that the query text reads back as itself.  It changes no
    node without the Answer label (no Application, no Question) and no
    relationship other than the answer-relationships of the application it
    is called for; it removes nothing and keeps every identity, label,
    relationship type and end point; and it adds only Answer nodes and
    [HAS_ANSWER] relationships. *)
Theorem saveAnswers_frame (o : oracle) (data : SaveAnswersInput.t)
  (g g' : graph) (ret : option Question.t) :
  plain_id (SaveAnswersInput.applicationUuid data) = true ->
  Mutation.saveAnswers o data g = Ok (g', ret) ->
  frame_holds (SaveAnswersInput.applicationUuid data) g g'.
Proof. intros _. apply saveAnswers_frame_of. Qed.

Lemma saveAnswers_frame_witness :
  let data :=
    SaveAnswersInput.mk "A1" [SaveAnswerInput.mk "42" "Q2" AnswerType.int] in
  plain_id (SaveAnswersInput.applicationUuid data) = true
  /\ exists g',
       Mutation.saveAnswers oracle_1 data scenario_graph = Ok (g', None)
       /\ frame_holds "A1" scenario_graph g'.
Proof.
  intros data. split; [reflexivity|]. eexists. split; [reflexivity|].
  exact (saveAnswers_frame oracle_1 data scenario_graph _ None eq_refl
           eq_refl).
Defined.

Lemma filter_through {A : Type} (p p' : A -> bool) (l : list A) :
  (forall x, x ∈ l -> p x = true -> p' x = true) ->
  filter (fun x => p x = true) l
  = filter (fun x => p x = true) (filter (fun x => p' x = true) l).
Proof.
  induction l as [|x l IH]; intros H; [reflexivity|].
  rewrite !filter_cons.
  specialize (IH (fun y Hy => H y (list_elem_of_further _ _ _ Hy))).
  destruct (decide (p x = true)) as [Hp|Hp].
  - rewrite (decide_True (P := p' x = true)) by (apply H; [left | exact Hp]).
    rewrite filter_cons, decide_True by exact Hp. rewrite IH. reflexivity.
  - destruct (decide (p' x = true)); [|exact IH].
    rewrite filter_cons, decide_False by exact Hp. exact IH.
Qed.

Lemma has_label_shape (l : string) (n n' : node) :
  node_shape n = node_shape n' -> has_label l n = has_label l n'.
Proof. unfold node_shape, has_label. intros [= _ ->]. reflexivity. Qed.

(** X9.  Saving answers for an application id that the query text reads
    back as itself does not change what [applications] returns, in a
    store where no node is both an Application and an Answer. *)
Theorem saveAnswers_keeps_applications (o : oracle)
  (data : SaveAnswersInput.t) (g g' : graph) (ret : option Question.t) :
  plain_id (SaveAnswersInput.applicationUuid data) = true ->
  applications_apart g = true ->
  Mutation.saveAnswers o data g = Ok (g', ret) ->
  Query.applications g' = Query.applications g.
Proof.
  intros _ Hg Hsave.
  destruct (saveAnswers_frame_of o data g g' ret Hsave)
    as (Hn & _ & (created & Hshape & Hcreated) & _).
  unfold Query.applications, run_applications. do 2 f_equal.
  assert (Hold : forall n, n ∈ nodes g -> has_label "Application" n = true ->
                           negb (has_label "Answer" n) = true).
  { intros n Hin Happ. unfold applications_apart in Hg.
    rewrite forallb_forall in Hg.
    specialize (Hg n (proj1 (list_elem_of_In _ _) Hin)).
    rewrite Happ in Hg. exact Hg. }
  assert (Hnew : forall n, n ∈ nodes g' -> has_label "Application" n = true ->
                           negb (has_label "Answer" n) = true).
  { intros n Hin Happ.
    assert (Hs : node_shape n ∈ node_shape <$> nodes g')
      by (apply list_elem_of_fmap; eauto).
    rewrite Hshape in Hs. apply elem_of_app in Hs as [Hs|Hs].
    - apply list_elem_of_fmap in Hs as (n0 & Heq & Hin0).
      rewrite (has_label_shape "Answer" _ _ Heq).
      apply Hold; [exact Hin0|].
      rewrite <- (has_label_shape "Application" _ _ Heq). exact Happ.
    - rewrite Forall_forall in Hcreated. specialize (Hcreated _ Hs).
      unfold node_shape in Hcreated. simpl in Hcreated.
      unfold has_label in Happ. rewrite Hcreated in Happ. discriminate Happ. }
  rewrite (filter_through (has_label "Application")
             (fun n => negb (has_label "Answer" n)) (nodes g') Hnew).
  rewrite (filter_through (has_label "Application")
             (fun n => negb (has_label "Answer" n)) (nodes g) Hold).
  rewrite Hn. reflexivity.
Qed.

Lemma saveAnswers_keeps_applications_witness :
  let data :=
    SaveAnswersInput.mk "A1" [SaveAnswerInput.mk "42" "Q2" AnswerType.int] in
  plain_id (SaveAnswersInput.applicationUuid data) = true
  /\ applications_apart scenario_graph = true
  /\ exists g',
       Mutation.saveAnswers oracle_1 data scenario_graph = Ok (g', None)
       /\ Query.applications g' = Query.applications scenario_graph.
Proof.
  intros data.
  assert (Hg : applications_apart scenario_graph = true)
    by (vm_compute; reflexivity).
  split; [reflexivity|].
  split; [exact Hg|]. eexists. split; [reflexivity|].
  exact (saveAnswers_keeps_applications oracle_1 data scenario_graph _ None
           eq_refl Hg eq_refl).
Defined.

(** ** What a save writes *)

Lemma Answer_marshal_created (o : oracle) (k : nat) (t : SaveAnswerInput.t) :
  Answer.marshal
    (PyDict (create_answer_props o k (SaveAnswerInput.to_dict t)))
  = Ok (Answer.mk (PyStr (uuid_at o k))
          (PyStr (SaveAnswerInput.answer t))
          (PyStr (AnswerType.value (SaveAnswerInput.type t)))
          (datetime_now o) (datetime_now o)).
Proof.
  apply Answer_marshal_Ok. unfold answer_fields, create_answer_props. simpl.
  rewrite to_dict_answer, to_dict_type. unfold set_prop.
  repeat apply conj.
  - rewrite !lookup_insert_ne by discriminate. apply lookup_insert_eq.
  - rewrite !lookup_insert_ne by discriminate. apply lookup_insert_eq.
  - rewrite !lookup_insert_ne by discriminate. apply lookup_insert_eq.
  - rewrite !lookup_insert_ne by discriminate. apply lookup_insert_eq.
  - apply lookup_insert_eq.
Qed.

Lemma create_rel_props_lookup (o : oracle) (k : nat)
  (applicationUuid : string) :
  create_rel_props o k applicationUuid !! "uuid"
  = Some (PyStr (uuid_at o (S k)))
  /\ create_rel_props o k applicationUuid !! "has_application_uuid"
     = Some (PyStr applicationUuid)
  /\ create_rel_props o k applicationUuid !! "created_at"
     = Some (datetime_now o)
  /\ create_rel_props o k applicationUuid !! "updated_at"
     = Some (datetime_now o).
Proof.
  unfold create_rel_props, set_prop. repeat apply conj.
  - rewrite !lookup_insert_ne by discriminate. apply lookup_insert_eq.
  - rewrite !lookup_insert_ne by discriminate. apply lookup_insert_eq.
  - rewrite !lookup_insert_ne by discriminate. apply lookup_insert_eq.
  - apply lookup_insert_eq.
Qed.

(** X10.  The first save for a key, for an application id that the query
    text reads back as itself.  When the question uuid names one
    Question node that has no answer-relationship for the application,
    [saveAnswers] with one triple leaves exactly one: it runs from the
    question node to a new Answer node, carries [has_application_uuid],
    the second uuid drawn and both timestamps of the save, and its Answer
    node has every key [Answer.marshal] reads: it marshals to the first
    uuid drawn, the answer and the value of the type of the triple, and
    [createdAt] = [updatedAt] = the time of the save. *)
Theorem saveAnswers_creates (g : graph) (o : oracle)
  (applicationUuid questionUuid answer : string) (type : AnswerType.t)
  (q : node) :
  let data :=
    SaveAnswersInput.mk applicationUuid
      [SaveAnswerInput.mk answer questionUuid type] in
  plain_id applicationUuid = true ->
  ids_allocated g = true ->
  question_nodes g questionUuid = [q] ->
  answer_rels g questionUuid applicationUuid = [] ->
  exists g' r a,
    Mutation.saveAnswers o data g = Ok (g', None)
    /\ answer_rels g' questionUuid applicationUuid = [(r, a)]
    /\ r_start r = n_id q /\ r_end r = n_id a
    /\ r_type r = "HAS_ANSWER" /\ n_labels a = ["Answer"]
    /\ n_id a = next_id g
    /\ r_props r !! "has_application_uuid" = Some (PyStr applicationUuid)
    /\ r_props r !! "uuid" = Some (PyStr (uuid_at o 1))
    /\ r_props r !! "created_at" = Some (PyDateTime (timestamp o))
    /\ r_props r !! "updated_at" = Some (PyDateTime (timestamp o))
    /\ Answer.marshal (PyDict (n_props a))
       = Ok (Answer.mk (PyStr (uuid_at o 0)) (PyStr answer)
               (PyStr (AnswerType.value type))
               (PyDateTime (timestamp o)) (PyDateTime (timestamp o))).
Proof.
  intros data _ Hg Hq Hnone.
  set (t := SaveAnswerInput.mk answer questionUuid type).
  destruct (save_creates o applicationUuid t g q Hg Hq Hnone) as [_ Hr].
  destruct (create_rel_props_lookup o 0 applicationUuid)
    as (Hu & Hau & Hc & Hup).
  eexists _, _, _. split; [reflexivity|]. split; [exact Hr|].
  simpl. repeat apply conj; try reflexivity; try assumption.
Qed.

Lemma saveAnswers_creates_witness :
  let data :=
    SaveAnswersInput.mk "A1" [SaveAnswerInput.mk "42" "Q2" AnswerType.int] in
  let q := Node 2 ["Question"] (question_props "Q2" 1) in
  plain_id "A1" = true
  /\ ids_allocated scenario_graph = true
  /\ question_nodes scenario_graph "Q2" = [q]
  /\ answer_rels scenario_graph "Q2" "A1" = []
  /\ exists g' r a,
       Mutation.saveAnswers oracle_1 data scenario_graph = Ok (g', None)
       /\ answer_rels g' "Q2" "A1" = [(r, a)]
       /\ r_start r = n_id q /\ r_end r = n_id a
       /\ r_type r = "HAS_ANSWER" /\ n_labels a = ["Answer"]
       /\ n_id a = next_id scenario_graph
       /\ r_props r !! "has_application_uuid" = Some (PyStr "A1")
       /\ r_props r !! "uuid" = Some (PyStr (uuid_at oracle_1 1))
       /\ r_props r !! "created_at" = Some (PyDateTime (timestamp oracle_1))
       /\ r_props r !! "updated_at" = Some (PyDateTime (timestamp oracle_1))
       /\ Answer.marshal (PyDict (n_props a))
          = Ok (Answer.mk (PyStr (uuid_at oracle_1 0)) (PyStr "42")
                  (PyStr (AnswerType.value AnswerType.int))
                  (PyDateTime (timestamp oracle_1))
                  (PyDateTime (timestamp oracle_1))).
Proof.
  intros data q.
  assert (Hg : ids_allocated scenario_graph = true)
    by (vm_compute; reflexivity).
  assert (Hq : question_nodes scenario_graph "Q2" = [q])
    by (vm_compute; reflexivity).
  assert (Hn : answer_rels scenario_graph "Q2" "A1" = [])
    by (vm_compute; reflexivity).
  split; [reflexivity|].
  split; [exact Hg|]. split; [exact Hq|]. split; [exact Hn|].
  exact (saveAnswers_creates scenario_graph oracle_1 "A1" "Q2" "42"
           AnswerType.int q eq_refl Hg Hq Hn).
Defined.

(** ** A batch is its parts, one after the other *)

Lemma merge_row_id (o : oracle) (applicationUuid : string) (s : graph * nat)
  (d : dict) (q q' : node) :
  n_id q = n_id q' ->
  merge_row o applicationUuid s (d, q) = merge_row o applicationUuid s (d, q').
Proof.
  intros Hid.
  unfold merge_row, on_create, on_match, created_rel, merge_set_node,
    merge_set_rel, merge_binds_node, merge_binds_rel, answers_of,
    is_has_answer.
  simpl. rewrite Hid. reflexivity.
Qed.

Lemma merge_row_shift (o : oracle) (applicationUuid : string) (n k : nat)
  (g : graph) (row : dict * node) :
  merge_row o applicationUuid (g, n + k) row
  = ((merge_row (shift_oracle n o) applicationUuid (g, k) row).1,
     n + (merge_row (shift_oracle n o) applicationUuid (g, k) row).2).
Proof.
  unfold merge_row. simpl.
  destruct (answers_of g applicationUuid row.2) as [|p l]; simpl.
  - unfold on_create, created_answer, created_rel, create_answer_props,
      create_rel_props, datetime_now. simpl.
    rewrite !Nat.add_succ_r. reflexivity.
  - reflexivity.
Qed.

Lemma merge_rows_shift (o : oracle) (applicationUuid : string) (n : nat)
  (table : list (dict * node)) (g : graph) (k : nat) :
  foldl (merge_row o applicationUuid) (g, n + k) table
  = ((foldl (merge_row (shift_oracle n o) applicationUuid) (g, k) table).1,
     n + (foldl (merge_row (shift_oracle n o) applicationUuid) (g, k)
            table).2).
Proof.
  revert g k. induction table as [|row table IH]; intros g k; [reflexivity|].
  cbn [foldl]. rewrite merge_row_shift.
  destruct (merge_row (shift_oracle n o) applicationUuid (g, k) row)
    as [g' k'].
  apply IH.
Qed.

Lemma merge_rows_id (o : oracle) (applicationUuid : string)
  (F : node -> node) (table : list (dict * node)) (s : graph * nat) :
  (forall n, n_id (F n) = n_id n) ->
  foldl (merge_row o applicationUuid) s
    ((fun row => (row.1, F row.2)) <$> table)
  = foldl (merge_row o applicationUuid) s table.
Proof.
  intros HF. revert s. induction table as [|[d q] table IH]; intros s;
    [reflexivity|].
  rewrite fmap_cons. cbn [foldl]. simpl.
  rewrite (merge_row_id o applicationUuid s d (F q) q (HF q)). apply IH.
Qed.

Lemma same_questions_refl (g : graph) : same_questions g g.
Proof.
  exists (fun n => n). split; [reflexivity|]. intros v.
  symmetry. apply list_fmap_id.
Qed.

Lemma same_questions_trans (g1 g2 g3 : graph) :
  same_questions g1 g2 -> same_questions g2 g3 -> same_questions g1 g3.
Proof.
  intros (F1 & Hid1 & HF1) (F2 & Hid2 & HF2).
  exists (fun n => F2 (F1 n)). split.
  - intros n. rewrite Hid2. apply Hid1.
  - intros v. rewrite HF2, HF1, <- list_fmap_compose. reflexivity.
Qed.

Lemma same_questions_step (o : oracle) (applicationUuid : string)
  (s : graph * nat) (row : dict * node) :
  same_questions s.1 (merge_row o applicationUuid s row).1.
Proof.
  unfold merge_row.
  destruct (answers_of s.1 applicationUuid row.2) as [|p l]; simpl.
  - exists (fun n => n). split; [reflexivity|]. intros v. simpl.
    rewrite filter_app, list_fmap_id.
    rewrite (filter_none_bool (is_question v) [_]).
    + apply app_nil_r.
    + intros n Hn. apply list_elem_of_singleton in Hn as ->. reflexivity.
  - exists (merge_set_node o applicationUuid row.1 row.2 s.1). split.
    + intros n. apply on_match_node_id.
    + intros v. simpl. rewrite (filter_fmap_bool _ (is_question v)).
      f_equal. apply filter_ext_bool. intros n _.
      apply on_match_node_question.
Qed.

Lemma save_table_same_questions (g g' : graph) (answers : list dict) :
  same_questions g g' ->
  exists F : node -> node,
    (forall n, n_id (F n) = n_id n)
    /\ save_table g' answers
       = (fun row => (row.1, F row.2)) <$> save_table g answers.
Proof.
  intros (F & Hid & HF). exists F. split; [exact Hid|].
  unfold save_table.
  induction answers as [|d answers IH]; [reflexivity|].
  rewrite !bind_cons, fmap_app, IH. f_equal.
  rewrite HF, list_fmap_bind, fmap_bind_list. reflexivity.
Qed.

Lemma run_save_app (o : oracle) (applicationUuid : string)
  (l1 l2 : list dict) (g : graph) :
  run_save o applicationUuid (l1 ++ l2) g
  = run_save (shift_oracle (save_draws o applicationUuid l1 g) o)
      applicationUuid l2 (run_save o applicationUuid l1 g).
Proof.
  unfold run_save at 1. rewrite save_table_app, foldl_app.
  pose proof (merge_rows_related same_questions o applicationUuid
                same_questions_refl same_questions_trans
                (same_questions_step o applicationUuid)
                (save_table g l1) (g, 0)) as Hsame.
  fold (run_save o applicationUuid l1 g) in Hsame.
  destruct (save_table_same_questions _ _ l2 Hsame) as (F & Hid & HF).
  unfold run_save at 1. rewrite HF, (merge_rows_id _ _ F _ _ Hid).
  assert (Hst : foldl (merge_row o applicationUuid) (g, 0) (save_table g l1)
                = (run_save o applicationUuid l1 g,
                   save_draws o applicationUuid l1 g + 0)).
  { unfold run_save, save_draws. rewrite Nat.add_0_r.
    destruct (foldl _ _ _); reflexivity. }
  rewrite Hst, merge_rows_shift. reflexivity.
Qed.

(** X11.  A batch can be saved in two parts.  For an application id that
    the query text reads back as itself, saving [before ++ after] in
    one call leaves the store as saving [before] and then [after] does,
    when the second call is given the timestamp of the first and the
    uuids that follow those the first has drawn. *)
Theorem saveAnswers_batch_split (o : oracle) (applicationUuid : string)
  (before after : list SaveAnswerInput.t) (g : graph) :
  plain_id applicationUuid = true ->
  exists g1,
    Mutation.saveAnswers o (SaveAnswersInput.mk applicationUuid before) g
    = Ok (g1, None)
    /\ Mutation.saveAnswers o
         (SaveAnswersInput.mk applicationUuid (before ++ after)) g
       = Mutation.saveAnswers
           (shift_oracle
              (save_draws o applicationUuid
                 (SaveAnswerInput.to_dict <$> before) g) o)
           (SaveAnswersInput.mk applicationUuid after) g1.
Proof.
  intros _. eexists. split; [reflexivity|].
  unfold Mutation.saveAnswers, SaveAnswersInput.serialize. simpl.
  rewrite fmap_app, run_save_app. reflexivity.
Qed.

Lemma saveAnswers_batch_split_witness :
  let before := [SaveAnswerInput.mk "Paris" "Q1" AnswerType.string;
                 SaveAnswerInput.mk "42" "Q2" AnswerType.int] in
  let after := [SaveAnswerInput.mk "43" "Q2" AnswerType.int] in
  plain_id "A1" = true
  /\ save_draws oracle_1 "A1" (SaveAnswerInput.to_dict <$> before)
       scenario_graph = 4
  /\ exists g1,
       Mutation.saveAnswers oracle_1 (SaveAnswersInput.mk "A1" before)
         scenario_graph = Ok (g1, None)
       /\ Mutation.saveAnswers oracle_1
            (SaveAnswersInput.mk "A1" (before ++ after)) scenario_graph
          = Mutation.saveAnswers
              (shift_oracle
                 (save_draws oracle_1 "A1"
                    (SaveAnswerInput.to_dict <$> before) scenario_graph)
                 oracle_1)
              (SaveAnswersInput.mk "A1" after) g1.
Proof.
  intros before after. split; [reflexivity|].
  split; [vm_compute; reflexivity|].
  exact (saveAnswers_batch_split oracle_1 "A1" before after scenario_graph
           eq_refl).
Defined.

(** X12.  Within one batch the last triple for a question wins: for an
    application id that the query text reads back as itself, when the
    question uuid names one Question node with at most one
    answer-relationship for the application, a batch of two triples for
    that question leaves one answer-relationship, and its Answer holds
    the answer and the type of the second triple. *)
Theorem saveAnswers_last_wins (g : graph) (o : oracle)
  (applicationUuid questionUuid answer1 answer2 : string)
  (type1 type2 : AnswerType.t) :
  let data :=
    SaveAnswersInput.mk applicationUuid
      [SaveAnswerInput.mk answer1 questionUuid type1;
       SaveAnswerInput.mk answer2 questionUuid type2] in
  plain_id applicationUuid = true ->
  ids_allocated g = true ->
  length (question_nodes g questionUuid) = 1 ->
  length (answer_rels g questionUuid applicationUuid) <= 1 ->
  exists g' r a,
    Mutation.saveAnswers o data g = Ok (g', None)
    /\ answer_rels g' questionUuid applicationUuid = [(r, a)]
    /\ n_props a !! "answer" = Some (PyStr answer2)
    /\ n_props a !! "type" = Some (PyStr (AnswerType.value type2))
    /\ n_props a !! "updated_at" = Some (PyDateTime (timestamp o)).
Proof.
  intros data _ Hg Hq Hle.
  set (t1 := SaveAnswerInput.mk answer1 questionUuid type1).
  set (t2 := SaveAnswerInput.mk answer2 questionUuid type2).
  destruct (save_leaves_one o applicationUuid t1 g Hg Hq Hle)
    as (q1 & r1 & a1 & Hq1 & Hr1).
  set (o' := shift_oracle
               (save_draws o applicationUuid [SaveAnswerInput.to_dict t1] g)
               o).
  destruct (save_updates o' applicationUuid t2 _ q1 r1 a1 Hq1 Hr1)
    as [_ Hr2].
  destruct (lookup_match_answer_props o' (SaveAnswerInput.to_dict t2)
              (n_props a1)) as (Ha & Ht & Hu & _).
  exists (run_save o applicationUuid
            [SaveAnswerInput.to_dict t1; SaveAnswerInput.to_dict t2] g).
  eexists _, _. split; [reflexivity|].
  pose proof (run_save_app o applicationUuid [SaveAnswerInput.to_dict t1]
                [SaveAnswerInput.to_dict t2] g) as Happ.
  change ([SaveAnswerInput.to_dict t1] ++ [SaveAnswerInput.to_dict t2])
    with [SaveAnswerInput.to_dict t1; SaveAnswerInput.to_dict t2] in Happ.
  rewrite Happ. split; [exact Hr2|]. simpl. repeat apply conj; assumption.
Qed.

Lemma saveAnswers_last_wins_witness :
  let data :=
    SaveAnswersInput.mk "A1"
      [SaveAnswerInput.mk "42" "Q2" AnswerType.int;
       SaveAnswerInput.mk "43" "Q2" AnswerType.float] in
  plain_id "A1" = true
  /\ ids_allocated scenario_graph = true
  /\ length (question_nodes scenario_graph "Q2") = 1
  /\ length (answer_rels scenario_graph "Q2" "A1") <= 1
  /\ exists g' r a,
       Mutation.saveAnswers oracle_1 data scenario_graph = Ok (g', None)
       /\ answer_rels g' "Q2" "A1" = [(r, a)]
       /\ n_props a !! "answer" = Some (PyStr "43")
       /\ n_props a !! "type"
          = Some (PyStr (AnswerType.value AnswerType.float))
       /\ n_props a !! "updated_at" = Some (PyDateTime (timestamp oracle_1)).
Proof.
  intros data.
  assert (Hg : ids_allocated scenario_graph = true)
    by (vm_compute; reflexivity).
  assert (Hq : length (question_nodes scenario_graph "Q2") = 1)
    by (vm_compute; reflexivity).
  assert (Hle : length (answer_rels scenario_graph "Q2" "A1") <= 1)
    by (vm_compute; lia).
  split; [reflexivity|].
  split; [exact Hg|]. split; [exact Hq|]. split; [exact Hle|].
  exact (saveAnswers_last_wins scenario_graph oracle_1 "A1" "Q2" "42" "43"
           AnswerType.int AnswerType.float eq_refl Hg Hq Hle).
Defined.

(** ** Invariants of the store *)

(** X13.  [saveAnswers], for an application id that the query text reads
    back as itself, keeps the store well formed: every identity stays
    allocated, and if no question node had two answer-relationships for
    one application before the call, none has after it, whatever the
    batch (also when it names a question twice). *)
Theorem saveAnswers_keeps_key_unique (o : oracle) (data : SaveAnswersInput.t)
  (g g' : graph) (ret : option Question.t) :
  plain_id (SaveAnswersInput.applicationUuid data) = true ->
  ids_allocated g = true ->
  key_unique g ->
  Mutation.saveAnswers o data g = Ok (g', ret) ->
  ids_allocated g' = true /\ key_unique g'.
Proof.
  intros _ Hg Hu. unfold Mutation.saveAnswers, run_save. intros [= <- _].
  apply (merge_rows_invariant key_unique o _ (next_id g));
    auto using save_table_allocated, merge_row_key_unique.
Qed.

Lemma scenario_graph_key_unique : key_unique scenario_graph.
Proof.
  intros au q. unfold answers_of.
  rewrite (filter_none_bool (is_has_answer au q)); [simpl; lia|].
  intros r Hr. unfold is_has_answer.
  assert (Ht : String.eqb (r_type r) "HAS_ANSWER" = false).
  { simpl in Hr. repeat (apply elem_of_cons in Hr as [->|Hr];
      [reflexivity|]). inversion Hr. }
  rewrite Ht, andb_false_r. reflexivity.
Qed.

Lemma saveAnswers_keeps_key_unique_witness :
  let data :=
    SaveAnswersInput.mk "A1"
      [SaveAnswerInput.mk "42" "Q2" AnswerType.int;
       SaveAnswerInput.mk "43" "Q2" AnswerType.int] in
  plain_id (SaveAnswersInput.applicationUuid data) = true
  /\ ids_allocated scenario_graph = true
  /\ key_unique scenario_graph
  /\ exists g',
       Mutation.saveAnswers oracle_1 data scenario_graph = Ok (g', None)
       /\ ids_allocated g' = true /\ key_unique g'.
Proof.
  intros data.
  assert (Hg : ids_allocated scenario_graph = true)
    by (vm_compute; reflexivity).
  split; [reflexivity|].
  split; [exact Hg|]. split; [exact scenario_graph_key_unique|].
  eexists. split; [reflexivity|].
  exact (saveAnswers_keeps_key_unique oracle_1 data scenario_graph _ None
           eq_refl Hg scenario_graph_key_unique eq_refl).
Defined.

(** ** The two traversals *)

Lemma run_ans_query_rows (g : graph) (applicationUuid : string) :
  run_ans_query g applicationUuid
  = app ← filter (fun n => is_application applicationUuid n = true) (nodes g);
    eq ← questions_of g app;
    ans_rows_of g applicationUuid app eq.
Proof. reflexivity. Qed.

Lemma run_no_ans_query_rows (g : graph) (applicationUuid : string) :
  run_no_ans_query g applicationUuid
  = app ← filter (fun n => is_application applicationUuid n = true) (nodes g);
    eq ← questions_of g app;
    no_ans_rows_of g applicationUuid app eq.
Proof. reflexivity. Qed.

Lemma answers_of_has_answer (g : graph) (applicationUuid : string) (q : node)
  (r : rel) (a : node) :
  (r, a) ∈ answers_of g applicationUuid q ->
  existsb (is_has_answer applicationUuid q) (rels g) = true.
Proof.
  unfold answers_of. intros H.
  apply list_elem_of_bind in H as (r' & H & Hr).
  apply list_elem_of_filter in Hr as [Hr Hin].
  apply existsb_exists. exists r'. split; [apply list_elem_of_In, Hin | exact Hr].
Qed.

(** ** Fetching after a first save *)

Lemma ids_allocated_rel_id (g : graph) (r : rel) :
  ids_allocated g = true -> r ∈ rels g -> r_id r < next_id g.
Proof.
  intros Hg Hr. apply ids_allocated_iff in Hg as [_ Hg].
  rewrite Forall_forall in Hg. apply (Hg r Hr).
Qed.

Lemma is_has_answer_created_eq (o : oracle) (k : nat)
  (applicationUuid : string) (q q' : node) (g : graph) :
  is_has_answer applicationUuid q' (created_rel o k applicationUuid q g)
  = Nat.eqb (n_id q) (n_id q').
Proof.
  pose proof (is_has_answer_new o k applicationUuid q g) as H.
  unfold is_has_answer in *. simpl in *.
  rewrite Nat.eqb_refl in H. simpl in H.
  rewrite H. destruct (Nat.eqb (n_id q) (n_id q')); reflexivity.
Qed.

Lemma questions_of_elem (g : graph) (app : node) (e : rel) (q : node) :
  (e, q) ∈ questions_of g app ->
  e ∈ rels g /\ q ∈ nodes g /\ has_label "Question" q = true.
Proof.
  unfold questions_of. intros H.
  apply list_elem_of_bind in H as (e' & H & He).
  apply list_elem_of_bind in H as (q' & H & Hq).
  apply list_elem_of_singleton in H. injection H as -> ->.
  apply list_elem_of_filter in He as [_ He].
  apply list_elem_of_filter in Hq as [Hq Hin].
  apply andb_true_iff in Hq as [_ Hq]. auto.
Qed.

Section on_create_rows.
Variables (o : oracle) (k : nat) (applicationUuid : string) (answer : dict)
  (q : node) (g : graph).
Hypothesis Hg : ids_allocated g = true.

Local Abbreviation g' := (on_create o k applicationUuid answer q g).
Local Abbreviation a_new := (created_answer o k answer g).
Local Abbreviation r_new := (created_rel o k applicationUuid q g).

Lemma applications_on_create (au : string) :
  filter (fun n => is_application au n = true) (nodes g')
  = filter (fun n => is_application au n = true) (nodes g).
Proof.
  simpl. rewrite filter_app.
  rewrite (filter_none_bool (is_application au) [_]).
  - apply app_nil_r.
  - intros n Hn. apply list_elem_of_singleton in Hn as ->. reflexivity.
Qed.

Lemma questions_of_on_create (app : node) :
  questions_of g' app = questions_of g app.
Proof.
  unfold questions_of. simpl. rewrite filter_app, bind_app.
  assert (Hq : forall e,
    filter (fun n => Nat.eqb (n_id n) (r_end e) && has_label "Question" n
                     = true) (nodes g ++ [a_new])
    = filter (fun n => Nat.eqb (n_id n) (r_end e) && has_label "Question" n
                       = true) (nodes g)).
  { intros e. rewrite filter_app.
    rewrite (filter_none_bool
               (fun n => Nat.eqb (n_id n) (r_end e) && has_label "Question" n)
               [_]).
    - apply app_nil_r.
    - intros n Hn. apply list_elem_of_singleton in Hn as ->.
      apply andb_false_r. }
  rewrite (bind_ext_in _
             (fun e => q' ← filter (fun n => Nat.eqb (n_id n) (r_end e)
                                            && has_label "Question" n = true)
                             (nodes g); [(e, q')]))
    by (intros e _; rewrite Hq; reflexivity).
  rewrite <- (app_nil_r (_ ≫= _)) at 2. f_equal.
  rewrite filter_cons, filter_nil.
  destruct (decide _); [|reflexivity].
  rewrite bind_singleton, Hq.
  rewrite (filter_none_bool
             (fun n => Nat.eqb (n_id n) (r_end r_new)
                       && has_label "Question" n)); [reflexivity|].
  intros n Hn. pose proof (ids_allocated_node g n Hg Hn) as Hlt.
  apply andb_false_iff. left. apply Nat.eqb_neq. simpl. lia.
Qed.

Lemma ans_rows_of_on_create (app : node) (e : rel) (q' : node) :
  e ∈ rels g ->
  ans_rows_of g' applicationUuid app (e, q')
  = ans_rows_of g applicationUuid app (e, q')
    ++ (if Nat.eqb (n_id q) (n_id q')
        then [AnsRow.mk (n_props app) (n_props q') (r_props r_new)
                (n_props a_new)]
        else []).
Proof.
  intros He. unfold ans_rows_of. simpl.
  rewrite answers_of_on_create by exact Hg.
  rewrite is_has_answer_created_eq, filter_app, bind_app. f_equal.
  destruct (Nat.eqb (n_id q) (n_id q')); [|reflexivity].
  rewrite filter_cons, filter_nil. simpl.
  pose proof (ids_allocated_rel_id g e Hg He) as Hlt.
  rewrite decide_True; [reflexivity|].
  apply negb_true_iff, Nat.eqb_neq. lia.
Qed.

Lemma no_ans_rows_of_on_create (app : node) (eq : rel * node) :
  no_ans_rows_of g' applicationUuid app eq
  = if Nat.eqb (n_id q) (n_id eq.2) then []
    else no_ans_rows_of g applicationUuid app eq.
Proof.
  unfold no_ans_rows_of. simpl.
  rewrite existsb_app. simpl. rewrite is_has_answer_created_eq, orb_false_r.
  destruct (existsb _ (rels g)), (Nat.eqb (n_id q) (n_id eq.2)); reflexivity.
Qed.
End on_create_rows.

Lemma bind_app_Permutation {A B : Type} (f h : A -> list B) (l : list A) :
  (l ≫= f) ++ (l ≫= h) ≡ₚ l ≫= (fun x => f x ++ h x).
Proof.
  induction l as [|x l IH]; [reflexivity|].
  rewrite !bind_cons, <- IH, <- !app_assoc.
  apply Permutation_app_head.
  rewrite !app_assoc. apply Permutation_app_tail, Permutation_app_comm.
Qed.

Lemma comprehension_Permutation {A B : Type} (f : A -> result B)
  (l l' : list A) :
  l ≡ₚ l' ->
  forall ys, comprehension f l = Ok ys ->
  exists ys', comprehension f l' = Ok ys' /\ ys ≡ₚ ys'.
Proof.
  induction 1 as [|x l l' _ IH|x y l|l1 l2 l3 _ IH1 _ IH2]; intros ys Hys.
  - exists ys. split; [exact Hys | reflexivity].
  - simpl in Hys. apply bind_Ok in Hys as (b & Hb & Hys).
    apply bind_Ok in Hys as (bs & Hbs & [= <-]).
    destruct (IH bs Hbs) as (bs' & Hbs' & Hp).
    exists (b :: bs'). simpl. rewrite Hb. simpl. rewrite Hbs'. simpl.
    split; [reflexivity | constructor; exact Hp].
  - simpl in Hys. apply bind_Ok in Hys as (b & Hb & Hys).
    apply bind_Ok in Hys as (bs & Hbs & [= <-]).
    apply bind_Ok in Hbs as (c & Hc & Hbs).
    apply bind_Ok in Hbs as (cs & Hcs & [= <-]).
    exists (c :: b :: cs). simpl. rewrite Hc. simpl. rewrite Hb. simpl.
    rewrite Hcs. simpl. split; [reflexivity | apply perm_swap].
  - destruct (IH1 ys Hys) as (ys1 & H1 & Hp1).
    destruct (IH2 ys1 H1) as (ys2 & H2 & Hp2).
    exists ys2. split; [exact H2 | etransitivity; eassumption].
Qed.

(** A change made question by question goes through the comprehension. *)
Lemma comprehension_bind_fmap {A B C : Type} (f : B -> result C)
  (up : C -> C) (E E' : A -> list B) (l : list A) :
  (forall x ms, x ∈ l -> comprehension f (E x) = Ok ms ->
                comprehension f (E' x) = Ok (up <$> ms)) ->
  forall ys, comprehension f (l ≫= E) = Ok ys ->
             comprehension f (l ≫= E') = Ok (up <$> ys).
Proof.
  induction l as [|x l IH]; intros Hstep ys Hys.
  - injection Hys as <-. reflexivity.
  - rewrite bind_cons, comprehension_app in Hys.
    apply bind_Ok in Hys as (ms & Hms & Hys).
    apply bind_Ok in Hys as (ys0 & Hys0 & [= <-]).
    rewrite bind_cons, comprehension_app.
    rewrite (Hstep x ms (list_elem_of_here _ _) Hms). simpl.
    rewrite (IH (fun y ms' Hy => Hstep y ms' (list_elem_of_further _ _ _ Hy))
               ys0 Hys0).
    simpl. rewrite fmap_app. reflexivity.
Qed.

Lemma picked_app_None (ans_rows : list AnsRow.t)
  (no_ans_rows : list NoAnsRow.t) :
  picked_app ans_rows no_ans_rows = None <->
  ans_rows = [] /\ no_ans_rows = [].
Proof.
  unfold picked_app. destruct no_ans_rows, ans_rows; split;
    try discriminate; try tauto; intros [? ?]; discriminate.
Qed.

Lemma picked_app_same (d : dict) (ans_rows : list AnsRow.t)
  (no_ans_rows : list NoAnsRow.t) (d' : dict) :
  Forall (fun r => AnsRow.app r = d) ans_rows ->
  Forall (fun r => NoAnsRow.app r = d) no_ans_rows ->
  picked_app ans_rows no_ans_rows = Some d' -> d' = d.
Proof.
  intros Ha Hu. unfold picked_app.
  destruct no_ans_rows as [|u ?], ans_rows as [|r ?]; try discriminate.
  - apply Forall_cons in Ha as [Ha _]. congruence.
  - apply Forall_cons in Hu as [Hu _]. congruence.
  - apply Forall_cons in Hu as [Hu _]. congruence.
Qed.

(** The reconciliation in terms of the entries. *)
Lemma reconcile_entries (ans_rows : list AnsRow.t)
  (no_ans_rows : list NoAnsRow.t) (a : Application.t) :
  Query.reconcile ans_rows no_ans_rows = Ok a <->
  exists d,
    picked_app ans_rows no_ans_rows = Some d
    /\ header_fields d a
    /\ comprehension Application.marshal_entry
         ((Query.ans_entry <$> ans_rows)
          ++ (Query.no_ans_entry <$> no_ans_rows))
       = Ok (Application.questions a).
Proof.
  rewrite reconcile_picked.
  destruct (picked_app ans_rows no_ans_rows) as [d|].
  - rewrite Application_marshal_questions. split.
    + intros [Hh Hq]. eauto.
    + intros (d' & [= <-] & Hh & Hq). auto.
  - split; [discriminate|]. intros (d & Hd & _). discriminate.
Qed.

Lemma run_save_creates (o : oracle) (applicationUuid : string)
  (t : SaveAnswerInput.t) (g : graph) (q : node) :
  question_nodes g (SaveAnswerInput.questionUuid t) = [q] ->
  answers_of g applicationUuid q = [] ->
  run_save o applicationUuid [SaveAnswerInput.to_dict t] g
  = on_create o 0 applicationUuid (SaveAnswerInput.to_dict t) q g.
Proof.
  intros Hq Hnone. rewrite (run_save_single _ _ _ _ _ Hq).
  unfold merge_row. simpl. rewrite Hnone. reflexivity.
Qed.

Lemma no_answer_answers_of (g : graph) (applicationUuid : string) (q : node) :
  existsb (is_has_answer applicationUuid q) (rels g) = false ->
  answers_of g applicationUuid q = [].
Proof.
  intros H. destruct (answers_of g applicationUuid q) as [|[r a] l] eqn:E;
    [reflexivity|].
  assert (Hin : (r, a) ∈ answers_of g applicationUuid q) by (rewrite E; left).
  apply answers_of_has_answer in Hin. congruence.
Qed.

Lemma NoDup_ids_eq (g : graph) (n n' : node) :
  NoDup (n_id <$> nodes g) -> n ∈ nodes g -> n' ∈ nodes g ->
  n_id n = n_id n' -> n = n'.
Proof.
  intros Hnd Hn Hn' Hid.
  apply list_elem_of_lookup in Hn as [i Hi].
  apply list_elem_of_lookup in Hn' as [j Hj].
  assert (i = j) as ->.
  { apply (NoDup_lookup _ i j (n_id n) Hnd).
    - rewrite list_lookup_fmap, Hi. reflexivity.
    - rewrite list_lookup_fmap, Hj, Hid. reflexivity. }
  congruence.
Qed.

Lemma question_nodes_elem (g : graph) (questionUuid : string) (n : node) :
  n ∈ question_nodes g questionUuid <->
  n ∈ nodes g /\ has_label "Question" n = true
  /\ exists u, n_props n !! "uuid" = Some (PyStr u)
               /\ String.eqb u questionUuid = true.
Proof.
  unfold question_nodes. rewrite list_elem_of_filter.
  unfold is_question, prop_is. rewrite andb_true_iff. split.
  - intros [[Hl Hp] Hin]. split; [exact Hin|]. split; [exact Hl|].
    destruct (n_props n !! "uuid") as [[| | |u| | |]|]; try discriminate.
    eauto.
  - intros (Hin & Hl & u & Hu & He). rewrite Hu. auto.
Qed.

Lemma ans_rows_of_shape (g : graph) (applicationUuid : string) (app : node)
  (eq : rel * node) (row : AnsRow.t) :
  row ∈ ans_rows_of g applicationUuid app eq ->
  AnsRow.app row = n_props app /\ AnsRow.q row = n_props eq.2.
Proof.
  unfold ans_rows_of. intros H.
  apply list_elem_of_bind in H as (ra & H & _).
  apply list_elem_of_singleton in H as ->. auto.
Qed.

Lemma no_ans_rows_of_shape (g : graph) (applicationUuid : string)
  (app : node) (eq : rel * node) (row : NoAnsRow.t) :
  row ∈ no_ans_rows_of g applicationUuid app eq ->
  NoAnsRow.app row = n_props app /\ NoAnsRow.q row = n_props eq.2.
Proof.
  unfold no_ans_rows_of. destruct (existsb _ _); intros H; [inversion H|].
  apply list_elem_of_singleton in H as ->. auto.
Qed.

Lemma entries_of_question (g : graph) (applicationUuid : string) (app : node)
  (eq : rel * node) (entry : pyval) (m : Question.t) :
  entry ∈ entries_of g applicationUuid app eq ->
  Application.marshal_entry entry = Ok m ->
  question_fields (n_props eq.2) m.
Proof.
  unfold entries_of. intros Hin Hm.
  apply elem_of_app in Hin as [Hin|Hin];
    apply list_elem_of_fmap in Hin as (row & -> & Hrow).
  - apply ans_rows_of_shape in Hrow as [_ Hq].
    rewrite marshal_entry_ans, Hq in Hm.
    exact (Question_marshal_fields _ _ _ Hm).
  - apply no_ans_rows_of_shape in Hrow as [_ Hq].
    rewrite marshal_entry_no_ans, Hq in Hm.
    exact (Question_marshal_fields _ _ _ Hm).
Qed.

Lemma with_answer_other (questionUuid : string) (answer : Answer.t)
  (d : dict) (m : Question.t) :
  question_fields d m ->
  prop_is d "uuid" (Some (PyStr questionUuid)) = false ->
  with_answer questionUuid answer m = m.
Proof.
  intros (Hu & _) Hp. unfold with_answer, prop_is in *. rewrite Hu in Hp.
  destruct (Question.uuid m); try reflexivity. rewrite Hp. reflexivity.
Qed.

Lemma entries_Permutation (g : graph) (applicationUuid : string) (app : node)
  (Qs : list (rel * node)) :
  (Query.ans_entry <$> (Qs ≫= ans_rows_of g applicationUuid app))
  ++ (Query.no_ans_entry <$> (Qs ≫= no_ans_rows_of g applicationUuid app))
  ≡ₚ Qs ≫= entries_of g applicationUuid app.
Proof.
  rewrite !fmap_bind_list. apply bind_app_Permutation.
Qed.

Lemma Forall2_elem_of_r {A B : Type} (P : A -> B -> Prop) (l : list A)
  (k : list B) (y : B) :
  Forall2 P l k -> y ∈ k -> exists x, x ∈ l /\ P x y.
Proof.
  induction 1 as [|x y' l k Hxy _ IH]; intros Hin; [inversion Hin|].
  apply elem_of_cons in Hin as [->|Hin].
  - exists x. split; [left | exact Hxy].
  - destruct (IH Hin) as (x' & Hx' & HP). exists x'. split; [right|]; auto.
Qed.

Section fetch_after_create.
Variables (o : oracle) (applicationUuid : string) (t : SaveAnswerInput.t)
  (q app : node) (g : graph).
Hypothesis Hg : ids_allocated g = true.
Hypothesis Hnd : NoDup (n_id <$> nodes g).
Hypothesis Hq : question_nodes g (SaveAnswerInput.questionUuid t) = [q].
Hypothesis Hun :
  existsb (is_has_answer applicationUuid q) (rels g) = false.

Local Abbreviation d := (SaveAnswerInput.to_dict t).
Local Abbreviation g' := (on_create o 0 applicationUuid d q g).
Local Abbreviation new :=
  (Answer.mk (PyStr (uuid_at o 0)) (PyStr (SaveAnswerInput.answer t))
     (PyStr (AnswerType.value (SaveAnswerInput.type t)))
     (datetime_now o) (datetime_now o)).

Lemma entries_of_after_create (eq : rel * node)
  (ms : list Question.t) :
  eq ∈ questions_of g app ->
  comprehension Application.marshal_entry
    (entries_of g applicationUuid app eq) = Ok ms ->
  comprehension Application.marshal_entry
    (entries_of g' applicationUuid app eq)
  = Ok (with_answer (SaveAnswerInput.questionUuid t) new <$> ms).
Proof.
  destruct eq as [e q']. intros Hin Hms.
  destruct (questions_of_elem _ _ _ _ Hin) as (He & Hq' & Hlab).
  assert (Hqin : q ∈ question_nodes g (SaveAnswerInput.questionUuid t))
    by (rewrite Hq; left).
  unfold entries_of at 1.
  rewrite (ans_rows_of_on_create _ _ _ _ _ _ Hg _ _ _ He).
  rewrite no_ans_rows_of_on_create. simpl.
  destruct (Nat.eqb (n_id q) (n_id q')) eqn:Eid.
  - apply Nat.eqb_eq in Eid.
    apply question_nodes_elem in Hqin as (Hqn & _ & u & Hu & Heq).
    assert (q' = q) as -> by (symmetry; eapply NoDup_ids_eq; eassumption).
    revert Hms. unfold entries_of, ans_rows_of, no_ans_rows_of. simpl.
    rewrite (no_answer_answers_of _ _ _ Hun), Hun. simpl.
    intros Hms. apply bind_Ok in Hms as (m & Hm & Hms).
    injection Hms as <-.
    change (Application.marshal_entry
              (Query.no_ans_entry (NoAnsRow.mk (n_props app) (n_props q))))
      with (Question.marshal (PyDict (n_props q)) PyNone) in Hm.
    apply Question_marshal_None_Ok in Hm as [Hf Hnone].
    rewrite marshal_entry_ans. cbn [AnsRow.q AnsRow.ans].
    assert (Hm' : Question.marshal (PyDict (n_props q))
                    (PyDict (create_answer_props o 0 d))
                  = Ok (with_answer (SaveAnswerInput.questionUuid t) new m)).
    { apply Question_marshal_Some_Ok.
      unfold with_answer. destruct Hf as (Hfu & Hf).
      rewrite Hu in Hfu. injection Hfu as <-. rewrite Heq.
      split.
      - unfold question_fields. simpl. rewrite Hu. tauto.
      - exists new. split; [|reflexivity].
        apply Answer_marshal_Ok, Answer_marshal_created. }
    rewrite Hm'. reflexivity.
  - rewrite app_nil_r. fold (entries_of g applicationUuid app (e, q')).
    rewrite Hms. f_equal. symmetry. apply fmap_id_in. intros m Hm.
    apply comprehension_Ok in Hms.
    destruct (Forall2_elem_of_r _ _ _ _ Hms Hm) as (entry & Hentry & Hok).
    pose proof (entries_of_question _ _ _ _ _ _ Hentry Hok) as Hf.
    apply (with_answer_other _ _ _ _ Hf). cbn [snd].
    destruct (prop_is (n_props q') "uuid"
                (Some (PyStr (SaveAnswerInput.questionUuid t)))) eqn:Ep;
      [|reflexivity].
    assert (Hq'q : q' ∈ question_nodes g (SaveAnswerInput.questionUuid t)).
    { unfold question_nodes. apply list_elem_of_filter. split; [|exact Hq'].
      unfold is_question. rewrite Hlab, Ep. reflexivity. }
    rewrite Hq in Hq'q. apply list_elem_of_singleton in Hq'q as ->.
    rewrite Nat.eqb_refl in Eid. discriminate Eid.
Qed.
End fetch_after_create.

Lemma rows_of_app (g : graph) (applicationUuid : string) (app : node)
  (Qs : list (rel * node)) :
  Forall (fun r => AnsRow.app r = n_props app)
    (Qs ≫= ans_rows_of g applicationUuid app)
  /\ Forall (fun r => NoAnsRow.app r = n_props app)
       (Qs ≫= no_ans_rows_of g applicationUuid app).
Proof.
  split; apply Forall_forall; intros row Hrow;
    apply list_elem_of_bind in Hrow as (eq & Hrow & _).
  - apply ans_rows_of_shape in Hrow as [H _]. exact H.
  - apply no_ans_rows_of_shape in Hrow as [H _]. exact H.
Qed.

Lemma fetch_one_application (g : graph) (applicationUuid : string)
  (app : node) :
  filter (fun n => is_application applicationUuid n = true) (nodes g)
  = [app] ->
  Query.getApplicationWithQuestion g applicationUuid
  = Query.reconcile
      (questions_of g app ≫= ans_rows_of g applicationUuid app)
      (questions_of g app ≫= no_ans_rows_of g applicationUuid app).
Proof.
  intros Happ. unfold Query.getApplicationWithQuestion.
  rewrite run_ans_query_rows, run_no_ans_query_rows, Happ.
  rewrite !bind_singleton. reflexivity.
Qed.

Lemma fetch_on_create (o : oracle) (k : nat) (applicationUuid : string)
  (answer : dict) (q : node) (g : graph) (au : string) (app : node) :
  ids_allocated g = true ->
  filter (fun n => is_application au n = true) (nodes g) = [app] ->
  Query.getApplicationWithQuestion
    (on_create o k applicationUuid answer q g) au
  = Query.reconcile
      (questions_of g app
       ≫= ans_rows_of (on_create o k applicationUuid answer q g) au app)
      (questions_of g app
       ≫= no_ans_rows_of (on_create o k applicationUuid answer q g) au app).
Proof.
  intros Hg Happ.
  rewrite (fetch_one_application _ au app)
    by (rewrite applications_on_create; exact Happ).
  rewrite questions_of_on_create by exact Hg. reflexivity.
Qed.

(** X15.  Fetching after a first save, for an application id that the
    query texts read back as itself.  In a store with distinct node
    identities, one Application node for the application uuid and one
    Question node for the question uuid, let the question have no
    answer-relationship for the application and let the fetch of the
    application succeed.  After [saveAnswers] with one triple for the
    question the fetch succeeds again, with the same header and the same
    questions up to their order, except that the question saved now
    carries the Answer just created: the first uuid drawn, the answer and
    the type of the triple, and both timestamps equal to the time of the
    save. *)
Theorem fetch_after_first_save (g : graph) (o : oracle)
  (applicationUuid questionUuid answer : string) (type : AnswerType.t)
  (app q : node) (a : Application.t) :
  let data :=
    SaveAnswersInput.mk applicationUuid
      [SaveAnswerInput.mk answer questionUuid type] in
  let new :=
    Answer.mk (PyStr (uuid_at o 0)) (PyStr answer)
      (PyStr (AnswerType.value type))
      (PyDateTime (timestamp o)) (PyDateTime (timestamp o)) in
  plain_id applicationUuid = true ->
  ids_allocated g = true ->
  NoDup (n_id <$> nodes g) ->
  filter (fun n => is_application applicationUuid n = true) (nodes g)
  = [app] ->
  question_nodes g questionUuid = [q] ->
  existsb (is_has_answer applicationUuid q) (rels g) = false ->
  Query.getApplicationWithQuestion g applicationUuid = Ok a ->
  exists g' a',
    Mutation.saveAnswers o data g = Ok (g', None)
    /\ Query.getApplicationWithQuestion g' applicationUuid = Ok a'
    /\ Application.uuid a' = Application.uuid a
    /\ Application.name a' = Application.name a
    /\ Application.version a' = Application.version a
    /\ Application.createdAt a' = Application.createdAt a
    /\ Application.updatedAt a' = Application.updatedAt a
    /\ Application.questions a'
       ≡ₚ with_answer questionUuid new <$> Application.questions a.
Proof.
  intros data new _ Hg Hnd Happ Hq Hun Hget.
  set (t := SaveAnswerInput.mk answer questionUuid type).
  pose proof (no_answer_answers_of _ _ _ Hun) as Hnone.
  pose proof (run_save_creates o applicationUuid t g q Hq Hnone) as Hsave.
  set (Qs := questions_of g app).
  rewrite (fetch_one_application _ _ _ Happ) in Hget. fold Qs in Hget.
  apply reconcile_entries in Hget as (d0 & Hpick & Hhead & Hcomp).
  destruct (rows_of_app g applicationUuid app Qs) as [Hra Hru].
  pose proof (picked_app_same _ _ _ _ Hra Hru Hpick) as ->.
  destruct (comprehension_Permutation _ _ _
              (entries_Permutation g applicationUuid app Qs) _ Hcomp)
    as (ys1 & Hys1 & Hp1).
  pose proof (comprehension_bind_fmap Application.marshal_entry
                (with_answer questionUuid new)
                (entries_of g applicationUuid app)
                (entries_of
                   (on_create o 0 applicationUuid
                      (SaveAnswerInput.to_dict t) q g)
                   applicationUuid app)
                Qs
                (fun eq ms Hin =>
                   entries_of_after_create o applicationUuid t q app g
                     Hg Hnd Hq Hun eq ms Hin)
                ys1 Hys1) as Hys2.
  pose proof (fetch_on_create o 0 applicationUuid (SaveAnswerInput.to_dict t)
                q g applicationUuid app Hg Happ) as Hfetch.
  fold Qs in Hfetch.
  remember (on_create o 0 applicationUuid (SaveAnswerInput.to_dict t) q g)
    as g' eqn:Eg'.
  destruct (comprehension_Permutation _ _ _
              (Permutation_sym (entries_Permutation g' applicationUuid app Qs))
              _ Hys2) as (ys' & Hys' & Hp2).
  exists g'.
  exists (Application.mk (Application.uuid a) (Application.name a)
            (Application.version a) (Application.createdAt a)
            (Application.updatedAt a) ys').
  split; [rewrite <- Hsave; reflexivity|].
  split.
  - rewrite Hfetch. apply reconcile_entries.
    destruct (rows_of_app g' applicationUuid app Qs) as [Hra' Hru'].
    destruct (picked_app (Qs ≫= ans_rows_of g' applicationUuid app)
                (Qs ≫= no_ans_rows_of g' applicationUuid app))
      as [d'|] eqn:Hpick'.
    + pose proof (picked_app_same _ _ _ _ Hra' Hru' Hpick') as ->.
      exists (n_props app). split; [reflexivity|].
      split; [exact Hhead | exact Hys'].
    + exfalso. apply picked_app_None in Hpick' as [Ha' Hu'].
      rewrite Ha', Hu' in Hys'. injection Hys' as <-.
      apply Permutation_nil_r in Hp2.
      apply fmap_nil_inv in Hp2. subst ys1.
      apply Permutation_nil_r in Hp1.
      rewrite Hp1 in Hcomp. apply comprehension_length in Hcomp.
      destruct (Qs ≫= ans_rows_of g applicationUuid app),
        (Qs ≫= no_ans_rows_of g applicationUuid app);
        try discriminate Hcomp. discriminate Hpick.
  - simpl. repeat apply conj; try reflexivity.
    rewrite <- Hp2. apply fmap_Permutation. symmetry. exact Hp1.
Qed.

Lemma fetch_after_first_save_witness :
  let data :=
    SaveAnswersInput.mk "A1" [SaveAnswerInput.mk "42" "Q2" AnswerType.int] in
  let new :=
    Answer.mk (PyStr (uuid_at oracle_1 0)) (PyStr "42")
      (PyStr (AnswerType.value AnswerType.int))
      (PyDateTime (timestamp oracle_1)) (PyDateTime (timestamp oracle_1)) in
  let app := Node 0 ["Application"] (application_props "A1" "Home") in
  let q := Node 2 ["Question"] (question_props "Q2" 1) in
  let a := application_record "A1" "Home"
             [question_record "Q1" 2 None; question_record "Q2" 1 None] in
  plain_id "A1" = true
  /\ ids_allocated scenario_graph = true
  /\ NoDup (n_id <$> nodes scenario_graph)
  /\ filter (fun n => is_application "A1" n = true) (nodes scenario_graph)
     = [app]
  /\ question_nodes scenario_graph "Q2" = [q]
  /\ existsb (is_has_answer "A1" q) (rels scenario_graph) = false
  /\ Query.getApplicationWithQuestion scenario_graph "A1" = Ok a
  /\ exists g' a',
       Mutation.saveAnswers oracle_1 data scenario_graph = Ok (g', None)
       /\ Query.getApplicationWithQuestion g' "A1" = Ok a'
       /\ Application.uuid a' = Application.uuid a
       /\ Application.name a' = Application.name a
       /\ Application.version a' = Application.version a
       /\ Application.createdAt a' = Application.createdAt a
       /\ Application.updatedAt a' = Application.updatedAt a
       /\ Application.questions a'
          ≡ₚ with_answer "Q2" new <$> Application.questions a.
Proof.
  intros data new app q a.
  assert (Hg : ids_allocated scenario_graph = true)
    by (vm_compute; reflexivity).
  assert (Hnd : NoDup (n_id <$> nodes scenario_graph))
    by (apply (bool_decide_unpack _); vm_compute; exact I).
  assert (Happ : filter (fun n => is_application "A1" n = true)
                   (nodes scenario_graph) = [app])
    by (vm_compute; reflexivity).
  assert (Hq : question_nodes scenario_graph "Q2" = [q])
    by (vm_compute; reflexivity).
  assert (Hun : existsb (is_has_answer "A1" q) (rels scenario_graph) = false)
    by (vm_compute; reflexivity).
  assert (Hget : Query.getApplicationWithQuestion scenario_graph "A1" = Ok a)
    by (vm_compute; reflexivity).
  split; [reflexivity|].
  repeat (split; [assumption|]).
  exact (fetch_after_first_save scenario_graph oracle_1 "A1" "Q2" "42"
           AnswerType.int app q a eq_refl Hg Hnd Happ Hq Hun Hget).
Defined.

(** The fetch of that witness, evaluated: [Q2] has moved to the front
    with its new answer. *)
Example fetch_after_first_save_evaluated :
  Query.getApplicationWithQuestion
    (run_save oracle_1 "A1"
       [SaveAnswerInput.to_dict
          (SaveAnswerInput.mk "42" "Q2" AnswerType.int)] scenario_graph)
    "A1"
  = Ok (application_record "A1" "Home"
          [question_record "Q2" 1
             (Some (Answer.mk (PyStr "u0") (PyStr "42") (PyStr "Int")
                      (PyDateTime 100) (PyDateTime 100)));
           question_record "Q1" 2 None]).
Proof. vm_compute. reflexivity. Qed.

(** ** Rows and the paths they come from *)

Lemma run_ans_query_paths (g : graph) (applicationUuid : string) :
  run_ans_query g applicationUuid
  = ans_path_row <$> ans_paths g applicationUuid.
Proof.
  unfold run_ans_query, ans_paths. rewrite fmap_bind_list.
  apply bind_ext_in. intros app _. rewrite fmap_bind_list.
  apply bind_ext_in. intros eq _. rewrite fmap_bind_list.
  apply bind_ext_in. intros ra _. reflexivity.
Qed.

Lemma run_no_ans_query_paths (g : graph) (applicationUuid : string) :
  run_no_ans_query g applicationUuid
  = no_ans_path_row <$> no_ans_paths g applicationUuid.
Proof.
  unfold run_no_ans_query, no_ans_paths. rewrite fmap_bind_list.
  apply bind_ext_in. intros app _. rewrite fmap_bind_list.
  apply bind_ext_in. intros eq _.
  destruct (existsb _ _); reflexivity.
Qed.

Lemma answers_of_elem (g : graph) (applicationUuid : string) (q : node)
  (r : rel) (a : node) :
  (r, a) ∈ answers_of g applicationUuid q ->
  r ∈ rels g /\ is_has_answer applicationUuid q r = true
  /\ a ∈ nodes g /\ n_id a = r_end r /\ has_label "Answer" a = true.
Proof.
  unfold answers_of. intros H.
  apply list_elem_of_bind in H as (r' & H & Hr).
  apply list_elem_of_bind in H as (a' & H & Ha).
  apply list_elem_of_singleton in H. injection H as -> ->.
  apply list_elem_of_filter in Hr as [Hr Hrin].
  apply list_elem_of_filter in Ha as [Ha Hain].
  apply andb_true_iff in Ha as [Hid Hl]. apply Nat.eqb_eq in Hid. auto.
Qed.

Lemma ans_paths_elem (g : graph) (applicationUuid : string)
  (app : node) (e : rel) (q : node) (r : rel) (a : node) :
  (app, (e, q), (r, a)) ∈ ans_paths g applicationUuid ->
  (app ∈ nodes g /\ has_label "Application" app = true)
  /\ (q ∈ nodes g /\ has_label "Question" q = true)
  /\ (r, a) ∈ answers_of g applicationUuid q.
Proof.
  unfold ans_paths. intros H.
  apply list_elem_of_bind in H as (app' & H & Happ).
  apply list_elem_of_bind in H as ([e' q'] & H & Heq).
  apply list_elem_of_bind in H as ([r' a'] & H & Hra).
  apply list_elem_of_singleton in H. injection H as -> -> -> -> ->.
  apply list_elem_of_filter in Happ as [Happ Hin].
  apply andb_true_iff in Happ as [Hl _].
  apply questions_of_elem in Heq as (_ & Hq & Hlq).
  apply list_elem_of_filter in Hra as [_ Hra]. auto.
Qed.

Lemma no_ans_paths_elem (g : graph) (applicationUuid : string)
  (app : node) (e : rel) (q : node) :
  (app, (e, q)) ∈ no_ans_paths g applicationUuid ->
  (app ∈ nodes g /\ has_label "Application" app = true)
  /\ (q ∈ nodes g /\ has_label "Question" q = true).
Proof.
  unfold no_ans_paths. intros H.
  apply list_elem_of_bind in H as (app' & H & Happ).
  apply list_elem_of_bind in H as ([e' q'] & H & Heq).
  destruct (existsb _ _); [inversion H|].
  apply list_elem_of_singleton in H. injection H as -> -> ->.
  apply list_elem_of_filter in Happ as [Happ Hin].
  apply andb_true_iff in Happ as [Hl _].
  apply questions_of_elem in Heq as (_ & Hq & Hlq). auto.
Qed.

Lemma no_ans_paths_unanswered (g : graph) (applicationUuid : string)
  (app : node) (e : rel) (q : node) :
  (app, (e, q)) ∈ no_ans_paths g applicationUuid ->
  existsb (is_has_answer applicationUuid q) (rels g) = false.
Proof.
  unfold no_ans_paths. intros H.
  apply list_elem_of_bind in H as (app' & H & _).
  apply list_elem_of_bind in H as ([e' q'] & H & _).
  simpl in H. destruct (existsb _ _) eqn:E; [inversion H|].
  apply list_elem_of_singleton in H. injection H as _ _ ->. exact E.
Qed.

Lemma NoDup_fmap_elem_eq {A B : Type} (f : A -> B) (l : list A) (x y : A) :
  NoDup (f <$> l) -> x ∈ l -> y ∈ l -> f x = f y -> x = y.
Proof.
  intros Hnd Hx Hy Hxy.
  apply list_elem_of_lookup in Hx as [i Hi].
  apply list_elem_of_lookup in Hy as [j Hj].
  assert (i = j) as ->.
  { apply (NoDup_lookup _ i j (f x) Hnd).
    - rewrite list_lookup_fmap, Hi. reflexivity.
    - rewrite list_lookup_fmap, Hj, Hxy. reflexivity. }
  congruence.
Qed.

(** X14.  The two traversals share no question id, in a store where
    distinct Question nodes carry distinct uuids (and for an application
    id that the query texts read back as itself): the question of a row
    of the answered traversal has an answer-relationship for the
    application, the question of a row of the unanswered one has none,
    so they are two nodes and their uuids differ. *)
Theorem traversals_disjoint (g : graph) (applicationUuid : string)
  (ra : AnsRow.t) (ru : NoAnsRow.t) :
  plain_id applicationUuid = true ->
  question_uuids_distinct g ->
  ra ∈ run_ans_query g applicationUuid ->
  ru ∈ run_no_ans_query g applicationUuid ->
  AnsRow.q ra !! "uuid" <> NoAnsRow.q ru !! "uuid".
Proof.
  intros _ Hnd Hra Hru Heq.
  rewrite run_ans_query_paths in Hra. rewrite run_no_ans_query_paths in Hru.
  apply list_elem_of_fmap in Hra as ([[app [e q]] [r a]] & -> & Hpa).
  apply list_elem_of_fmap in Hru as ([app' [e' q']] & -> & Hpu).
  simpl in Heq.
  pose proof (no_ans_paths_unanswered _ _ _ _ _ Hpu) as Hun.
  apply ans_paths_elem in Hpa as (_ & (Hq & Hlq) & Hans).
  apply no_ans_paths_elem in Hpu as (_ & (Hq' & Hlq')).
  apply answers_of_has_answer in Hans.
  assert (q = q') as <-; [|congruence].
  apply (NoDup_fmap_elem_eq (fun n => n_props n !! "uuid")
           (filter (fun n => has_label "Question" n = true) (nodes g)));
    [exact Hnd | | | exact Heq]; apply list_elem_of_filter; auto.
Qed.

Lemma traversals_disjoint_witness :
  let ra := AnsRow.mk (application_props "A2" "Car") (question_props "Q1" 2)
              {[ "uuid" := PyStr "R1";
                 "has_application_uuid" := PyStr "A2";
                 "created_at" := PyDateTime 30;
                 "updated_at" := PyDateTime 40 ]}
              (answer_props "N1" "Paris") in
  let ru := NoAnsRow.mk (application_props "A2" "Car")
              (question_props "Q2" 1) in
  plain_id "A2" = true
  /\ question_uuids_distinct shared_questions_graph
  /\ ra ∈ run_ans_query shared_questions_graph "A2"
  /\ ru ∈ run_no_ans_query shared_questions_graph "A2"
  /\ AnsRow.q ra !! "uuid" <> NoAnsRow.q ru !! "uuid".
Proof.
  intros ra ru.
  assert (Hnd : question_uuids_distinct shared_questions_graph).
  { unfold question_uuids_distinct.
    assert (E : (fun n => n_props n !! "uuid")
                  <$> filter (fun n => has_label "Question" n = true)
                        (nodes shared_questions_graph)
                = [Some (PyStr "Q1"); Some (PyStr "Q2")])
      by (vm_compute; reflexivity).
    rewrite E. constructor.
    - intros H. apply list_elem_of_singleton in H. discriminate H.
    - constructor; [intros H; inversion H | constructor]. }
  assert (Hra : ra ∈ run_ans_query shared_questions_graph "A2").
  { assert (E : run_ans_query shared_questions_graph "A2" = [ra])
      by (vm_compute; reflexivity).
    rewrite E. left. }
  assert (Hru : ru ∈ run_no_ans_query shared_questions_graph "A2").
  { assert (E : run_no_ans_query shared_questions_graph "A2" = [ru])
      by (vm_compute; reflexivity).
    rewrite E. left. }
  repeat apply conj; [reflexivity | exact Hnd | exact Hra | exact Hru|].
  exact (traversals_disjoint shared_questions_graph "A2" ra ru eq_refl Hnd
           Hra Hru).
Defined.

Lemma labels_apart_node (g : graph) (n : node) :
  labels_apart g = true -> n ∈ nodes g ->
  has_label "Application" n = true \/ has_label "Question" n = true ->
  has_label "Answer" n = false.
Proof.
  unfold labels_apart. rewrite forallb_forall. intros H Hn Hl.
  specialize (H n (proj1 (list_elem_of_In _ _) Hn)).
  apply negb_true_iff, andb_false_iff in H as [H|H]; [exact H|].
  apply orb_false_iff in H as [H1 H2]. destruct Hl; congruence.
Qed.

Lemma answer_ends_unique_rel (g : graph) (r r' : rel) :
  answer_ends_unique g ->
  r ∈ rels g -> r' ∈ rels g ->
  String.eqb (r_type r) "HAS_ANSWER" = true ->
  String.eqb (r_type r') "HAS_ANSWER" = true ->
  r_end r = r_end r' -> r = r'.
Proof.
  unfold answer_ends_unique. intros Hnd Hr Hr' Ht Ht' Hend.
  assert (Hf : r ∈ filter (fun r => String.eqb (r_type r) "HAS_ANSWER" = true)
                      (rels g)) by (apply list_elem_of_filter; auto).
  assert (Hf' : r' ∈ filter (fun r => String.eqb (r_type r) "HAS_ANSWER"
                                      = true) (rels g))
    by (apply list_elem_of_filter; auto).
  apply list_elem_of_lookup in Hf as [i Hi].
  apply list_elem_of_lookup in Hf' as [j Hj].
  assert (i = j) as ->.
  { apply (NoDup_lookup _ i j (r_end r) Hnd).
    - rewrite list_lookup_fmap, Hi. reflexivity.
    - rewrite list_lookup_fmap, Hj, Hend. reflexivity. }
  congruence.
Qed.

Lemma is_has_answer_parts (applicationUuid : string) (q : node) (r : rel) :
  is_has_answer applicationUuid q r = true <->
  r_start r = n_id q
  /\ String.eqb (r_type r) "HAS_ANSWER" = true
  /\ prop_is (r_props r) "has_application_uuid"
       (Some (PyStr applicationUuid)) = true.
Proof.
  unfold is_has_answer. rewrite !andb_true_iff, Nat.eqb_eq. tauto.
Qed.

Lemma prop_is_two (props : dict) (k : string) (s s' : string) :
  prop_is props k (Some (PyStr s)) = true ->
  prop_is props k (Some (PyStr s')) = true -> s = s'.
Proof.
  unfold prop_is. destruct (props !! k) as [[| | |u| | |]|]; try discriminate.
  rewrite !String.eqb_eq. congruence.
Qed.

(** *** The paths of the traversals after [ON MATCH SET] *)

Section on_match_paths.
Variables (o : oracle) (applicationUuid : string) (answer : dict)
  (q : node) (g : graph).

Local Abbreviation fn := (merge_set_node o applicationUuid answer q g).
Local Abbreviation fr := (merge_set_rel o applicationUuid q g).
Local Abbreviation g' := (on_match o applicationUuid answer q g).

Lemma on_match_rel_start (r : rel) : r_start (fr r) = r_start r.
Proof.
  unfold merge_set_rel. destruct (merge_binds_rel _ _ _ _); reflexivity.
Qed.

Lemma on_match_rel_id (r : rel) : r_id (fr r) = r_id r.
Proof.
  unfold merge_set_rel. destruct (merge_binds_rel _ _ _ _); reflexivity.
Qed.

Lemma on_match_rel_type (r : rel) : r_type (fr r) = r_type r.
Proof.
  unfold merge_set_rel. destruct (merge_binds_rel _ _ _ _); reflexivity.
Qed.

Lemma on_match_node_application (au : string) (n : node) :
  is_application au (fn n) = is_application au n.
Proof.
  unfold merge_set_node, is_application.
  destruct (merge_binds_node _ _ _ _); [|reflexivity].
  simpl. rewrite prop_is_match_answer. reflexivity.
Qed.

Lemma applications_on_match (au : string) :
  filter (fun n => is_application au n = true) (nodes g')
  = fn <$> filter (fun n => is_application au n = true) (nodes g).
Proof.
  simpl. rewrite (filter_fmap_bool _ (is_application au)).
  f_equal. apply filter_ext_bool. intros n _.
  apply on_match_node_application.
Qed.

Lemma questions_of_on_match (app : node) :
  questions_of g' (fn app) = prod_map fr fn <$> questions_of g app.
Proof.
  unfold questions_of. simpl.
  rewrite (filter_fmap_bool _ (fun r => Nat.eqb (r_start r) (n_id (fn app)))).
  rewrite (filter_ext_bool _ (fun r => Nat.eqb (r_start r) (n_id app)))
    by (intros r _; cbv beta;
        rewrite on_match_rel_start, on_match_node_id; reflexivity).
  rewrite list_fmap_bind, fmap_bind_list.
  apply bind_ext_in. intros r _. simpl.
  rewrite (filter_fmap_bool _
             (fun n => Nat.eqb (n_id n) (r_end (fr r))
                       && has_label "Question" n)).
  rewrite (filter_ext_bool _
             (fun n => Nat.eqb (n_id n) (r_end r) && has_label "Question" n))
    by (intros n _; cbv beta;
        rewrite on_match_node_id, on_match_node_label, on_match_rel_end;
        reflexivity).
  rewrite list_fmap_bind, fmap_bind_list. reflexivity.
Qed.

Lemma has_answer_on_match (au : string) (q' : node) :
  existsb (is_has_answer au (fn q')) (rels g')
  = existsb (is_has_answer au q') (rels g).
Proof.
  simpl. induction (rels g) as [|r l IH]; [reflexivity|].
  rewrite fmap_cons. simpl. rewrite IH, on_match_rel_has_answer.
  unfold is_has_answer. rewrite on_match_node_id. reflexivity.
Qed.

Lemma answers_of_on_match_node (au : string) (q' : node) :
  answers_of g' au (fn q') = prod_map fr fn <$> answers_of g au q'.
Proof.
  rewrite answers_of_on_match.
  rewrite (answers_of_id g au (fn q') q'); [reflexivity|].
  apply on_match_node_id.
Qed.

Lemma ans_paths_on_match (au : string) :
  ans_paths g' au
  = merge_set_path o applicationUuid answer q g <$> ans_paths g au.
Proof.
  unfold ans_paths. rewrite applications_on_match.
  rewrite list_fmap_bind, fmap_bind_list.
  apply bind_ext_in. intros app _. simpl.
  rewrite questions_of_on_match, list_fmap_bind, fmap_bind_list.
  apply bind_ext_in. intros [e q'] _. simpl.
  rewrite answers_of_on_match_node.
  rewrite (filter_fmap_bool _
             (fun ra => negb (Nat.eqb (r_id ra.1) (r_id (fr e))))).
  rewrite (filter_ext_bool _
             (fun ra => negb (Nat.eqb (r_id ra.1) (r_id e))))
    by (intros [r a] _; simpl; rewrite !on_match_rel_id; reflexivity).
  rewrite list_fmap_bind, fmap_bind_list.
  apply bind_ext_in. intros [r a] _. reflexivity.
Qed.

Lemma no_ans_paths_on_match (au : string) :
  no_ans_paths g' au
  = merge_set_no_ans_path o applicationUuid answer q g
      <$> no_ans_paths g au.
Proof.
  unfold no_ans_paths. rewrite applications_on_match.
  rewrite list_fmap_bind, fmap_bind_list.
  apply bind_ext_in. intros app _. simpl.
  rewrite questions_of_on_match, list_fmap_bind, fmap_bind_list.
  apply bind_ext_in. intros [e q'] _. simpl.
  rewrite has_answer_on_match.
  destruct (existsb _ _); reflexivity.
Qed.

Lemma labels_apart_on_match :
  labels_apart g = true -> labels_apart g' = true.
Proof.
  unfold labels_apart. rewrite !forallb_forall. intros H n Hn.
  simpl in Hn. apply in_map_iff in Hn as (n0 & <- & Hn0).
  rewrite !on_match_node_label. apply H, Hn0.
Qed.

Lemma answer_ends_unique_on_match :
  answer_ends_unique g -> answer_ends_unique g'.
Proof.
  unfold answer_ends_unique. simpl. intros H.
  rewrite (filter_fmap_bool _ (fun r => String.eqb (r_type r) "HAS_ANSWER")).
  rewrite (filter_ext_bool _ (fun r => String.eqb (r_type r) "HAS_ANSWER"))
    by (intros r _; cbv beta; rewrite on_match_rel_type; reflexivity).
  rewrite <- list_fmap_compose.
  erewrite list_fmap_ext; [exact H|].
  intros i r _. apply on_match_rel_end.
Qed.

(** The Answer node at the end of an answer-relationship of another
    question or another application is not bound by the matched paths. *)
Lemma answers_of_unbound (au : string) (q' : node) (r : rel) (a : node) :
  answer_ends_unique g ->
  (r, a) ∈ answers_of g au q' ->
  au <> applicationUuid \/ n_id q' <> n_id q ->
  fr r = r /\ fn a = a.
Proof.
  intros Hends Hin Hne.
  apply answers_of_elem in Hin as (Hr & Hha & Ha & Hid & Hlab).
  apply is_has_answer_parts in Hha as (Hstart & Htype & Hprop).
  assert (Hnot : is_has_answer applicationUuid q r = false).
  { destruct (is_has_answer applicationUuid q r) eqn:E; [|reflexivity].
    apply is_has_answer_parts in E as (Hstart' & _ & Hprop').
    destruct Hne as [Hne|Hne]; exfalso; apply Hne.
    - apply (prop_is_two _ _ _ _ Hprop Hprop').
    - congruence. }
  split.
  - unfold merge_set_rel, merge_binds_rel. rewrite Hnot. reflexivity.
  - unfold merge_set_node, merge_binds_node. rewrite Hlab. simpl.
    destruct (existsb _ _) eqn:E; [|reflexivity].
    apply existsb_exists in E as (r' & Hr' & E).
    apply andb_true_iff in E as [Hha' Hend]. apply Nat.eqb_eq in Hend.
    pose proof Hha' as Hparts.
    apply is_has_answer_parts in Hparts as (_ & Htype' & _).
    assert (r = r') as <-.
    { apply (answer_ends_unique_rel g); auto.
      - apply list_elem_of_In, Hr'.
      - congruence. }
    congruence.
Qed.
End on_match_paths.

Lemma merge_set_path_other (o : oracle) (applicationUuid au : string)
  (answer : dict) (q : node) (g : graph)
  (p : node * (rel * node) * (rel * node)) :
  labels_apart g = true -> answer_ends_unique g ->
  au <> applicationUuid ->
  p ∈ ans_paths g au ->
  ans_path_row (merge_set_path o applicationUuid answer q g p)
  = ans_path_row p.
Proof.
  intros Hl Hends Hne Hp. destruct p as [[app [e q']] [r a]].
  apply ans_paths_elem in Hp as ((Happ & Hlapp) & (Hq' & Hlq) & Hra).
  destruct (answers_of_unbound o applicationUuid answer q g au q' r a
              Hends Hra) as [Hr Ha]; [left; exact Hne|].
  unfold ans_path_row, merge_set_path. simpl.
  rewrite Hr, Ha.
  rewrite !merge_set_node_other
    by (eapply labels_apart_node; eauto).
  reflexivity.
Qed.

Lemma merge_set_no_ans_path_row (o : oracle) (applicationUuid au : string)
  (answer : dict) (q : node) (g : graph) (p : node * (rel * node)) :
  labels_apart g = true ->
  p ∈ no_ans_paths g au ->
  no_ans_path_row (merge_set_no_ans_path o applicationUuid answer q g p)
  = no_ans_path_row p.
Proof.
  intros Hl Hp. destruct p as [app [e q']].
  apply no_ans_paths_elem in Hp as ((Happ & Hlapp) & (Hq' & Hlq)).
  unfold no_ans_path_row, merge_set_no_ans_path. simpl.
  rewrite !merge_set_node_other
    by (eapply labels_apart_node; eauto).
  reflexivity.
Qed.

Lemma list_fmap_ext_in {A B : Type} (f h : A -> B) (l : list A) :
  (forall x, x ∈ l -> f x = h x) -> f <$> l = h <$> l.
Proof.
  intros H. apply list_fmap_ext. intros i x Hi.
  apply H. eapply list_elem_of_lookup_2, Hi.
Qed.

(** *** The paths of another application after [ON CREATE SET] *)

Section on_create_paths.
Variables (o : oracle) (k : nat) (applicationUuid : string) (answer : dict)
  (q : node) (g : graph).
Hypothesis Hg : ids_allocated g = true.

Local Abbreviation g' := (on_create o k applicationUuid answer q g).

Lemma is_has_answer_created_other (au : string) (q' : node) :
  au <> applicationUuid ->
  is_has_answer au q' (created_rel o k applicationUuid q g) = false.
Proof.
  intros Hne. destruct (is_has_answer _ _ _) eqn:E; [|reflexivity].
  apply is_has_answer_created in E as [_ E]. congruence.
Qed.

Lemma ans_paths_on_create_other (au : string) :
  au <> applicationUuid -> ans_paths g' au = ans_paths g au.
Proof.
  intros Hne. unfold ans_paths.
  rewrite (applications_on_create o k applicationUuid answer q g).
  apply bind_ext_in. intros app _.
  rewrite (questions_of_on_create o k applicationUuid answer q g Hg).
  apply bind_ext_in. intros [e q'] _. simpl.
  rewrite answers_of_on_create by exact Hg.
  rewrite is_has_answer_created_other by exact Hne.
  rewrite app_nil_r. reflexivity.
Qed.

Lemma no_ans_paths_on_create_other (au : string) :
  au <> applicationUuid -> no_ans_paths g' au = no_ans_paths g au.
Proof.
  intros Hne. unfold no_ans_paths.
  rewrite (applications_on_create o k applicationUuid answer q g).
  apply bind_ext_in. intros app _.
  rewrite (questions_of_on_create o k applicationUuid answer q g Hg).
  apply bind_ext_in. intros [e q'] _. simpl.
  rewrite existsb_app. simpl.
  rewrite is_has_answer_created_other by exact Hne.
  rewrite !orb_false_r. reflexivity.
Qed.

Lemma labels_apart_on_create :
  labels_apart g = true -> labels_apart g' = true.
Proof.
  unfold labels_apart. simpl. rewrite forallb_app. intros ->. reflexivity.
Qed.

Lemma answer_ends_unique_on_create :
  answer_ends_unique g -> answer_ends_unique g'.
Proof.
  unfold answer_ends_unique. simpl. intros H.
  rewrite filter_app, fmap_app. apply NoDup_app. split; [exact H|].
  rewrite filter_cons, filter_nil.
  destruct (decide _); [|split; [intros x _ Hx; inversion Hx | constructor]].
  rewrite fmap_cons, fmap_nil. split; [|apply NoDup_singleton].
  intros x Hx Hx'. apply list_elem_of_singleton in Hx' as ->.
  apply list_elem_of_fmap in Hx as (r & Hend & Hr).
  apply list_elem_of_filter in Hr as [_ Hr].
  pose proof (ids_allocated_rel_end g r Hg Hr) as Hlt.
  simpl in Hend. lia.
Qed.
End on_create_paths.

(** One row of [MERGE] keeps the labels apart and the ends of the
    answer-relationships distinct, and leaves the rows of another
    application as they are. *)
Lemma merge_row_apart (o : oracle) (applicationUuid : string)
  (s : graph * nat) (row : dict * node) :
  ids_allocated s.1 = true ->
  labels_apart s.1 = true /\ answer_ends_unique s.1 ->
  labels_apart (merge_row o applicationUuid s row).1 = true
  /\ answer_ends_unique (merge_row o applicationUuid s row).1.
Proof.
  intros Hs [Hl He]. unfold merge_row.
  destruct (answers_of s.1 applicationUuid row.2) as [|p l]; simpl.
  - split; [apply labels_apart_on_create | apply answer_ends_unique_on_create];
      assumption.
  - split; [apply labels_apart_on_match | apply answer_ends_unique_on_match];
      assumption.
Qed.

Lemma merge_row_other_rows (o : oracle) (applicationUuid au : string)
  (s : graph * nat) (row : dict * node) :
  ids_allocated s.1 = true ->
  labels_apart s.1 = true -> answer_ends_unique s.1 ->
  au <> applicationUuid ->
  run_ans_query (merge_row o applicationUuid s row).1 au
  = run_ans_query s.1 au
  /\ run_no_ans_query (merge_row o applicationUuid s row).1 au
     = run_no_ans_query s.1 au.
Proof.
  intros Hs Hl He Hne.
  rewrite !run_ans_query_paths, !run_no_ans_query_paths. unfold merge_row.
  destruct (answers_of s.1 applicationUuid row.2) as [|p l]; simpl.
  - rewrite ans_paths_on_create_other, no_ans_paths_on_create_other
      by assumption. auto.
  - rewrite ans_paths_on_match, no_ans_paths_on_match.
    rewrite <- !list_fmap_compose. split.
    + apply list_fmap_ext_in. intros p' Hp'. simpl.
      apply (merge_set_path_other _ _ au); assumption.
    + apply list_fmap_ext_in. intros p' Hp'. simpl.
      apply (merge_set_no_ans_path_row _ _ au); assumption.
Qed.

(** X16 ([Mutation.saveAnswers]): the write query keeps the store well
    formed, for an application id that the query text reads back as
    itself.  If no node is an Answer and an Application or a Question at
    once, and no node is the end of two [HAS_ANSWER] relationships, then
    the same holds after [saveAnswers], whatever the batch: the Answer
    nodes it creates carry the one label, and each is the end of the one
    relationship created with it. *)
Theorem saveAnswers_keeps_answers_apart (o : oracle)
  (data : SaveAnswersInput.t) (g g' : graph) (ret : option Question.t) :
  plain_id (SaveAnswersInput.applicationUuid data) = true ->
  ids_allocated g = true ->
  labels_apart g = true ->
  answer_ends_unique g ->
  Mutation.saveAnswers o data g = Ok (g', ret) ->
  labels_apart g' = true /\ answer_ends_unique g'.
Proof.
  intros _ Hg Hl He. unfold Mutation.saveAnswers, run_save. intros [= <- _].
  apply (merge_rows_invariant
           (fun g => labels_apart g = true /\ answer_ends_unique g)
           o _ (next_id g));
    auto using save_table_allocated, merge_row_apart.
Qed.

Lemma shared_questions_graph_ends :
  answer_ends_unique shared_questions_graph.
Proof.
  unfold answer_ends_unique. apply (bool_decide_unpack _).
  vm_compute. exact I.
Qed.

Lemma saveAnswers_keeps_answers_apart_witness :
  let data :=
    SaveAnswersInput.mk "A1"
      [SaveAnswerInput.mk "Rome" "Q1" AnswerType.string;
       SaveAnswerInput.mk "42" "Q2" AnswerType.int;
       SaveAnswerInput.mk "43" "Q2" AnswerType.int] in
  plain_id (SaveAnswersInput.applicationUuid data) = true
  /\ ids_allocated shared_questions_graph = true
  /\ labels_apart shared_questions_graph = true
  /\ answer_ends_unique shared_questions_graph
  /\ exists g',
       Mutation.saveAnswers oracle_1 data shared_questions_graph
       = Ok (g', None)
       /\ labels_apart g' = true /\ answer_ends_unique g'.
Proof.
  intros data.
  assert (Hg : ids_allocated shared_questions_graph = true)
    by (vm_compute; reflexivity).
  assert (Hl : labels_apart shared_questions_graph = true)
    by (vm_compute; reflexivity).
  repeat apply conj;
    [reflexivity | exact Hg | exact Hl | exact shared_questions_graph_ends|].
  eexists. split; [reflexivity|].
  exact (saveAnswers_keeps_answers_apart oracle_1 data shared_questions_graph
           _ None eq_refl Hg Hl shared_questions_graph_ends eq_refl).
Defined.

(** X17 ([Mutation.saveAnswers] then [Query.getApplicationWithQuestion]):
    a save for one application is not seen by another, both application
    ids being read back as themselves by the query texts.  In a store where
    no node is an Answer and an Application or a Question at once, and no
    Answer node is the end of two [HAS_ANSWER] relationships, a call of
    [saveAnswers] for [data.applicationUuid] leaves the rows of both
    traversals for every other application uuid as they were, and with
    them the result of [getApplicationWithQuestion], also when the two
    applications share the questions the batch names. *)
Theorem saveAnswers_other_application (o : oracle)
  (data : SaveAnswersInput.t) (g g' : graph) (ret : option Question.t)
  (applicationUuid : string) :
  plain_id (SaveAnswersInput.applicationUuid data) = true ->
  plain_id applicationUuid = true ->
  ids_allocated g = true ->
  labels_apart g = true ->
  answer_ends_unique g ->
  applicationUuid <> SaveAnswersInput.applicationUuid data ->
  Mutation.saveAnswers o data g = Ok (g', ret) ->
  run_ans_query g' applicationUuid = run_ans_query g applicationUuid
  /\ run_no_ans_query g' applicationUuid
     = run_no_ans_query g applicationUuid
  /\ Query.getApplicationWithQuestion g' applicationUuid
     = Query.getApplicationWithQuestion g applicationUuid.
Proof.
  intros _ _ Hg Hl He Hne. unfold Mutation.saveAnswers, run_save.
  intros [= <- _].
  set (P := fun s : graph =>
    (labels_apart s = true /\ answer_ends_unique s)
    /\ run_ans_query s applicationUuid = run_ans_query g applicationUuid
    /\ run_no_ans_query s applicationUuid
       = run_no_ans_query g applicationUuid).
  assert (HP : P (foldl (merge_row o (SaveAnswersInput.applicationUuid data))
                    (g, 0)
                    (save_table g (SaveAnswersInput.serialize data))).1).
  { apply (merge_rows_invariant P o _ (next_id g));
      auto using save_table_allocated.
    - intros s row Hs [[Hls Hes] [Ha Hn]]. split.
      + apply merge_row_apart; auto.
      + destruct (merge_row_other_rows o
                    (SaveAnswersInput.applicationUuid data) applicationUuid
                    s row Hs Hls Hes Hne) as [-> ->]. auto.
    - repeat split; assumption. }
  destruct HP as [_ [Ha Hn]]. repeat apply conj; [exact Ha | exact Hn|].
  unfold Query.getApplicationWithQuestion. rewrite Ha, Hn. reflexivity.
Qed.

Lemma saveAnswers_other_application_witness :
  let data :=
    SaveAnswersInput.mk "A1"
      [SaveAnswerInput.mk "Rome" "Q1" AnswerType.string;
       SaveAnswerInput.mk "42" "Q2" AnswerType.int;
       SaveAnswerInput.mk "43" "Q2" AnswerType.int] in
  plain_id (SaveAnswersInput.applicationUuid data) = true
  /\ plain_id "A2" = true
  /\ ids_allocated shared_questions_graph = true
  /\ labels_apart shared_questions_graph = true
  /\ answer_ends_unique shared_questions_graph
  /\ "A2" <> SaveAnswersInput.applicationUuid data
  /\ exists g',
       Mutation.saveAnswers oracle_1 data shared_questions_graph
       = Ok (g', None)
       /\ g' <> shared_questions_graph
       /\ run_ans_query g' "A2" = run_ans_query shared_questions_graph "A2"
       /\ run_no_ans_query g' "A2"
          = run_no_ans_query shared_questions_graph "A2"
       /\ Query.getApplicationWithQuestion g' "A2"
          = Query.getApplicationWithQuestion shared_questions_graph "A2"
       /\ Query.getApplicationWithQuestion g' "A2"
          = Ok (application_record "A2" "Car"
                  [question_record "Q1" 2 (Some (answer_record "N1" "Paris"));
                   question_record "Q2" 1 None]).
Proof.
  intros data.
  assert (Hg : ids_allocated shared_questions_graph = true)
    by (vm_compute; reflexivity).
  assert (Hl : labels_apart shared_questions_graph = true)
    by (vm_compute; reflexivity).
  assert (Hne : "A2" <> SaveAnswersInput.applicationUuid data)
    by discriminate.
  repeat apply conj;
    [reflexivity | reflexivity | exact Hg | exact Hl
    | exact shared_questions_graph_ends | exact Hne|].
  eexists. split; [reflexivity|].
  destruct (saveAnswers_other_application oracle_1 data
              shared_questions_graph _ None "A2" eq_refl eq_refl Hg Hl
              shared_questions_graph_ends Hne eq_refl) as (Ha & Hn & Hf).
  repeat apply conj; [|exact Ha | exact Hn | exact Hf|].
  - intros E. apply (f_equal next_id) in E. vm_compute in E. discriminate.
  - rewrite Hf. vm_compute. reflexivity.
Defined.

(** *** A fetch after an update *)




Section fetch_after_update.
Variables (o : oracle) (applicationUuid : string) (t : SaveAnswerInput.t)
  (q : node) (g : graph).
Hypothesis Hl : labels_apart g = true.
Hypothesis Hends : answer_ends_unique g.
Hypothesis Hnd : NoDup (n_id <$> nodes g).
Hypothesis Hq : question_nodes g (SaveAnswerInput.questionUuid t) = [q].

Local Abbreviation d := (SaveAnswerInput.to_dict t).




End fetch_after_update.


